(** * batchcopy: a shallow embedding of [batchcopy.py]

    The development follows the source file top-down:

    - [Path]   : the fragment of [os.path] (POSIX flavour) the program calls;
    - [OS]     : a file-system model with the [os] / [shutil] calls the program
                 makes, each returning either a result or a Python exception;
    - [Helpers] : the directory listing of the module [helpers];
    - [ThreadedCopy] : the class of the same name: the planner [init] in a
                 state-and-exception monad, the worker loop [_worker_func]
                 and the pool operations [put], [start], [wait], [stop] as a
                 small-step machine over interleavings;
    - [BatchCopy] : the pre-flight checks of [_on_start] and the session
                 thread [start_copy];
    - [Spec], [Inv], [Examples] : the properties in the words of the
                 specification, the invariants of a session, and the worlds
                 the examples run in;
    - [Window] : the other handlers of [BatchCopy]: the choice of sources
                 and target, the search for cards, their erasure, the log,
                 the themes, and what [_on_start], [_on_done_callback] and
                 [_on_quit] share;
    - [Closing], [Cases] : how a session comes to its end, and further
                 worlds for examples.

    The properties follow, claim by claim ([C1] to [C10]), and after them
    further properties of the code ([X1] to [X18]).

    Python strings are [string]; [None] is the [None] of [option string];
    counters are [nat]; byte counts are [Z]; clock readings are [Q]. *)

From Stdlib Require Import Ascii String ZArith QArith Qround Lia.
From stdpp Require Import base option list gmap strings pretty.
Close Scope Q_scope.
Open Scope string_scope.
Open Scope list_scope.

(** ** os.path *)

Module Path.

(** [os.path.sep] on POSIX. *)
Definition sep : string := "/".

Definition is_sep (a : ascii) : bool := Ascii.eqb a "/"%char.

(** [s.split('/')]: never empty, one more piece than separators. *)
Fixpoint split (s : string) : list string :=
  match s with
  | EmptyString => [EmptyString]
  | String a s' =>
      if is_sep a then EmptyString :: split s'
      else match split s' with
           | [] => [String a EmptyString]
           | c :: cs => String a c :: cs
           end
  end.

Definition nonempty (s : string) : bool :=
  match s with EmptyString => false | _ => true end.

(** [s.startswith(p)]. *)
Fixpoint startswith (s p : string) : bool :=
  match p, s with
  | EmptyString, _ => true
  | String a p', String b s' => Ascii.eqb a b && startswith s' p'
  | String _ _, EmptyString => false
  end.

Fixpoint endswith_sep (s : string) : bool :=
  match s with
  | EmptyString => false
  | String a EmptyString => is_sep a
  | String _ s' => endswith_sep s'
  end.

(** [os.path.join(a, b)] for two arguments. *)
Definition join (a b : string) : string :=
  if startswith b sep then b
  else if negb (nonempty a) || endswith_sep a then a +:+ b
  else a +:+ sep +:+ b.

(** [os.path.basename(p)]: what follows the last separator. *)
Definition basename (p : string) : string := List.last (split p) EmptyString.

Fixpoint has_sep (s : string) : bool :=
  match s with
  | EmptyString => false
  | String c s' => is_sep c || has_sep s'
  end.

(** A name a directory entry can bear. *)
Definition proper_name (name : string) : bool :=
  nonempty name && negb (has_sep name)
  && negb (String.eqb name ".") && negb (String.eqb name "..").

(** Collapsing of [.] and [..] as [os.path.normpath] does for an absolute
    path; [acc] holds the components kept so far, innermost first. *)
Fixpoint collapse (acc cs : list string) : list string :=
  match cs with
  | [] => rev acc
  | c :: cs' =>
      if String.eqb c "." then collapse acc cs'
      else if String.eqb c ".." then collapse (tail acc) cs'
      else collapse (c :: acc) cs'
  end.

(** The components of the normalised absolute path [p] denotes.  The
    current directory of the process is taken to be the root, so that a
    relative path is read from there. *)
Definition components (p : string) : list string :=
  collapse [] (List.filter nonempty (split p)).

Fixpoint concat_sep (cs : list string) : string :=
  match cs with
  | [] => EmptyString
  | c :: cs' => sep +:+ c +:+ concat_sep cs'
  end.

(** [os.path.abspath(p)]. *)
Definition abspath (p : string) : string :=
  match components p with
  | [] => sep
  | cs => concat_sep cs
  end.

End Path.

(** ** The file system and the [os] / [shutil] calls *)

Module OS.
Import Path.

(** What a directory entry can be.  A regular file is its content (one
    character per byte); a symbolic link is the text it points to. *)
Inductive node :=
| File (content : string)
| Dir
| Symlink (target : string).

(** The tree, keyed by the components of the absolute path; the root [[]]
    is a directory that is always there.  Scope of the model: permissions,
    hard links and special files are absent; a symbolic link is followed
    when it is the last component of a path, a directory is not reached
    through a link; the text of a link is read as an absolute path.  A path
    that leads through a regular file is told from one that is merely not
    there by [listdir], the one call whose two errors the program handles
    differently; the other calls report both as [ENOENT], which shows in
    the text of an error line only. *)
Abbreviation filesystem := (gmap (list string) node).

Inductive errno := ENOENT | EEXIST | EISDIR | ENOTDIR | ELOOP.

(** Python exceptions the modelled calls raise: [OSError] with its errno
    (whose subclass is [FileNotFoundError], [FileExistsError],
    [IsADirectoryError], [NotADirectoryError] or plain [OSError]),
    [shutil.SameFileError] and [ValueError]. *)
Inductive exn :=
| OSError (e : errno) (filename : string) (filename2 : option string)
| SameFileError (src dst : string)
| ValueError (msg : string).

Definition is_FileNotFoundError (e : exn) : bool :=
  match e with OSError ENOENT _ _ => true | _ => false end.

Definition is_FileExistsError (e : exn) : bool :=
  match e with OSError EEXIST _ _ => true | _ => false end.

(** The characters [repr] treats apart. *)
Definition single_quote : ascii := ascii_of_nat 39.
Definition double_quote : ascii := ascii_of_nat 34.
Definition reverse_solidus : ascii := ascii_of_nat 92.

(** A hexadecimal digit, in lower case. *)
Definition hex_digit (n : nat) : ascii :=
  ascii_of_nat (if (n <? 10)%nat then 48 + n else 87 + n).

(** What [repr] writes for the character [c] between quotes [quote]. *)
Definition escape (quote c : ascii) : string :=
  let n := nat_of_ascii c in
  if Ascii.eqb c quote || Ascii.eqb c reverse_solidus then
    String reverse_solidus (String c EmptyString)
  else if (n =? 9)%nat then String reverse_solidus "t"
  else if (n =? 10)%nat then String reverse_solidus "n"
  else if (n =? 13)%nat then String reverse_solidus "r"
  else if (n <? 32)%nat || (n =? 127)%nat then
    String reverse_solidus
      (String "x" (String (hex_digit (n / 16))
                     (String (hex_digit (n mod 16)) EmptyString)))
  else String c EmptyString.

Fixpoint escape_all (quote : ascii) (s : string) : string :=
  match s with
  | EmptyString => EmptyString
  | String c s' => escape quote c +:+ escape_all quote s'
  end.

Fixpoint contains (c : ascii) (s : string) : bool :=
  match s with
  | EmptyString => false
  | String a s' => Ascii.eqb a c || contains c s'
  end.

(** [repr(s)] of a [str]: between double quotes when [s] holds a single
    quote and no double one, between single quotes otherwise; the quote in
    use, the backslash and the control characters are escaped.  A byte
    above 127 stands for part of the UTF-8 encoding of a character that is
    not ASCII and is kept, as Python keeps such a character when it is
    printable. *)
Definition repr (s : string) : string :=
  let quote :=
    if contains single_quote s && negb (contains double_quote s)
    then double_quote else single_quote in
  String quote (escape_all quote s +:+ String quote EmptyString).

Definition strerror (e : errno) : string :=
  match e with
  | ENOENT => "[Errno 2] No such file or directory"
  | EEXIST => "[Errno 17] File exists"
  | EISDIR => "[Errno 21] Is a directory"
  | ENOTDIR => "[Errno 20] Not a directory"
  | ELOOP => "[Errno 40] Too many levels of symbolic links"
  end.

(** [str(e)]. *)
Definition str (e : exn) : string :=
  match e with
  | OSError n f None => strerror n +:+ ": " +:+ repr f
  | OSError n f (Some g) => strerror n +:+ ": " +:+ repr f +:+ " -> " +:+ repr g
  | SameFileError a b => repr a +:+ " and " +:+ repr b +:+ " are the same file"
  | ValueError m => m
  end.

(** A call returns or raises. *)
Inductive res (A : Type) :=
| Ok (a : A)
| Raise (e : exn).
Arguments Ok {A} a.
Arguments Raise {A} e.

#[global] Instance res_ret : MRet res := @Ok.
#[global] Instance res_bind : MBind res := fun A B f m =>
  match m with Ok a => f a | Raise e => Raise e end.

Definition is_Ok {A} (r : res A) : bool :=
  match r with Ok _ => true | Raise _ => false end.

Definition lookup_key (fs : filesystem) (k : list string) : option node :=
  match k with [] => Some Dir | _ => fs !! k end.

Definition parent (k : list string) : list string := removelast k.

Inductive resolved :=
| Found (k : list string) (n : node)
| Missing (k : list string)
| Loop.

(** Follow the links at [k]; [fuel] bounds their number. *)
Fixpoint follow (fuel : nat) (fs : filesystem) (k : list string) : resolved :=
  match lookup_key fs k with
  | None => Missing k
  | Some (Symlink t) =>
      match fuel with
      | O => Loop
      | S fuel' => follow fuel' fs (components t)
      end
  | Some n => Found k n
  end.

Definition max_links : nat := 40.

Definition resolve (fs : filesystem) (p : string) : resolved :=
  follow max_links fs (components p).

Definition is_dir (n : node) : bool :=
  match n with Dir => true | _ => false end.

(** [os.stat(p)]: follows links; a trailing separator asks for a
    directory. *)
Definition stat (fs : filesystem) (p : string) : res node :=
  match resolve fs p with
  | Found _ n =>
      if endswith_sep p && negb (is_dir n) then Raise (OSError ENOTDIR p None)
      else Ok n
  | Missing _ => Raise (OSError ENOENT p None)
  | Loop => Raise (OSError ELOOP p None)
  end.

(** [os.lstat(p)], as far as [os.path.islink] needs it. *)
Definition lstat (fs : filesystem) (p : string) : option node :=
  lookup_key fs (components p).

(** [os.path.exists], [os.path.isfile], [os.path.isdir], [os.path.islink]:
    they answer [False] where [os.stat] raises. *)
Definition exists_ (fs : filesystem) (p : string) : bool := is_Ok (stat fs p).

Definition isfile (fs : filesystem) (p : string) : bool :=
  match stat fs p with Ok (File _) => true | _ => false end.

Definition isdir (fs : filesystem) (p : string) : bool :=
  match stat fs p with Ok Dir => true | _ => false end.

Definition islink (fs : filesystem) (p : string) : bool :=
  match lstat fs p with Some (Symlink _) => true | _ => false end.

(** [st_size] of a directory (the value of the usual Linux file systems). *)
Definition dir_st_size : Z := 4096.

(** [os.path.getsize(p)]. *)
Definition getsize (fs : filesystem) (p : string) : res Z :=
  n ← stat fs p;
  match n with
  | File c => Ok (Z.of_nat (String.length c))
  | _ => Ok dir_st_size
  end.

(** The name under which [k'] is an entry of the directory [k]. *)
Definition child_name (k k' : list string) : option string :=
  match rev k' with
  | name :: r => if decide (rev r = k) then Some name else None
  | [] => None
  end.

(** The path with components [k] leads through a regular file: one of its
    proper prefixes is one. *)
Definition through_file (fs : filesystem) (k : list string) : bool :=
  existsb (fun n => match lookup_key fs (take n k) with
                    | Some (File _) => true
                    | _ => false
                    end)
    (seq 0 (length k)).

(** [os.listdir(p)].  Of a path that is not there it raises
    [FileNotFoundError], unless the path leads through a regular file, when
    it raises [NotADirectoryError] as [opendir(3)] does: the program tells
    the two apart (line 117). *)
Definition listdir (fs : filesystem) (p : string) : res (list string) :=
  match resolve fs p with
  | Found k Dir => Ok (omap (child_name k) (elements (dom fs)))
  | Found _ _ => Raise (OSError ENOTDIR p None)
  | Missing k =>
      Raise (OSError (if through_file fs k then ENOTDIR else ENOENT) p None)
  | Loop => Raise (OSError ELOOP p None)
  end.

(** A new entry [n] at key [k], named [p] by the caller, with the errors of
    [mkdir(2)], [symlink(2)] and [open(2)] with [O_CREAT]. *)
Definition create (fs : filesystem) (p : string) (p2 : option string)
    (k : list string) (n : node) : res filesystem :=
  match lookup_key fs k with
  | Some _ => Raise (OSError EEXIST p p2)
  | None =>
      match lookup_key fs (parent k) with
      | Some Dir => Ok (<[k := n]> fs)
      | Some _ => Raise (OSError ENOTDIR p p2)
      | None => Raise (OSError ENOENT p p2)
      end
  end.

(** [os.mkdir(p)]. *)
Definition mkdir (fs : filesystem) (p : string) : res filesystem :=
  create fs p None (components p) Dir.

(** [os.remove(p)]: removes the entry itself, never what a link points to. *)
Definition remove (fs : filesystem) (p : string) : res filesystem :=
  match lookup_key fs (components p) with
  | None => Raise (OSError ENOENT p None)
  | Some Dir => Raise (OSError EISDIR p None)
  | Some _ => Ok (delete (components p) fs)
  end.

(** [os.readlink(p)]. *)
Definition readlink (fs : filesystem) (p : string) : res string :=
  match lstat fs p with
  | Some (Symlink t) => Ok t
  | Some _ => Raise (OSError ENOTDIR p None)
  | None => Raise (OSError ENOENT p None)
  end.

(** [os.symlink(target, p)]. *)
Definition symlink (fs : filesystem) (target p : string) : res filesystem :=
  if endswith_sep p then Raise (OSError ENOENT target (Some p))
  else create fs target (Some p) (components p) (Symlink target).

(** [open(p, 'rb').read()]. *)
Definition read_file (fs : filesystem) (p : string) : res string :=
  n ← stat fs p;
  match n with
  | File c => Ok c
  | _ => Raise (OSError EISDIR p None)
  end.

(** [open(p, 'wb')], the write of [c] and the close: truncates what is
    there, creates what is not, writes through a link. *)
Definition write_file (fs : filesystem) (p : string) (c : string) : res filesystem :=
  match resolve fs p with
  | Found k (File _) =>
      if endswith_sep p then Raise (OSError ENOTDIR p None)
      else Ok (<[k := File c]> fs)
  | Found _ _ => Raise (OSError EISDIR p None)
  | Missing k =>
      if endswith_sep p then Raise (OSError EISDIR p None)
      else create fs p None k (File c)
  | Loop => Raise (OSError ELOOP p None)
  end.

(** [os.path.samefile] as [shutil] uses it: [False] where [os.stat]
    raises. *)
Definition samefile (fs : filesystem) (a b : string) : bool :=
  match resolve fs a, resolve fs b with
  | Found ka _, Found kb _ =>
      exists_ fs a && exists_ fs b && bool_decide (ka = kb)
  | _, _ => false
  end.

(** [shutil.copyfile(src, dst, follow_symlinks=...)]. *)
Definition copyfile (fs : filesystem) (src dst : string) (follow_symlinks : bool)
    : res filesystem :=
  if samefile fs src dst then Raise (SameFileError src dst)
  else if negb follow_symlinks && islink fs src then
    t ← readlink fs src; symlink fs t dst
  else
    c ← read_file fs src; write_file fs dst c.

(** [shutil.copy(src, dst, follow_symlinks=...)]; the permission bits that
    [copymode] carries over are not part of [node].  The whole copy of one
    file is one step of the model. *)
Definition copy (fs : filesystem) (src dst : string) (follow_symlinks : bool)
    : res filesystem :=
  let dst := if isdir fs dst then join dst (basename src) else dst in
  copyfile fs src dst follow_symlinks.

End OS.

(** ** module helpers *)

Module Helpers.
Import Path OS.

(** Modelled from the spec: the module [helpers] is not among the sources.
    [get_subdirs(root, prefix)] is the spec's [listSubdirs]: the immediate
    subdirectories of [root] whose name starts with [prefix], compared
    case-sensitively, by name. *)
Definition get_subdirs (w : filesystem) (root prefix : string) : res (list string) :=
  match listdir w root with
  | Ok names =>
      Ok (List.filter (fun n => isdir w (join root n) && startswith n prefix) names)
  | Raise _ => Ok []
  end.

End Helpers.

(** ** class ThreadedCopy *)

Module ThreadedCopy.
Import Path OS.

(** An item of [_file_queue]: [[source, dest]], or [(None, None)]. *)
Definition field : Type := option string.
Definition task : Type := (field * field)%type.

(** Truth value of a field in a Python condition: [None] and [''] are false. *)
Definition truthy (f : field) : bool :=
  match f with Some s => nonempty s | None => false end.

Definition sentinel : task := (None, None).

(** What is handed to [self.log]; [render] gives the text. *)
Inductive logline :=
| LCollecting
| LCreating
| LPreparing
| LWarningMissing (source : string)
| LSkipping (source_file destination_file : string)
| LDeleting (destination_file : string)
| LErrorCopyingFile (source_file : string) (e : exn)
| LErrorPreparing (s : string) (e : exn)
| LPrepared (total : nat)
| LCopying (source : string)
| LErrorCopying (e : exn)
| LCopyingGB (tenths : Z)
| LFinished (copied total : nat) (duration : Z)
| LNothing.

Definition nl : string := String (ascii_of_nat 10) EmptyString.

(** [str] of a float that is a whole number of tenths. *)
Definition show_tenths (t : Z) : string :=
  pretty (t / 10)%Z +:+ "." +:+ pretty (t mod 10)%Z.

(** The text of each line, as the f-strings of the source build it. *)
Definition render (l : logline) : string :=
  match l with
  | LCollecting => "Collecting source subfolders"
  | LCreating => "Creating target folders"
  | LPreparing => "Preparing files"
  | LWarningMissing source => "Warning. Folder '" +:+ source +:+ "' is missing."
  | LSkipping sf df =>
      "Skipping '" +:+ sf +:+ "': destination '" +:+ df +:+ "' already exists"
  | LDeleting df => "Deleting '" +:+ df +:+ "'"
  | LErrorCopyingFile sf e => "Error copying '" +:+ sf +:+ "': " +:+ str e
  | LErrorPreparing s e => "Error preparing copy for " +:+ s +:+ ": " +:+ str e
  | LPrepared total => "Prepared " +:+ pretty total +:+ " files"
  | LCopying source => "Copying " +:+ source
  | LErrorCopying e => "Error copying: " +:+ str e
  | LCopyingGB t => "Copying " +:+ show_tenths t +:+ " GB"
  | LFinished copied total d =>
      nl +:+ "++ Finished copying " +:+ pretty copied +:+ " of " +:+ pretty total
      +:+ " files in " +:+ pretty d +:+ "s. ++" +:+ nl +:+ nl
  | LNothing => nl +:+ "++ Finished. Nothing to copy. ++" +:+ nl +:+ nl
  end.

(** Where a worker thread stands in [_worker_func] (source lines 36-50). *)
Inductive wpc :=
| WGet                               (* 39: in [self._file_queue.get()] *)
| WCheck (t : task)                  (* 40: the condition *)
| WLog (source dest : string)        (* 41: [self.log] *)
| WCopy (source dest : string)       (* 42: [shutil.copy] *)
| WAcquire                           (* 43: entering [with self.lock] *)
| WLoad                              (* 44: reading [copied_file_count] *)
| WStore (v : nat)                   (* 44: writing [v + 1] back *)
| WRelease                           (* leaving [with self.lock] *)
| WExcept (e : exn)                  (* 48: the handler *)
| WTaskDone (again : bool)           (* 50: [finally]; [again = false] after [break] *)
| WExited.

(** What the session thread has left to do, one call per step. *)
Inductive call :=
| CSpawn                             (* one turn of the loop of [start] *)
| CWait                              (* [self._file_queue.join()] *)
| CStop                              (* entry of [stop] *)
| CPut (t : task)                    (* [self._file_queue.put] *)
| CJoin (i : nat) (timeout : option Z)   (* [t.join(timeout)] on thread [i] *)
| CReport (t_start t_end : Q)        (* the summary line *)
| CNothing                           (* the line for an empty plan *)
| CDone.                             (* [done_callback] *)

(** The object, its queue and lock, its threads, and the world it acts on. *)
Record state := mkState {
  _stopping : bool;
  _file_queue : list task;
  unfinished_tasks : nat;            (* of the [Queue] *)
  total_file_count : nat;
  copied_file_count : nat;
  lock : option nat;                 (* the worker holding [self.lock] *)
  _threads : list wpc;
  main : list call;
  fs : filesystem;
  log : list logline
}.

Definition set_stopping (b : bool) (s : state) : state :=
  mkState b (_file_queue s) (unfinished_tasks s) (total_file_count s)
    (copied_file_count s) (lock s) (_threads s) (main s) (fs s) (log s).
Definition set_queue (q : list task) (s : state) : state :=
  mkState (_stopping s) q (unfinished_tasks s) (total_file_count s)
    (copied_file_count s) (lock s) (_threads s) (main s) (fs s) (log s).
Definition set_unfinished (n : nat) (s : state) : state :=
  mkState (_stopping s) (_file_queue s) n (total_file_count s)
    (copied_file_count s) (lock s) (_threads s) (main s) (fs s) (log s).
Definition set_total (n : nat) (s : state) : state :=
  mkState (_stopping s) (_file_queue s) (unfinished_tasks s) n
    (copied_file_count s) (lock s) (_threads s) (main s) (fs s) (log s).
Definition set_copied (n : nat) (s : state) : state :=
  mkState (_stopping s) (_file_queue s) (unfinished_tasks s) (total_file_count s)
    n (lock s) (_threads s) (main s) (fs s) (log s).
Definition set_lock (l : option nat) (s : state) : state :=
  mkState (_stopping s) (_file_queue s) (unfinished_tasks s) (total_file_count s)
    (copied_file_count s) l (_threads s) (main s) (fs s) (log s).
Definition set_threads (ts : list wpc) (s : state) : state :=
  mkState (_stopping s) (_file_queue s) (unfinished_tasks s) (total_file_count s)
    (copied_file_count s) (lock s) ts (main s) (fs s) (log s).
Definition set_main (p : list call) (s : state) : state :=
  mkState (_stopping s) (_file_queue s) (unfinished_tasks s) (total_file_count s)
    (copied_file_count s) (lock s) (_threads s) p (fs s) (log s).
Definition set_fs (f : filesystem) (s : state) : state :=
  mkState (_stopping s) (_file_queue s) (unfinished_tasks s) (total_file_count s)
    (copied_file_count s) (lock s) (_threads s) (main s) f (log s).
Definition set_log (l : list logline) (s : state) : state :=
  mkState (_stopping s) (_file_queue s) (unfinished_tasks s) (total_file_count s)
    (copied_file_count s) (lock s) (_threads s) (main s) (fs s) l.

(** [ThreadedCopy()] in a world [w]: source lines 29-34. *)
Definition __init__ (w : filesystem) (l : list logline) : state :=
  mkState false [] 0 0 0 None [] [] w l.

(** [self.log(...)]: the callback appends the line. *)
Definition log_ (l : logline) (s : state) : state :=
  set_log (log s ++ [l]) s.

(** [put]: source lines 52-53, with the count [Queue.put] keeps. *)
Definition put (source dest : field) (s : state) : state :=
  set_unfinished (S (unfinished_tasks s))
    (set_queue (_file_queue s ++ [(source, dest)]) s).

(** *** Sequential code: state passing with exceptions *)

Definition M (A : Type) : Type := state -> res A * state.

#[global] Instance M_ret : MRet M := fun A a s => (Ok a, s).
#[global] Instance M_bind : MBind M := fun A B f m s =>
  match m s with
  | (Ok a, s') => f a s'
  | (Raise e, s') => (Raise e, s')
  end.

(** [try: body except <handles>: handler]. *)
Definition try_except {A} (body : M A) (handles : exn -> bool)
    (handler : exn -> M A) : M A := fun s =>
  match body s with
  | (Raise e, s') => if handles e then handler e s' else (Raise e, s')
  | r => r
  end.

(** [except Exception] takes all of [exn]. *)
Definition Exception (e : exn) : bool := true.

(** A call that inspects the world. *)
Definition ask {A} (f : filesystem -> A) : M A := fun s => (Ok (f (fs s)), s).

(** A call that inspects the world and may raise. *)
Definition query {A} (f : filesystem -> res A) : M A := fun s => (f (fs s), s).

(** A call that changes the world, or raises and leaves it. *)
Definition perform (f : filesystem -> res filesystem) : M unit := fun s =>
  match f (fs s) with
  | Ok w => (Ok tt, set_fs w s)
  | Raise e => (Raise e, s)
  end.

Definition modify (f : state -> state) : M unit := fun s => (Ok tt, f s).

(** [for x in l: body]. *)
Fixpoint for_ {A} (l : list A) (body : A -> M unit) : M unit :=
  match l with
  | [] => mret tt
  | x :: l' => body x ;; for_ l' body
  end.

(** [for x in l: acc = body(acc, x)] in [res]. *)
Fixpoint foldlM {A B} (body : B -> A -> res B) (acc : B) (l : list A) : res B :=
  match l with
  | [] => Ok acc
  | x :: l' => acc' ← body acc x; foldlM body acc' l'
  end.

(** *** The planner: [init], source lines 79-137 *)

Section Planner.

(** [Helpers.get_subdirs(parent_dir, startswith)] lives in the module
    [helpers]; the planner is stated for any such function of the world. *)
Variable get_subdirs : filesystem -> string -> string -> res (list string).

(** Lines 91-92. *)
Definition add_folder (folders : list string) (d : string) : list string :=
  if decide (d ∈ folders) then folders else folders ++ [d].

(** Lines 86-92. *)
Definition collect_folders (w : filesystem) (sources startswith : list string)
    : res (list string) :=
  foldlM (fun folders s =>
    foldlM (fun folders p =>
      subdirs ← get_subdirs w s p;
      Ok (foldl add_folder folders subdirs))
    folders startswith)
  [] sources.

(** Line 97. *)
Definition target_folder (target f : string) : string := abspath (join target f).

(** Lines 96-101, one turn of the loop. *)
Definition create_target_folder (target f : string) : M unit :=
  try_except
    (let p := target_folder target f in
     e ← ask (fun w => exists_ w p);
     if e : bool then mret tt else perform (fun w => mkdir w p))
    is_FileExistsError
    (fun _ => mret tt).

(** Lines 110-118: the names of the regular files of [source]. *)
Definition list_source_files (source : string) : M (list string) :=
  try_except
    (names ← query (fun w => listdir w source);
     ask (fun w => List.filter (fun sf => isfile w (join source sf)) names))
    is_FileNotFoundError
    (fun _ => modify (log_ (LWarningMissing source)) ;; mret []).

Definition source_file (source filename : string) : string :=
  abspath (join source filename).

Definition destination_file (destination filename : string) : string :=
  abspath (join destination filename).

(** Lines 120-134, one turn of the loop over [source_filenames].  The
    inner computation answers whether the [continue] of line 126 was
    taken. *)
Definition plan_file (source destination filename : string) : M unit :=
  let source_file := source_file source filename in
  let destination_file := destination_file destination filename in
  try_except
    (there ← ask (fun w => exists_ w destination_file);
     skip ← (if there : bool then
               dsize ← query (fun w => getsize w destination_file);
               ssize ← query (fun w => getsize w source_file);
               if (dsize =? ssize)%Z then
                 modify (log_ (LSkipping source_file destination_file)) ;;
                 mret true
               else
                 modify (log_ (LDeleting destination_file)) ;;
                 perform (fun w => remove w destination_file) ;;
                 mret false
             else mret false);
     if skip : bool then mret tt
     else
       modify (put (Some source_file) (Some destination)) ;;
       modify (fun s => set_total (total_file_count s + 1) s))
    Exception
    (fun e => modify (log_ (LErrorCopyingFile source_file e))).

Definition source_dir (s f : string) : string := abspath (join s f).

Definition destination_dir (target f : string) : string :=
  abspath (join target f) +:+ sep.

(** Lines 106-136, one turn of the loop over [sources]. *)
Definition prepare_folder (target f s : string) : M unit :=
  try_except
    (let source := source_dir s f in
     let destination := destination_dir target f in
     source_filenames ← list_source_files source;
     for_ source_filenames (plan_file source destination))
    Exception
    (fun e => modify (log_ (LErrorPreparing s e))).

(** [init(sources, target, startswith, log_callback)]. *)
Definition init (sources : list string) (target : string)
    (startswith : list string) : M unit :=
  modify (log_ LCollecting) ;;
  folders ← query (fun w => collect_folders w sources startswith);
  modify (log_ LCreating) ;;
  for_ folders (create_target_folder target) ;;
  modify (log_ LPreparing) ;;
  for_ folders (fun f => for_ sources (prepare_folder target f)) ;;
  modify (fun s => log_ (LPrepared (total_file_count s)) s).

End Planner.

(** *** The worker: [_worker_func], source lines 36-50 *)

Definition set_pc (i : nat) (pc : wpc) (s : state) : state :=
  set_threads (<[i := pc]> (_threads s)) s.

(** One step of worker [i] standing at [pc]; [None] when it cannot move
    (blocked in [get], waiting for the lock, or returned). *)
Definition worker_step (i : nat) (pc : wpc) (s : state) : option state :=
  match pc with
  | WGet =>
      match _file_queue s with
      | [] => None
      | t :: q => Some (set_pc i (WCheck t) (set_queue q s))
      end
  | WCheck (source, dest) =>
      if truthy source && truthy dest && negb (_stopping s)
      then Some (set_pc i (WLog (default "" source) (default "" dest)) s)
      else Some (set_pc i (WTaskDone false) s)
  | WLog source dest =>
      Some (set_pc i (WCopy source dest) (log_ (LCopying source) s))
  | WCopy source dest =>
      match copy (fs s) source dest false with
      | Ok w => Some (set_pc i WAcquire (set_fs w s))
      | Raise e => Some (set_pc i (WExcept e) s)
      end
  | WAcquire =>
      match lock s with
      | None => Some (set_pc i WLoad (set_lock (Some i) s))
      | Some _ => None
      end
  | WLoad => Some (set_pc i (WStore (copied_file_count s)) s)
  | WStore v => Some (set_pc i WRelease (set_copied (v + 1) s))
  | WRelease => Some (set_pc i (WTaskDone true) (set_lock None s))
  | WExcept e =>
      Some (set_pc i (WTaskDone true) (log_ (LErrorCopying e) s))
  | WTaskDone again =>
      match unfinished_tasks s with
      | O => Some (set_pc i WExited s)      (* [task_done] raises [ValueError] *)
      | S n => Some (set_pc i (if again then WGet else WExited)
                       (set_unfinished n s))
      end
  | WExited => None
  end.

(** *** The pool: [start], [wait], [stop], source lines 55-77 *)

(** The timeout of [t.join(2)]. *)
Definition join_timeout : Z := 2.

(** Lines 67-72: what [stop] goes on to do once the flag is set. *)
Definition stop_calls (threads : list wpc) : list call :=
  map (fun _ => CPut sentinel) threads
  ++ map (fun i => CJoin i (Some join_timeout)) (seq 0 (length threads)).

(** [int(end - start) + 1]: [int] truncates toward zero. *)
Definition duration (t_start t_end : Q) : Z :=
  let d := (t_end - t_start)%Q in
  (Z.quot (Qnum d) (Zpos (Qden d)) + 1)%Z.

(** One step of the session thread. *)
Definition main_step (c : call) (rest : list call) (s : state) : option state :=
  match c with
  | CSpawn =>
      if _stopping s then Some (set_main rest s)
      else Some (set_main rest (set_threads (_threads s ++ [WGet]) s))
  | CWait =>
      match unfinished_tasks s with
      | O => Some (set_main rest s)
      | S _ => None
      end
  | CStop =>
      Some (set_main (stop_calls (_threads s) ++ rest) (set_stopping true s))
  | CPut (source, dest) => Some (set_main rest (put source dest s))
  | CJoin i None =>
      match _threads s !! i with
      | Some WExited => Some (set_main rest s)
      | _ => None
      end
  | CJoin i (Some _) => Some (set_main rest s)
  | CReport t_start t_end =>
      Some (set_main rest
              (log_ (LFinished (copied_file_count s) (total_file_count s)
                       (duration t_start t_end)) s))
  | CNothing => Some (set_main rest (log_ LNothing s))
  | CDone => Some (set_main rest s)
  end.

(** [start(max_threads)] as calls, for the one [start] an object gets.
    [_threads] of [state] holds every worker of the object, where
    [self._threads] holds those of the last [start]: line 56 empties the
    attribute, not the pool.  On an object without threads, as [start_copy]
    and every statement below has it, the two are the same list; a second
    [start] on the same object is outside the model. *)
Definition start (max_threads : nat) : list call := replicate max_threads CSpawn.

(** *** Interleavings *)

Inductive tid := Main | Worker (i : nat).

Definition step (t : tid) (s : state) : option state :=
  match t with
  | Main =>
      match main s with
      | [] => None
      | c :: rest => main_step c rest s
      end
  | Worker i =>
      match _threads s !! i with
      | Some pc => worker_step i pc s
      | None => None
      end
  end.

(** A schedule names the thread that moves next; naming one that cannot
    move leaves the state as it is. *)
Definition run (sched : list tid) (s : state) : state :=
  foldl (fun s t => default s (step t s)) s sched.

End ThreadedCopy.

(** ** class BatchCopy *)

Module BatchCopy.
Import Path OS ThreadedCopy.

(** Rounding of the fraction [n / d] ([0 < d]) to the nearest integer, ties
    to the even one. *)
Definition round_half_even (n d : Z) : Z :=
  let q := (n / d)%Z in
  let r := (n mod d)%Z in
  if (2 * r <? d)%Z then q
  else if (d <? 2 * r)%Z then (q + 1)%Z
  else if Z.even q then q else (q + 1)%Z.

(** [round(bytes / 1073741824, 1)], as a whole number of tenths.  The
    division by a power of two is exact on floats for byte counts below
    [2^53], [round] then picks the nearest one-decimal number of the exact
    quotient, ties to even, and two such floats compare as their tenths
    do. *)
Definition space_gb (bytes : Z) : Z := round_half_even (10 * bytes) 1073741824.

(** The prefixes the application passes to [init]. *)
Definition prefixes : list string := ["VID_"; "PIC_"].

(** How [_on_start] ends: with a [messagebox.showerror] and no copy thread,
    or with the copy thread about to run on world [w], the log holding [l]. *)
Inductive outcome :=
| ShowError (title message : string) (w : filesystem)
| StartCopy (w : filesystem) (l : list logline).

Definition not_enough_space (required free : Z) : string :=
  "Not enough space on target." +:+ nl +:+
  "Required: " +:+ show_tenths required +:+ " GB" +:+ nl +:+
  "Available: " +:+ show_tenths free +:+ " GB.".

Section Session.

(** The functions of the module [helpers] that the session calls. *)
Variable get_subdirs : filesystem -> string -> string -> res (list string).
Variable get_used_space : filesystem -> list string -> Z.
Variable get_free_space : filesystem -> string -> Z.

(** Lines 373-377: the target is created when it is not there; a failure
    to do so is passed over. *)
Definition ensure_target (w : filesystem) (target_dir : string) : filesystem :=
  if exists_ w target_dir then w
  else match mkdir w target_dir with
       | Ok w' => w'
       | Raise _ => w
       end.

(** [_on_start], source lines 363-390, up to the creation of the thread. *)
Definition _on_start (sources_dirs : list string) (target_dir : string)
    (w : filesystem) : outcome :=
  match sources_dirs with
  | [] => ShowError "Error" "No source selected." w
  | _ =>
    if negb (nonempty target_dir) then
      ShowError "Error" "No target folder selected." w
    else
      let w := ensure_target w target_dir in
      if negb (exists_ w target_dir) then
        ShowError "Error" "Target folder does not exist." w
      else
        let space_required_gb := space_gb (get_used_space w sources_dirs) in
        let space_free_gb := space_gb (get_free_space w target_dir) in
        if (space_free_gb <=? space_required_gb)%Z then
          ShowError "Error" (not_enough_space space_required_gb space_free_gb) w
        else StartCopy w [LCopyingGB space_required_gb]
  end.

(** [start_copy], source lines 392-405: the state of the session once
    [init] has returned, with what the thread goes on to do; [t_start]
    and [t_end] are the two readings of [time()].  An exception of
    [init] ends the thread. *)
Definition start_copy (sources_dirs : list string) (target_dir : string)
    (t_start t_end : Q) (w : filesystem) (l : list logline) : state :=
  match init get_subdirs sources_dirs target_dir prefixes (__init__ w l) with
  | (Ok _, s) =>
      if (0 <? total_file_count s)%nat then
        set_main (start (length sources_dirs)
                  ++ [CWait; CStop; CReport t_start t_end; CDone]) s
      else set_main [CNothing; CDone] s
  | (Raise _, s) => s
  end.

End Session.

End BatchCopy.

(** ** The properties, in the words of the specification *)

Module Spec.

(** "Ceiling-rounded, minimum 1": the seconds the summary is said to
    report for an elapsed time [d]. *)
Definition ceiling_seconds (d : Q) : Z := Z.max 1 (Qceiling d).

(** [d] is a whole number of seconds. *)
Definition whole (d : Q) : Prop := (inject_Z (Qfloor d) == d)%Q.

(** "One ordered set, preserving first-seen order, with de-duplication by
    name". *)
Fixpoint first_seen (l : list string) : list string :=
  match l with
  | [] => []
  | x :: l' => x :: List.filter (fun y => negb (String.eqb y x)) (first_seen l')
  end.

(** The text [sub] occurs in [s]. *)
Fixpoint mentions (s sub : string) : bool :=
  Path.startswith s sub
  || match s with
     | EmptyString => false
     | String _ s' => mentions s' sub
     end.

(** [y] is not among the names of [acc]. *)
Definition fresh (acc : list string) (y : string) : bool :=
  negb (bool_decide (y ∈ acc)).

(** The subdirectory names met "for each source root, for each prefix",
    in that order; [get_subdirs] is the listing function. *)
Definition visited (get_subdirs : OS.filesystem -> string -> string -> OS.res (list string))
    (w : OS.filesystem) (sources prefixes : list string) : list string :=
  concat (map (fun s =>
    concat (map (fun p =>
      match get_subdirs w s p with
      | OS.Ok names => names
      | OS.Raise _ => []
      end) prefixes)) sources).

End Spec.

(** ** What holds of every state of a session *)

Module Inv.
Import Path OS ThreadedCopy.

(** A task that passes the test of line 40 when [_stopping] is off. *)
Definition real (t : task) : bool := truthy (fst t) && truthy (snd t).

(** The worker has taken an item off the queue and not yet called
    [task_done] for it. *)
Definition holding (pc : wpc) : nat :=
  match pc with
  | WGet | WExited => 0
  | _ => 1
  end.

(** The worker has a real task in hand whose outcome is in neither
    [copied_file_count] nor the log yet. *)
Definition pending (pc : wpc) : nat :=
  match pc with
  | WCheck t => if real t then 1 else 0
  | WLog _ _ | WCopy _ _ | WAcquire | WLoad | WStore _ | WExcept _ => 1
  | _ => 0
  end.

(** The worker is inside [with self.lock]. *)
Definition in_cs (pc : wpc) : bool :=
  match pc with
  | WLoad | WStore _ | WRelease => true
  | _ => false
  end.

Definition total_of (f : wpc -> nat) (threads : list wpc) : nat :=
  sum_list_with f threads.

(** The real tasks of a queue. *)
Definition reals (q : list task) : nat :=
  sum_list_with (fun t => if real t then 1 else 0) q.

Definition is_error (l : logline) : bool :=
  match l with LErrorCopying _ => true | _ => false end.

(** The lines [Error copying: ...] of the workers in a log. *)
Definition errors (lg : list logline) : nat :=
  sum_list_with (fun l => if is_error l then 1 else 0) lg.

(** A call the session thread makes once [wait] has returned. *)
Definition after_wait (c : call) : bool :=
  match c with
  | CSpawn | CWait => false
  | CPut t => negb (real t)
  | _ => true
  end.

(** The session thread is in [start] or in [wait]. *)
Fixpoint before_drain (p : list call) : bool :=
  match p with
  | CSpawn :: p' => before_drain p'
  | CWait :: p' => forallb after_wait p'
  | _ => false
  end.

(** The invariant, for [K] real tasks submitted and a log that held [E0]
    error lines at the start:
    - the queue counts as unfinished what it holds and what the workers
      have in hand;
    - every real task is in the queue, in the hands of a worker, counted in
      [copied_file_count], or reported as an error in the log;
    - a worker inside [with self.lock] is the one that holds the lock;
    - a worker about to write the counter read its current value;
    - until [wait] returns [_stopping] is off; from then on no real task is
      left in the queue or in the hands of a worker. *)
Record invariant (K E0 : nat) (s : state) : Prop := {
  inv_unfinished :
    unfinished_tasks s = length (_file_queue s) + total_of holding (_threads s);
  inv_count :
    copied_file_count s + errors (log s) + total_of pending (_threads s)
    + reals (_file_queue s) = K + E0;
  inv_errors : E0 <= errors (log s);
  inv_lock :
    forall i pc, _threads s !! i = Some pc -> in_cs pc = true -> lock s = Some i;
  inv_store :
    forall i v, _threads s !! i = Some (WStore v) -> v = copied_file_count s;
  inv_phase :
    (before_drain (main s) = true /\ _stopping s = false)
    \/ (forallb after_wait (main s) = true
        /\ reals (_file_queue s) = 0 /\ total_of pending (_threads s) = 0)
}.

(** A pool handed [tasks], about to start [max_threads] workers and to
    wait for the queue; [rest] is what the session thread does next. *)
Definition pool (tasks : list task) (max_threads : nat) (rest : list call)
    (w : filesystem) : state :=
  set_main (start max_threads ++ CWait :: rest)
    (foldl (fun s t => put (fst t) (snd t) s) (__init__ w []) tasks).

(** What the planner keeps true of the object while it fills the queue:
    nothing runs yet, the queue holds [total_file_count] tasks, all real, and
    the log has the [E0] error lines it started with. *)
Record planning (E0 : nat) (s : state) : Prop := {
  pl_copied : copied_file_count s = 0;
  pl_threads : _threads s = [];
  pl_lock : lock s = None;
  pl_stopping : _stopping s = false;
  pl_main : main s = [];
  pl_queue : length (_file_queue s) = total_file_count s;
  pl_unfinished : unfinished_tasks s = total_file_count s;
  pl_reals : reals (_file_queue s) = total_file_count s;
  pl_errors : errors (log s) = E0
}.

(** The sequential code [m] keeps [P], whether it returns or raises. *)
Definition keeps {A} (P : state -> Prop) (m : M A) : Prop :=
  forall s r s', P s -> m s = (r, s') -> P s'.

(** [wait] has returned. *)
Definition drained (s : state) : bool := forallb after_wait (main s).

(** How far a worker is from the end of its turn of the loop. *)
Definition rank (pc : wpc) : nat :=
  match pc with
  | WGet | WExited => 0
  | WCheck _ => 9
  | WLog _ _ => 8
  | WCopy _ _ => 7
  | WAcquire => 6
  | WLoad => 5
  | WStore _ => 4
  | WRelease | WExcept _ => 3
  | WTaskDone _ => 1
  end.

(** Goes down with every step taken before [wait] returns. *)
Definition measure (s : state) : nat :=
  10 * length (_file_queue s) + total_of rank (_threads s) + length (main s).

(** The worker is not about to return. *)
Definition alive (pc : wpc) : bool :=
  match pc with
  | WExited | WTaskDone false => false
  | WCheck t => real t
  | _ => true
  end.

(** The turns of the loop of [start] still to come. *)
Fixpoint spawns (p : list call) : nat :=
  match p with
  | CSpawn :: p' => S (spawns p')
  | _ => 0
  end.

(** What keeps a pool going until [wait] returns: the lock is held by a
    worker inside [with self.lock], no worker is about to return, the queue
    holds real tasks only, and there is or will be a worker. *)
Record lively (s : state) : Prop := {
  lv_holder :
    forall i, lock s = Some i ->
              exists pc, _threads s !! i = Some pc /\ in_cs pc = true;
  lv_alive : Forall (fun pc => alive pc = true) (_threads s);
  lv_real : forallb real (_file_queue s) = true;
  lv_workers : 1 <= spawns (main s) + length (_threads s);
  lv_before : before_drain (main s) = true;
  lv_stopping : _stopping s = false
}.

End Inv.

(** ** Worlds for the examples *)

Module Examples.
Import Path OS ThreadedCopy.

(** Two cards [/A] and [/B] with the same recording folder, and an empty
    target [/T]. *)
Definition cards : filesystem :=
  list_to_map
    [ (["A"], Dir); (["A"; "VID_001"], Dir);
      (["A"; "VID_001"; "f1.bin"], File "0123456789");
      (["A"; "VID_001"; "f2.bin"], File "01234567890123456789");
      (["B"], Dir); (["B"; "VID_001"], Dir);
      (["B"; "VID_001"; "f1.bin"], File "0123456789");
      (["B"; "VID_001"; "f2.bin"], File "01234567890123456789");
      (["T"], Dir) ].

(** The same once the planner has created [/T/VID_001]; card [/A] also
    holds a symbolic link. *)
Definition prepared : filesystem :=
  <[ ["A"; "VID_001"; "latest"] := Symlink "/A/VID_001/f2.bin" ]>
    (<[ ["T"; "VID_001"] := Dir ]> cards).

(** The same with a directory where the copy of [f1.bin] is to go. *)
Definition occupied : filesystem :=
  <[ ["T"; "VID_001"; "f1.bin"] := Dir ]> prepared.

(** A pool of one worker that has been handed task [t]. *)
Definition one_worker (w : filesystem) (t : task) : state :=
  set_threads [WGet] (put (fst t) (snd t) (__init__ w [])).

(** Two tasks for [/T/VID_001/]: the source of the first is not there. *)
Definition two_tasks : list task :=
  [ (Some "/A/VID_001/gone.bin", Some "/T/VID_001/");
    (Some "/A/VID_001/f1.bin", Some "/T/VID_001/") ].

(** One worker is started, runs until the queue is empty, and the session
    thread then returns from [wait]. *)
Definition one_worker_schedule : list tid :=
  Main :: replicate 15 (Worker 0) ++ [Main].

(** Two workers and the session thread taking turns. *)
Definition round_robin (n : nat) : list tid :=
  concat (replicate n [Main; Worker 0; Worker 1]).

End Examples.

(** ** class BatchCopy: the handlers of the window *)

Module Window.
Import Path OS ThreadedCopy BatchCopy.

(** [s.endswith(c)] for a single character [c]. *)
Fixpoint endswith (s : string) (c : ascii) : bool :=
  match s with
  | EmptyString => false
  | String a EmptyString => Ascii.eqb a c
  | String _ s' => endswith s' c
  end.

(** [s[:-1]]. *)
Fixpoint drop_last (s : string) : string :=
  match s with
  | EmptyString => EmptyString
  | String _ EmptyString => EmptyString
  | String a s' => String a (drop_last s')
  end.

Definition slash : ascii := ascii_of_nat 47.
Definition backslash : ascii := ascii_of_nat 92.

(** [s.endswith('/') or s.endswith('\\')]. *)
Definition ends_in_separator (s : string) : bool :=
  endswith s slash || endswith s backslash.

(** What the handlers show: [messagebox.showerror], [showwarning] and
    [askyesno], with title and message. *)
Inductive dialog :=
| showerror (title message : string)
| showwarning (title message : string)
| askyesno (title message : string).

(** *** Themes: source lines 204-216 *)

(** [l.index(x)]; [None] stands for the [ValueError]. *)
Fixpoint index (l : list string) (x : string) : option nat :=
  match l with
  | [] => None
  | y :: l' => if String.eqb y x then Some 0 else S <$> index l' x
  end.

(** [set_theme(index)]: the theme handed to [style.theme_use]; [None]
    stands for the [IndexError] of an empty [theme_names]. *)
Definition set_theme (theme_names : list string) (i : nat) : option string :=
  let i := if (length theme_names <=? i)%nat then 0 else i in
  theme_names !! i.

(** [toggle_theme()], with [current] what [style.theme_use()] answers. *)
Definition toggle_theme (theme_names : list string) (current : string)
    : option string :=
  let cur_index := default 0 (index theme_names current) in
  set_theme theme_names (cur_index + 1).

(** [toggle_theme()] called [n] times in a row. *)
Fixpoint toggles (theme_names : list string) (n : nat) (current : string)
    : option string :=
  match n with
  | O => Some current
  | S n' => toggle_theme theme_names current ≫= toggles theme_names n'
  end.

(** *** The list of sources and the target: source lines 218-291 *)

(** The entries of [source_listbox] and the text of [target_dir_value]. *)
Record selection := mkSelection {
  source_listbox : list string;
  target_dir_value : string
}.

Definition insert_end (sdir : string) (g : selection) : selection :=
  mkSelection (source_listbox g ++ [sdir]) (target_dir_value g).

Definition set_target (tdir : string) (g : selection) : selection :=
  mkSelection (source_listbox g) tdir.

(** No source is listed twice, none is the empty string, and the target
    does not start with any of them. *)
Record apart (g : selection) : Prop := {
  ap_nodup : NoDup (source_listbox g);
  ap_named : Forall (fun sdir => nonempty sdir = true) (source_listbox g);
  ap_target :
    Forall (fun sdir => startswith (target_dir_value g) sdir = false)
      (source_listbox g)
}.

Section Handlers.

(** [sys.platform]. *)
Variable platform : string.

(** The functions of the module [helpers] the handlers call. *)
Variable get_subdirs : filesystem -> string -> string -> res (list string).
Variable get_drives : filesystem -> list string.

(** Lines 223-227 and 256-260: what becomes of the answer of
    [filedialog.askdirectory()].  The test of line 226 compares
    [sys.platform] with the string ['win32 and not sdir']. *)
Definition chosen_dir (answer : string) : string :=
  if nonempty answer then
    if ends_in_separator answer then
      let sdir := drop_last answer in
      if negb (String.eqb platform "win32 and not sdir") then sep else sdir
    else answer
  else answer.

(** [_on_select_source_dir], lines 221-243.  An exception of
    [get_subdirs] leaves the handler. *)
Definition _on_select_source_dir (answer : string) (w : filesystem)
    (g : selection) : res (list dialog) * selection :=
  let sdir := chosen_dir answer in
  if nonempty sdir then
    let tdir := target_dir_value g in
    if decide (sdir ∈ source_listbox g) then
      (Ok [showerror "Error" "This source has already been selected."], g)
    else if startswith tdir sdir then
      (Ok [showerror "Error"
             "Target directory must not be same as or below source directory."], g)
    else
      match get_subdirs w sdir "VID_" with
      | Raise e => (Raise e, g)
      | Ok recordings =>
          let g := insert_end sdir g in
          match recordings with
          | _ :: _ => (Ok [], g)
          | [] =>
              match get_subdirs w sdir "PIC_" with
              | Raise e => (Raise e, g)
              | Ok (_ :: _) => (Ok [], g)
              | Ok [] =>
                  (Ok [showwarning "Warning"
                         "The selected directory has no VID_ or PIC_ subdirectories."],
                   g)
              end
          end
      end
  else (Ok [], g).

(** [_on_remove_source_dir], lines 245-251, with [curselection] the tuple
    [source_listbox.curselection()]. *)
Definition _on_remove_source_dir (curselection : list nat) (g : selection)
    : selection :=
  match curselection with
  | [i] => mkSelection (delete i (source_listbox g)) (target_dir_value g)
  | _ => g
  end.

(** [_on_select_target_dir], lines 253-269. *)
Definition _on_select_target_dir (answer : string) (w : filesystem)
    (g : selection) : list dialog * selection :=
  let tdir := chosen_dir answer in
  if nonempty tdir then
    if existsb (fun sdir => startswith tdir sdir) (source_listbox g) then
      ([showerror "Error"
          "Target directory must not be same as or below source directory."], g)
    else
      (if isdir w tdir then []
       else [showwarning "Warning" "No valid target directory selected."],
       set_target tdir g)
  else ([], g).

(** Lines 278-279. *)
Definition strip_separator (fdir : string) : string :=
  if ends_in_separator fdir then drop_last fdir else fdir.

(** Lines 276-286, one turn of the loop: [all_cards] and [new_cards]. *)
Definition find_card (w : filesystem) (entries : list string)
    (cards : list string * list string) (fdir : string)
    : list string * list string :=
  let fdir := strip_separator fdir in
  if isfile w (join fdir ".pro_suc") then
    (cards.1 ++ [fdir],
     if decide (fdir ∈ entries) then cards.2 else cards.2 ++ [fdir])
  else cards.

(** [_on_find_cards], lines 271-291. *)
Definition _on_find_cards (w : filesystem) (g : selection)
    : list dialog * selection :=
  let cards := foldl (find_card w (source_listbox g)) ([], []) (get_drives w) in
  (match cards.1 with
   | [] => [showwarning "Info" "No new Pro 2 cards found."]
   | _ => []
   end,
   mkSelection (source_listbox g ++ cards.2) (target_dir_value g)).

End Handlers.

(** *** The log: source lines 325-328 and 447-486 *)

(** [log(text)], lines 479-483, on the text the widget holds. *)
Definition log_text (text : string) (content : string) : string :=
  if String.eqb text "." then content +:+ text
  else content +:+ nl +:+ text.

(** The text of [text_area], [None] as long as the widget is not built,
    and the list [_unprocessed_logs]. *)
Record logs := mkLogs {
  text_area : option string;
  _unprocessed_logs : list string
}.

(** [log(text)], lines 475-486. *)
Definition log (text : string) (g : logs) : logs :=
  mkLogs (log_text text <$> text_area g) (_unprocessed_logs g).

(** [log_callback(text)], lines 447-456: the line is left for the main
    thread. *)
Definition log_callback (text : string) (g : logs) : logs :=
  mkLogs (text_area g) (_unprocessed_logs g ++ [text]).

(** [_on_log_callback], lines 465-473. *)
Definition _on_log_callback (g : logs) : logs :=
  match text_area g with
  | Some _ => mkLogs (text_area (foldl (fun g text => log text g) g
                                   (_unprocessed_logs g))) []
  | None => g
  end.

(** What happens to the log, in the order it happens: a thread calls
    [log_callback], or the main thread handles [<<log_callback>>]. *)
Inductive log_event :=
| Logged (text : string)
| Flushed.

Definition log_step (g : logs) (e : log_event) : logs :=
  match e with
  | Logged text => log_callback text g
  | Flushed => _on_log_callback g
  end.

(** The texts handed to [log_callback] in a sequence of events. *)
Definition logged (es : list log_event) : list string :=
  omap (fun e => match e with Logged text => Some text | Flushed => None end) es.

(** *** Erasing the cards: source lines 330-355 *)

Section Erase.

(** [Helpers.system_root_path()] and [Helpers.erase_all(root, keep)]; the
    latter answers with the world it leaves, also when it raises. *)
Variable system_root_path : string.
Variable erase_all : filesystem -> string -> string -> res unit * filesystem.

(** Lines 340-352, one turn of the loop over the text of the widget and
    the world; [false] when the [except] clause returns from the handler. *)
Definition erase_card (source : string) (st : string * filesystem)
    : bool * (string * filesystem) :=
  let (content, w) := st in
  if negb (nonempty source) then
    (true, (log_text "Error: empty source." content, w))
  else if String.eqb source system_root_path then
    (true, (log_text ("Error erasing '" +:+ source +:+ "': path is system root.")
              content, w))
  else
    match erase_all w source ".pro_suc" with
    | (Raise _, w) => (false, (content, w))
    | (Ok _, w) =>
        let content := log_text ("Erased all files in '" +:+ source +:+ "'.") content in
        match mkdir w (join source "DCIM") with
        | Raise _ => (false, (content, w))
        | Ok w =>
            match mkdir w (join source "EVENT") with
            | Raise _ => (false, (content, w))
            | Ok w => (true, (content, w))
            end
        end
    end.

(** Lines 339-352. *)
Fixpoint erase_cards (sources : list string) (st : string * filesystem)
    : bool * (string * filesystem) :=
  match sources with
  | [] => (true, st)
  | source :: sources' =>
      match erase_card source st with
      | (true, st') => erase_cards sources' st'
      | stop => stop
      end
  end.

Definition confirm (n : nat) : string :=
  "Are you sure you want to erase all " +:+ pretty n
  +:+ " cards? This action can't be undone.".

(** [_on_erase_source_dir], lines 330-355, with [answer] what the user
    answers to [askyesno]; the text of the widget before is cleared. *)
Definition _on_erase_source_dir (answer : bool) (sources_dirs : list string)
    (w : filesystem) : list dialog * (string * filesystem) :=
  match sources_dirs with
  | [] => ([showerror "Error" "No cards added."], ("", w))
  | _ =>
      let content :=
        log_text ""
          (log_text ("Erasing all files except Insta360" +:+ nl
                     +:+ "speed test success indicator:") "") in
      ([askyesno "Confirm" (confirm (length sources_dirs))],
       if answer then
         match erase_cards sources_dirs (content, w) with
         | (true, (content, w)) => (log_text "Done." content, w)
         | (false, st) => st
         end
       else (log_text "Done." content, w))
  end.

End Erase.

(** *** Starting, finishing and quitting: source lines 310-323, 357-445 *)

(** The attributes the three handlers share; [_copy_thread] holds what
    [is_alive()] answers, [button_start] whether the button is enabled. *)
Record session := mkSession {
  copying : bool;
  _can_quit : bool;
  _threadedcopy : bool;
  _copy_thread : option bool;
  button_start : bool
}.

(** [BatchCopy()] once [show] has built the window: lines 159-164, 541. *)
Definition shown : session := mkSession false true false None true.

(** [_on_start], lines 357-419, around the checks of lines 363-390, whose
    result is [out]. *)
Definition _on_start (out : outcome) (g : session) : session :=
  match out with
  | ShowError _ _ _ =>
      mkSession (copying g) (_can_quit g) (_threadedcopy g) (_copy_thread g)
        (if copying g then false else true)
  | StartCopy _ _ =>
      mkSession true false (_threadedcopy g) (Some true) false
  end.

(** Line 393, in the copy thread. *)
Definition start_copy_begins (g : session) : session :=
  mkSession (copying g) (_can_quit g) true (_copy_thread g) (button_start g).

(** The copy thread returns. *)
Definition start_copy_returns (g : session) : session :=
  mkSession (copying g) (_can_quit g) (_threadedcopy g)
    (match _copy_thread g with Some _ => Some false | None => None end)
    (button_start g).

(** [_is_copy_thread_alive], lines 438-445. *)
Definition _is_copy_thread_alive (g : session) : bool * session :=
  match _copy_thread g with
  | Some true => (true, g)
  | Some false =>
      (false, mkSession (copying g) (_can_quit g) (_threadedcopy g) None
                (button_start g))
  | None => (false, g)
  end.

(** [_on_done_callback], lines 424-436. *)
Definition _on_done_callback (g : session) : session :=
  let g := (_is_copy_thread_alive g).2 in
  mkSession (copying g) true (_threadedcopy g) None true.

(** How [_on_quit] leaves the process: [os._exit] or [SIGKILL], or
    [sys.exit]. *)
Inductive leave := Forced | Gentle.

(** [_on_quit], lines 310-323. *)
Definition _on_quit (g : session) : leave :=
  if copying g || _threadedcopy g then Forced else Gentle.

Inductive happening :=
| Start (out : outcome)
| Begins
| Returns
| Done.

Definition happen (g : session) (h : happening) : session :=
  match h with
  | Start out => _on_start out g
  | Begins => start_copy_begins g
  | Returns => start_copy_returns g
  | Done => _on_done_callback g
  end.

End Window.

(** ** How a session ends *)

Module Closing.
Import Path OS ThreadedCopy Inv.

Definition is_spawn (c : call) : nat :=
  match c with CSpawn => 1 | _ => 0 end.

(** The workers there are and those [start] has still to create. *)
Definition headcount (s : state) : nat :=
  length (_threads s) + sum_list_with is_spawn (main s).

(** What a call of the session thread can still cost, among [n] workers:
    [stop] unfolds into a [put] and a [join] per worker, and a [put] hands a
    worker one more item to take. *)
Definition weight (n : nat) (c : call) : nat :=
  match c with
  | CStop => 1 + 12 * n
  | CPut _ => 11
  | _ => 1
  end.

(** A bound on the steps the threads can still take. *)
Definition work (s : state) : nat :=
  sum_list_with (weight (headcount s)) (main s)
  + 10 * length (_file_queue s) + total_of rank (_threads s).

Definition can_step (s : state) (t : tid) : bool :=
  match step t s with Some _ => true | None => false end.

(** The threads of a state. *)
Definition tids (s : state) : list tid :=
  Main :: map Worker (seq 0 (length (_threads s))).

(** No thread can move: each is blocked or has returned. *)
Definition quiet (s : state) : bool :=
  forallb (fun t => negb (can_step s t)) (tids s).

(** The schedule that lets the first thread that can move do so, [fuel]
    times at most. *)
Fixpoint greedy (fuel : nat) (s : state) : list tid :=
  match fuel with
  | O => []
  | S fuel' =>
      match List.find (can_step s) (tids s) with
      | Some t => t :: greedy fuel' (default s (step t s))
      | None => []
      end
  end.

(** The steps of a schedule that were taken, not skipped. *)
Fixpoint steps_taken (sched : list tid) (s : state) : nat :=
  match sched with
  | [] => 0
  | t :: sched' =>
      match step t s with
      | Some s' => S (steps_taken sched' s')
      | None => steps_taken sched' s
      end
  end.

(** A worker once [wait] has returned: in [get], handed an item that ends
    its loop, or gone. *)
Definition winding_down (pc : wpc) : bool :=
  match pc with
  | WGet | WExited | WTaskDone false => true
  | WCheck t => negb (real t)
  | _ => false
  end.

Definition waiting (pc : wpc) : nat :=
  match pc with WGet => 1 | _ => 0 end.

(** A call that follows the [put]s of [stop]: it never blocks and leaves
    queue and threads alone. *)
Definition closing_call (c : call) : bool :=
  match c with
  | CJoin _ (Some _) | CReport _ _ | CNothing | CDone => true
  | _ => false
  end.

(** The [put]s of [stop] still to come, when the session thread is in the
    middle of [stop] or past it. *)
Fixpoint puts_due (p : list call) : option nat :=
  match p with
  | CPut t :: p' => if real t then None else S <$> puts_due p'
  | _ => if forallb closing_call p then Some 0 else None
  end.

(** The same from the entry of [stop], which owes one item to each of the
    [n] threads. *)
Definition sentinels_due (n : nat) (p : list call) : option nat :=
  match p with
  | CStop :: p' => if forallb closing_call p' then Some n else None
  | _ => puts_due p
  end.

(** The session thread is in [start] or in [wait], with [stop] and calls
    that cannot block to follow. *)
Fixpoint opening (p : list call) : bool :=
  match p with
  | CSpawn :: p' => opening p'
  | CWait :: CStop :: p' => forallb closing_call p'
  | _ => false
  end.

(** Once [wait] has returned: every worker still in [get] has an item
    coming that ends its loop, in the queue or from [stop]; no worker has a
    file in hand; the lock is free. *)
Record closing (s : state) : Prop := {
  cl_due :
    exists k, sentinels_due (length (_threads s)) (main s) = Some k
              /\ total_of waiting (_threads s) = length (_file_queue s) + k;
  cl_threads : Forall (fun pc => winding_down pc = true) (_threads s);
  cl_queue : forallb (fun t => negb (real t)) (_file_queue s) = true;
  cl_lock : lock s = None
}.

(** The worker has no file in hand that it would still copy, once
    [_stopping] is set. *)
Definition idle (pc : wpc) : bool :=
  match pc with
  | WGet | WCheck _ | WTaskDone _ | WExited => true
  | _ => false
  end.

(** A session before and after the return of [wait]. *)
Definition in_session (s : state) : Prop :=
  (opening (main s) = true /\ lively s) \/ closing s.

(** Every thread has returned and nothing is left behind. *)
Record finished (s : state) : Prop := {
  fin_main : main s = [];
  fin_threads : Forall (fun pc => pc = WExited) (_threads s);
  fin_queue : _file_queue s = [];
  fin_unfinished : unfinished_tasks s = 0;
  fin_lock : lock s = None
}.

(** A call of the session thread that writes nothing to the log. *)
Definition silent (c : call) : bool :=
  match c with
  | CReport _ _ | CNothing => false
  | _ => true
  end.

(** The line the call [c] writes. *)
Definition line_of (c : call) (s : state) : logline :=
  match c with
  | CReport t_start t_end =>
      LFinished (copied_file_count s) (total_file_count s) (duration t_start t_end)
  | _ => LNothing
  end.

(** The session thread has its last line, that of [c], still to write and
    writes none before; or it has written it, and the line stands at the end
    of the log. *)
Definition summing_up (c : call) (s : state) : Prop :=
  (exists pre, main s = pre ++ [c; CDone] /\ forallb silent pre = true)
  \/ ((main s = [CDone] \/ main s = []) /\ last (log s) = Some (line_of c s)).

End Closing.

(** ** Worlds for the further examples *)

Module Cases.
Import Path OS ThreadedCopy.

(** The cards of [Examples.cards], the first bearing the mark of the
    camera's speed test. *)
Definition marked : filesystem :=
  <[ ["A"; ".pro_suc"] := File "" ]> Examples.cards.

(** A helper that erases nothing and fails. *)
Definition failing_erase (w : filesystem) (root keep : string)
    : res unit * filesystem :=
  (Raise (OSError ENOENT root None), w).

(** A helper that removes the recording folder of a card. *)
Definition erase_recordings (w : filesystem) (root keep : string)
    : res unit * filesystem :=
  (Ok tt,
   delete (components root ++ ["VID_001"; "f1.bin"])
     (delete (components root ++ ["VID_001"; "f2.bin"])
        (delete (components root ++ ["VID_001"]) w))).

End Cases.

(** * Properties *)

Import Path OS ThreadedCopy BatchCopy Inv.

(** ** Facts about the file-system calls *)

(** [repr] on a plain path, on one with a single quote, on one with a
    backslash, on one with control characters and on one with both quotes,
    as Python writes them. *)
Example repr_as_python :
  let q2 := double_quote in
  let b := reverse_solidus in
  repr "/A/VID_001" = "'/A/VID_001'"
  /\ repr "/A/it's" = String q2 ("/A/it's" +:+ String q2 "")
  /\ repr ("a" +:+ String b "b") = "'a" +:+ String b (String b "b'")
  /\ repr ("x" +:+ String (ascii_of_nat 9)
                    ("y" +:+ String (ascii_of_nat 1) (String (ascii_of_nat 127) "")))
     = "'x" +:+ String b ("ty" +:+ String b ("x01" +:+ String b "x7f'"))
  /\ repr ("b'" +:+ String q2 "") = "'b" +:+ String b ("'" +:+ String q2 "'").
Proof. vm_compute. repeat split. Qed.

Section OSFacts.

Implicit Types (w : filesystem) (k : list string) (n : node) (p : string).

Lemma lookup_key_insert_ne w k k' n :
  k' <> k -> lookup_key (<[k := n]> w) k' = lookup_key w k'.
Proof.
  intros Hne. unfold lookup_key. destruct k'; [done |].
  by rewrite lookup_insert_ne.
Qed.

Lemma lookup_key_insert_eq w k n :
  k <> [] -> lookup_key (<[k := n]> w) k = Some n.
Proof.
  intros Hne. unfold lookup_key. destruct k; [done |].
  by rewrite lookup_insert_eq.
Qed.


Lemma lookup_key_None w k : lookup_key w k = None -> k <> [].
Proof. by destruct k. Qed.

(** Where [follow] ends is what is stored there. *)
Lemma follow_Found fuel w k0 k n :
  follow fuel w k0 = Found k n -> lookup_key w k = Some n.
Proof.
  revert k0. induction fuel as [| fuel IH]; intros k0; cbn [follow];
    destruct (lookup_key w k0) as [[c | | t] |] eqn:E; try done;
    try (by intros [= <- <-]).
  apply IH.
Qed.

Lemma follow_Found_not_link fuel w k0 k n :
  follow fuel w k0 = Found k n -> forall t, n <> Symlink t.
Proof.
  revert k0. induction fuel as [| fuel IH]; intros k0; cbn [follow];
    destruct (lookup_key w k0) as [[c | | t] |] eqn:E; try done;
    try (by intros [= <- <-]).
  apply IH.
Qed.

Lemma follow_Missing fuel w k0 k :
  follow fuel w k0 = Missing k -> lookup_key w k = None.
Proof.
  revert k0. induction fuel as [| fuel IH]; intros k0; cbn [follow];
    destruct (lookup_key w k0) as [[c | | t] |] eqn:E; try done;
    try (by intros [= <-]).
  apply IH.
Qed.

(** Overwriting the file a path leads to: the path leads to the new file. *)
Lemma follow_overwrite fuel w k0 k c0 c :
  follow fuel w k0 = Found k (File c0) ->
  follow fuel (<[k := File c]> w) k0 = Found k (File c).
Proof.
  revert k0. induction fuel as [| fuel IH]; intros k0 H;
    pose proof (follow_Found _ _ _ _ _ H) as Hk; cbn [follow] in *;
    destruct (lookup_key w k0) as [[c' | | t] |] eqn:E; try done.
  - injection H as <- <-. rewrite lookup_key_insert_eq; [done |].
    intros ->. done.
  - injection H as <- <-. rewrite lookup_key_insert_eq; [done |].
    intros ->. done.
  - rewrite lookup_key_insert_ne by (intros ->; congruence).
    rewrite E. by apply IH.
Qed.

(** Creating a file where a path ends in nothing: the path leads to it. *)
Lemma follow_create fuel w k0 k c :
  follow fuel w k0 = Missing k ->
  follow fuel (<[k := File c]> w) k0 = Found k (File c).
Proof.
  revert k0. induction fuel as [| fuel IH]; intros k0 H;
    pose proof (follow_Missing _ _ _ _ H) as Hk;
    pose proof (lookup_key_None _ _ Hk) as Hne; cbn [follow] in *;
    destruct (lookup_key w k0) as [[c' | | t] |] eqn:E; try done.
  - injection H as <-. by rewrite lookup_key_insert_eq.
  - rewrite lookup_key_insert_ne by (intros ->; congruence).
    rewrite E. by apply IH.
  - injection H as <-. by rewrite lookup_key_insert_eq.
Qed.

Lemma create_Ok w p (p2 : option string) k n w' :
  create w p p2 k n = Ok w' -> lookup_key w k = None /\ w' = <[k := n]> w.
Proof.
  unfold create. destruct (lookup_key w k); [done |].
  destruct (lookup_key w (parent k)) as [[] |]; try done.
  by intros [= <-].
Qed.

(** What [write_file] leaves behind is read back under the same name. *)
Lemma write_file_stat w p c w' :
  write_file w p c = Ok w' -> stat w' p = Ok (File c).
Proof.
  unfold write_file, stat, resolve.
  destruct (follow max_links w (components p)) as [k [c0 | | t] | k |] eqn:E;
    try done; destruct (endswith_sep p) eqn:Hsep; try done.
  - intros [= <-]. by rewrite (follow_overwrite _ _ _ _ _ c E).
  - intros H. apply create_Ok in H as [_ ->].
    by rewrite (follow_create _ _ _ _ c E).
Qed.

Lemma lstat_file_read w p c :
  lstat w p = Some (File c) ->
  read_file w p = Ok c \/ exists e, read_file w p = Raise e.
Proof.
  unfold lstat, read_file, stat, resolve. intros H.
  change max_links with (S 39). cbn [follow]. rewrite H.
  destruct (endswith_sep p); cbn; eauto.
Qed.

(** A regular file copied into a directory: the name [dst/basename(src)]
    then reads as a file with the content of the source. *)
Lemma copy_file_into_dir w src dst c w' :
  copy w src dst false = Ok w' ->
  isdir w dst = true ->
  lstat w src = Some (File c) ->
  stat w' (join dst (basename src)) = Ok (File c).
Proof.
  unfold copy, copyfile. intros H Hdir Hsrc. rewrite Hdir in H.
  destruct (samefile _ _ _); [done |].
  unfold islink in H. rewrite Hsrc in H. cbn [negb andb] in H.
  destruct (lstat_file_read _ _ _ Hsrc) as [Hr | [e Hr]]; rewrite Hr in H;
    [| done].
  cbn in H. by apply write_file_stat in H.
Qed.

(** A symbolic link copied into a directory: the name [dst/basename(src)]
    is then a link with the same text. *)
Lemma copy_link_into_dir w src dst t w' :
  copy w src dst false = Ok w' ->
  isdir w dst = true ->
  lstat w src = Some (Symlink t) ->
  lstat w' (join dst (basename src)) = Some (Symlink t).
Proof.
  unfold copy, copyfile. intros H Hdir Hsrc. rewrite Hdir in H.
  destruct (samefile _ _ _); [done |].
  unfold islink, readlink in H. rewrite Hsrc in H. cbn in H.
  unfold symlink in H. destruct (endswith_sep _); [done |].
  apply create_Ok in H as [Hnone ->]. unfold lstat.
  apply lookup_key_insert_eq. by eapply lookup_key_None.
Qed.

(** With [follow_symlinks=False] the copy never reads through a link: the
    world after the copy of a link differs from the one before by the new
    link alone. *)
Lemma copy_link_is_not_followed w src dst t w' :
  copy w src dst false = Ok w' ->
  lstat w src = Some (Symlink t) ->
  exists k, lookup_key w k = None /\ w' = <[k := Symlink t]> w.
Proof.
  unfold copy, copyfile. intros H Hsrc.
  destruct (samefile _ _ _); [done |].
  unfold islink, readlink in H. rewrite Hsrc in H. cbn in H.
  unfold symlink in H. destruct (endswith_sep _); [done |].
  apply create_Ok in H as [Hnone ->]. eauto.
Qed.

End OSFacts.

(** ** Facts about the path functions *)

Section PathFacts.

Implicit Types (a b s name : string).

Lemma append_cons c s b : String c s +:+ b = String c (s +:+ b).
Proof. reflexivity. Qed.

Lemma split_nonempty s : split s <> [].
Proof. destruct s as [| c s]; cbn; [done |]. by repeat case_match. Qed.

Lemma split_no_sep s : Forall (fun x => has_sep x = false) (split s).
Proof.
  induction s as [| c s IH]; cbn; [by repeat constructor |].
  destruct (is_sep c) eqn:Hc; [by constructor |].
  destruct (split s) as [| x xs]; [by repeat constructor; cbn; rewrite Hc |].
  inversion IH; subst. constructor; [| done]. cbn. by rewrite Hc.
Qed.

Lemma basename_no_sep s : has_sep (basename s) = false.
Proof.
  unfold basename. pose proof (split_no_sep s) as H.
  induction H as [| x xs Hx Hxs IH]; [done |].
  destruct xs; [done |]. exact IH.
Qed.

Lemma split_whole s : has_sep s = false -> split s = [s].
Proof.
  induction s as [| c s IH]; cbn; [done |].
  intros [Hc Hs]%orb_false_iff. rewrite Hc, (IH Hs). done.
Qed.

Lemma removelast_cons {A} (x : A) (l : list A) :
  l <> [] -> removelast (x :: l) = x :: removelast l.
Proof. by destruct l. Qed.

Lemma last_cons {A} (x d : A) (l : list A) :
  l <> [] -> List.last (x :: l) d = List.last l d.
Proof. by destruct l. Qed.

(** Appending text without separator extends the last piece. *)
Lemma split_append s b :
  has_sep b = false ->
  split (s +:+ b) = removelast (split s) ++ [List.last (split s) EmptyString +:+ b].
Proof.
  intros Hb. induction s as [| c s IH].
  - cbn. by apply split_whole.
  - rewrite append_cons. cbn [split]. destruct (is_sep c) eqn:Hc.
    + rewrite IH, removelast_cons, last_cons by apply split_nonempty. done.
    + rewrite IH. pose proof (split_nonempty s) as Hne.
      destruct (split s) as [| x [| y l]]; [done | done |].
      cbn [removelast app]. rewrite last_cons by done. done.
Qed.

Lemma split_append_sep s b :
  split (s +:+ sep +:+ b) = split s ++ split b.
Proof.
  induction s as [| c s IH]; [done |].
  rewrite append_cons. cbn [split]. destruct (is_sep c) eqn:Hc.
  - by rewrite IH.
  - rewrite IH. pose proof (split_nonempty s) as Hne.
    by destruct (split s).
Qed.

Lemma endswith_sep_split s :
  endswith_sep s = true ->
  List.last (split s) EmptyString = EmptyString /\ 2 <= length (split s).
Proof.
  induction s as [| c s IH]; [done |]. cbn [endswith_sep split].
  destruct s as [| c' s'].
  - intros ->. cbn. split; [done | lia].
  - intros H. destruct (IH H) as [Hl Hn]. clear IH.
    destruct (split (String c' s')) as [| x [| y l]]; cbn in Hn; try lia.
    destruct (is_sep c); split; try done; cbn [length]; lia.
Qed.

Lemma endswith_sep_last s :
  endswith_sep s = true -> List.last (split s) EmptyString = EmptyString.
Proof. intros H. by apply endswith_sep_split. Qed.

Lemma filter_removelast (l : list string) :
  List.last l EmptyString = EmptyString ->
  List.filter nonempty (removelast l) = List.filter nonempty l.
Proof.
  induction l as [| x l IH]; [done |]. destruct l as [| y l].
  - cbn. by intros ->.
  - intros H. rewrite removelast_cons by done. cbn [List.filter].
    rewrite IH; [done |]. by rewrite last_cons in H.
Qed.

Lemma collapse_snoc (acc cs : list string) name :
  String.eqb name "." = false -> String.eqb name ".." = false ->
  collapse acc (cs ++ [name]) = collapse acc cs ++ [name].
Proof.
  intros H1 H2. revert acc. induction cs as [| c cs IH]; intros acc.
  - cbn. by rewrite H1, H2.
  - cbn [app collapse]. by repeat case_match.
Qed.

(** Joining a proper name to a path adds one component. *)
Lemma components_join a name :
  proper_name name = true ->
  components (join a name) = components a ++ [name].
Proof.
  unfold proper_name. intros H.
  apply andb_prop in H as [H Hdd]. apply andb_prop in H as [H Hd].
  apply andb_prop in H as [Hne Hsep].
  apply negb_true_iff in Hsep, Hd, Hdd.
  assert (Hstart : startswith name sep = false).
  { destruct name as [| c name]; [done |]. cbn in Hsep.
    apply orb_false_iff in Hsep as [Hc _]. unfold sep. cbn [startswith].
    unfold is_sep in Hc. rewrite Ascii.eqb_sym in Hc. by rewrite Hc. }
  unfold join. rewrite Hstart. unfold components.
  destruct (negb (nonempty a) || endswith_sep a) eqn:Ha.
  - rewrite split_append by done. rewrite List.filter_app.
    assert (Hlast : List.last (split a) EmptyString = EmptyString).
    { apply orb_prop in Ha as [Ha | Ha]; [| by apply endswith_sep_last].
      by destruct a. }
    rewrite Hlast, filter_removelast by done.
    change (EmptyString +:+ name) with name. cbn [List.filter].
    rewrite Hne. by apply collapse_snoc.
  - rewrite split_append_sep, (split_whole name) by done.
    rewrite List.filter_app. cbn [List.filter]. rewrite Hne.
    by apply collapse_snoc.
Qed.

End PathFacts.

(** ** The summary line *)

Section Duration.

Lemma Qnum_nonneg (d : Q) : (0 <= d)%Q -> (0 <= Qnum d)%Z.
Proof. unfold Qle. simpl. lia. Qed.

Lemma duration_floor (t0 t1 : Q) :
  (t0 <= t1)%Q -> duration t0 t1 = (Qfloor (t1 - t0) + 1)%Z.
Proof.
  intros Hle. unfold duration.
  assert (Hd : (0 <= t1 - t0)%Q) by (apply Qle_minus_iff in Hle; exact Hle).
  destruct (t1 - t0)%Q as [n p] eqn:E. apply Qnum_nonneg in Hd.
  cbn [Qnum Qden Qfloor] in *. rewrite Z.quot_div_nonneg by lia. reflexivity.
Qed.

Lemma whole_mod (d : Q) : Spec.whole d <-> (Qnum d mod Zpos (Qden d) = 0)%Z.
Proof.
  destruct d as [n p]. unfold Spec.whole, Qeq. cbn.
  pose proof (Z.div_mod n (Zpos p)) as Hdm.
  split; intros H; lia.
Qed.

Lemma ceiling_whole (d : Q) : Spec.whole d -> Qceiling d = Qfloor d.
Proof.
  intros H%whole_mod. destruct d as [n p]. unfold Qceiling. cbn in *.
  rewrite Z.div_opp_l_z by lia. lia.
Qed.

Lemma ceiling_not_whole (d : Q) : ~ Spec.whole d -> Qceiling d = (Qfloor d + 1)%Z.
Proof.
  intros H. rewrite whole_mod in H. destruct d as [n p]. unfold Qceiling. cbn in *.
  rewrite Z.div_opp_l_nz by lia. lia.
Qed.

Lemma floor_nonneg (d : Q) : (0 <= d)%Q -> (0 <= Qfloor d)%Z.
Proof. intros H. change 0%Z with (Qfloor 0). by apply Qfloor_resp_le. Qed.

End Duration.

(** What the session thread has to do once [init] has returned. *)
Lemma start_copy_program
    (get_subdirs : filesystem -> string -> string -> res (list string))
    (sources_dirs : list string) (target_dir : string) (t_start t_end : Q)
    (w : filesystem) (l : list logline) (s0 : state) :
  init get_subdirs sources_dirs target_dir prefixes (__init__ w l) = (Ok tt, s0) ->
  main (start_copy get_subdirs sources_dirs target_dir t_start t_end w l)
  = if (0 <? total_file_count s0)%nat
    then start (length sources_dirs) ++ [CWait; CStop; CReport t_start t_end; CDone]
    else [CNothing; CDone].
Proof.
  intros E. unfold start_copy. rewrite E.
  by destruct (0 <? total_file_count s0)%nat.
Qed.

(** C9, as the code has it.  When [init] has planned at least one task, the
    session thread starts the workers, waits, stops them and then makes its
    [CReport] call; there it logs one line carrying [copied_file_count],
    [total_file_count] and [int(end - start) + 1].  For readings
    [t_start <= t_end] that number is the floor of the elapsed time plus
    one, hence at least 1; it is the ceiling (with minimum 1) of the
    specification exactly when the elapsed time is zero or not a whole
    number of seconds, and one more than the ceiling when it is a whole
    number of seconds that is not zero. *)
Theorem C9_summary_floor_plus_one (s : state) (t_start t_end : Q) (rest : list call) :
  main s = CReport t_start t_end :: rest ->
  (t_start <= t_end)%Q ->
  let d := (t_end - t_start)%Q in
  step Main s =
    Some (set_main rest
            (log_ (LFinished (copied_file_count s) (total_file_count s)
                     (duration t_start t_end)) s))
  /\ duration t_start t_end = (Qfloor d + 1)%Z
  /\ (1 <= duration t_start t_end)%Z
  /\ (~ Spec.whole d \/ (d == 0)%Q -> duration t_start t_end = Spec.ceiling_seconds d)
  /\ (Spec.whole d -> ~ (d == 0)%Q ->
      duration t_start t_end = (Spec.ceiling_seconds d + 1)%Z)
  /\ (forall get_subdirs sources_dirs target_dir w l s0,
        init get_subdirs sources_dirs target_dir prefixes (__init__ w l) = (Ok tt, s0) ->
        0 < total_file_count s0 ->
        main (start_copy get_subdirs sources_dirs target_dir t_start t_end w l)
        = start (length sources_dirs) ++ [CWait; CStop; CReport t_start t_end; CDone]).
Proof.
  intros Hmain Hle d.
  assert (Hd : (0 <= d)%Q) by (apply Qle_minus_iff in Hle; exact Hle).
  pose proof (floor_nonneg d Hd) as Hf.
  pose proof (duration_floor _ _ Hle) as Hdur. fold d in Hdur.
  split; [| split; [exact Hdur | split; [lia | split; [| split] ] ] ].
  - unfold step. rewrite Hmain. reflexivity.
  - rewrite Hdur. unfold Spec.ceiling_seconds.
    intros [Hnw | Hz].
    + rewrite (ceiling_not_whole d Hnw). lia.
    + rewrite (Qfloor_comp _ _ Hz), (Qceiling_comp _ _ Hz). reflexivity.
  - rewrite Hdur. unfold Spec.ceiling_seconds.
    intros Hw Hnz. rewrite (ceiling_whole d Hw).
    assert (Qfloor d <> 0)%Z.
    { intros E. apply Hnz. unfold Spec.whole in Hw. rewrite E in Hw.
      symmetry. exact Hw. }
    lia.
  - intros get_subdirs sources_dirs target_dir w l s0 E Hpos.
    rewrite (start_copy_program _ _ _ _ _ _ _ _ E).
    by destruct (Nat.ltb_spec 0 (total_file_count s0)); [| lia].
Qed.

Lemma C9_summary_floor_plus_one_witness :
  duration 100 (205 # 2) = 3%Z /\ Spec.ceiling_seconds ((205 # 2) - 100) = 3%Z.
Proof.
  pose (s := set_main [CReport 100 (205 # 2); CDone] (__init__ ∅ [])).
  assert (Hle : (100 <= 205 # 2)%Q) by (unfold Qle; simpl; lia).
  destruct (C9_summary_floor_plus_one s 100 (205 # 2) [CDone] eq_refl Hle)
    as (_ & Hfl & _).
  split; [rewrite Hfl |]; reflexivity.
Defined.

(** C9, as the specification words it, fails: an elapsed time of exactly two
    seconds is reported as 3, its ceiling is 2. *)
Lemma C9_ceiling_counterexample :
  duration 100 102 = 3%Z /\ Spec.ceiling_seconds (102 - 100) = 2%Z.
Proof. split; reflexivity. Qed.

(** ** The free-space gate *)

Section SpaceGate.

Lemma space_gb_mono (a b : Z) : (a <= b)%Z -> (space_gb a <= space_gb b)%Z.
Proof.
  intros Hab. unfold space_gb, round_half_even. cbv zeta.
  set (d := 1073741824%Z).
  pose proof (Z.div_mod (10 * a) d ltac:(done)) as Ha.
  pose proof (Z.div_mod (10 * b) d ltac:(done)) as Hb.
  pose proof (Z.mod_pos_bound (10 * a) d ltac:(done)) as Hra.
  pose proof (Z.mod_pos_bound (10 * b) d ltac:(done)) as Hrb.
  generalize dependent ((10 * a) mod d)%Z. intros ra Ha Hra.
  generalize dependent ((10 * b) mod d)%Z. intros rb Hb Hrb.
  generalize dependent ((10 * a) / d)%Z. intros qa Ha.
  generalize dependent ((10 * b) / d)%Z. intros qb Hb.
  subst d.
  destruct (Z.eq_dec qa qb) as [-> | Hne].
  - destruct (Z.ltb_spec (2 * ra) 1073741824), (Z.ltb_spec 1073741824 (2 * ra)),
      (Z.ltb_spec (2 * rb) 1073741824), (Z.ltb_spec 1073741824 (2 * rb)),
      (Z.even qb); lia.
  - destruct (Z.ltb_spec (2 * ra) 1073741824), (Z.ltb_spec 1073741824 (2 * ra)),
      (Z.ltb_spec (2 * rb) 1073741824), (Z.ltb_spec 1073741824 (2 * rb)),
      (Z.even qa), (Z.even qb); lia.
Qed.

Variable get_used_space : filesystem -> list string -> Z.
Variable get_free_space : filesystem -> string -> Z.

Lemma ensure_target_world (w : filesystem) (target_dir : string) :
  ensure_target w target_dir = w
  \/ mkdir w target_dir = Ok (ensure_target w target_dir).
Proof.
  unfold ensure_target. destruct (exists_ w target_dir); [by left |].
  destruct (mkdir w target_dir); [by right | by left].
Qed.

(** C6.  With [w1] the world once the target directory has been seen to
    (lines 373-377), [required = get_used_space(sources)] and
    [free = get_free_space(target)]:
    - when [free <= required], [_on_start] ends in a [showerror] and no
      copy thread: the world it leaves is [w] or [w1], which differs from
      [w] by the target directory at most; no [ThreadedCopy] exists, so
      nothing is planned or copied;
    - when moreover the earlier checks pass, the message is the report of
      the required and the available space;
    - the copy thread is started only if [required < free]. *)
Theorem C6_free_space_gate (sources_dirs : list string) (target_dir : string)
    (w : filesystem) :
  let w1 := ensure_target w target_dir in
  let required := get_used_space w1 sources_dirs in
  let free := get_free_space w1 target_dir in
  let out := _on_start get_used_space get_free_space sources_dirs target_dir w in
  ((free <= required)%Z ->
     exists message w', out = ShowError "Error" message w' /\ (w' = w \/ w' = w1))
  /\ ((free <= required)%Z ->
      sources_dirs <> [] -> nonempty target_dir = true ->
      exists_ w1 target_dir = true ->
      out = ShowError "Error"
              (not_enough_space (space_gb required) (space_gb free)) w1)
  /\ (forall w' l, out = StartCopy w' l ->
        (required < free)%Z /\ w' = w1 /\ l = [LCopyingGB (space_gb required)])
  /\ (w1 = w \/ mkdir w target_dir = Ok w1).
Proof.
  intros w1 required free out.
  assert (Hgate : (free <= required)%Z ->
                  (space_gb free <=? space_gb required)%Z = true).
  { intros H. apply Z.leb_le, space_gb_mono, H. }
  split; [| split; [| split] ].
  - intros Hle. subst out. unfold _on_start.
    destruct sources_dirs; [eauto |].
    destruct (nonempty target_dir); cbn [negb]; [| eauto].
    fold w1. destruct (exists_ w1 target_dir); cbn [negb]; [| eauto].
    fold required free. rewrite (Hgate Hle). eauto.
  - intros Hle Hsrc Htgt Hex. subst out. unfold _on_start.
    destruct sources_dirs; [done |]. rewrite Htgt. cbn [negb].
    fold w1. rewrite Hex. cbn [negb]. fold required free.
    by rewrite (Hgate Hle).
  - intros w' l. subst out. unfold _on_start.
    destruct sources_dirs; [done |].
    destruct (nonempty target_dir); cbn [negb]; [| done].
    fold w1. destruct (exists_ w1 target_dir); cbn [negb]; [| done].
    fold required free.
    destruct (Z.leb_spec (space_gb free) (space_gb required)) as [Hle | Hlt]; [done |].
    intros [= <- <-]. split; [| done].
    destruct (Z.lt_ge_cases required free) as [? | Hge]; [done |].
    apply space_gb_mono in Hge. lia.
  - apply ensure_target_world.
Qed.

End SpaceGate.

Lemma C6_free_space_gate_witness :
  _on_start (fun _ _ => 3000000000%Z) (fun _ _ => 2000000000%Z) ["/A"] "/T"
    Examples.cards
  = ShowError "Error" (not_enough_space 28 19) Examples.cards.
Proof.
  destruct (C6_free_space_gate (fun _ _ => 3000000000%Z) (fun _ _ => 2000000000%Z)
              ["/A"] "/T" Examples.cards) as (_ & H & _ & _).
  apply H; [lia | done | reflexivity | vm_compute; reflexivity].
Defined.

(** The gate compares tenths of a gigabyte: one free byte more than required
    is not enough. *)
Example space_gate_is_coarse :
  _on_start (fun _ _ => 1073741824%Z) (fun _ _ => 1073741825%Z) ["/A"] "/T"
    Examples.cards
  = ShowError "Error" (not_enough_space 10 10) Examples.cards.
Proof. vm_compute. reflexivity. Qed.

(** ** One worker, step by step *)

Section WorkerSteps.

Lemma step_worker (i : nat) (pc : wpc) (s : state) :
  _threads s !! i = Some pc -> step (Worker i) s = worker_step i pc s.
Proof. intros H. unfold step. by rewrite H. Qed.

Lemma run_app (a b : list tid) (s : state) : run (a ++ b) s = run b (run a s).
Proof. apply foldl_app. Qed.

Lemma run_cons (t : tid) (l : list tid) (s : state) :
  run (t :: l) s = run l (default s (step t s)).
Proof. reflexivity. Qed.

Lemma lookup_set_pc (i : nat) (pc pc' : wpc) (s : state) :
  _threads s !! i = Some pc -> _threads (set_pc i pc' s) !! i = Some pc'.
Proof.
  intros H. apply list_lookup_insert_eq. by eapply lookup_lt_Some.
Qed.

Lemma set_pc_set_pc (i : nat) (pc pc' : wpc) (s : state) :
  set_pc i pc' (set_pc i pc s) = set_pc i pc' s.
Proof. unfold set_pc, set_threads. cbn. by rewrite list_insert_insert_eq. Qed.

End WorkerSteps.

(** Unfolds the field updates of a state given by its fields. *)
Ltac fields :=
  cbv beta iota zeta delta
    [default from_option id set_pc set_threads set_queue set_fs set_lock
     set_copied set_unfinished set_log set_main set_stopping set_total log_ put
     _stopping _file_queue unfinished_tasks total_file_count copied_file_count
     lock _threads main fs log];
  rewrite ?list_insert_insert_eq.

(** Takes the worker [i] of a state given by its fields one step further. *)
Ltac solo i Hlen :=
  rewrite run_cons; unfold step; fields;
  first [ rewrite (list_lookup_insert_eq _ i) by exact Hlen
        | match goal with H : _ !! i = Some _ |- _ => rewrite H end ];
  cbv beta iota delta [worker_step truthy andb negb]; fields.

(** Takes worker [i], known to stand at some [pc], one step further. *)
Ltac worker_go i :=
  rewrite run_cons;
  match goal with
  | H : _threads ?s !! i = Some ?pc |- context [step (Worker i) ?s] =>
      rewrite (step_worker i pc s H); cbn [worker_step default]
  end.

(** The three states a worker goes through after taking a task with an
    empty field. *)
Lemma empty_field_states (i : nat) (s : state) (source dest : field)
    (q : list task) :
  _threads s !! i = Some WGet ->
  _file_queue s = (source, dest) :: q ->
  truthy source = false \/ truthy dest = false ->
  run [Worker i] s = set_pc i (WCheck (source, dest)) (set_queue q s)
  /\ run [Worker i; Worker i] s = set_pc i (WTaskDone false) (set_queue q s)
  /\ run [Worker i; Worker i; Worker i] s
     = set_pc i WExited
         (set_unfinished (pred (unfinished_tasks s)) (set_queue q s)).
Proof.
  intros Hpc Hq Hempty.
  assert (Hcond : truthy source && truthy dest && negb (_stopping s) = false).
  { destruct Hempty as [-> | ->]; [done |]. by rewrite andb_false_r. }
  assert (E1 : run [Worker i] s = set_pc i (WCheck (source, dest)) (set_queue q s)).
  { worker_go i. by rewrite Hq. }
  assert (E2 : run [Worker i; Worker i] s
               = set_pc i (WTaskDone false) (set_queue q s)).
  { change [Worker i; Worker i] with ([Worker i] ++ [Worker i]).
    rewrite run_app, E1.
    pose proof (lookup_set_pc i _ (WCheck (source, dest)) (set_queue q s) Hpc) as H1.
    worker_go i. cbn [_stopping set_pc set_threads set_queue]. rewrite Hcond.
    cbn [default run foldl]. by rewrite set_pc_set_pc. }
  split; [exact E1 | split; [exact E2 |] ].
  change [Worker i; Worker i; Worker i] with ([Worker i; Worker i] ++ [Worker i]).
  rewrite run_app, E2.
  pose proof (lookup_set_pc i _ (WTaskDone false) (set_queue q s) Hpc) as H2.
  worker_go i. cbn [unfinished_tasks set_pc set_threads set_queue].
  destruct (unfinished_tasks s) eqn:Hu; cbn [default run foldl pred].
  - rewrite set_pc_set_pc. unfold set_pc, set_unfinished, set_threads, set_queue.
    cbn. by rewrite Hu.
  - unfold set_pc, set_unfinished, set_threads, set_queue. cbn.
    by rewrite list_insert_insert_eq.
Qed.

(** C10.  A worker that takes from the queue a task one of whose fields is
    [None] or [''] tests the condition of line 40, goes to the [finally]
    clause and returns: it copies nothing, logs nothing, leaves
    [copied_file_count] alone, and its thread is over.  So it is for
    [(None, None)], and so it is for a task such as [('', '/T/VID_001/')]. *)
Theorem C10_empty_field_ends_worker (i : nat) (s : state) (source dest : field)
    (q : list task) :
  _threads s !! i = Some WGet ->
  _file_queue s = (source, dest) :: q ->
  truthy source = false \/ truthy dest = false ->
  let s1 := run [Worker i] s in
  let s2 := run [Worker i; Worker i] s in
  let s3 := run [Worker i; Worker i; Worker i] s in
  _threads s1 = <[i := WCheck (source, dest)]> (_threads s)
  /\ _threads s2 = <[i := WTaskDone false]> (_threads s)
  /\ _threads s3 = <[i := WExited]> (_threads s)
  /\ step (Worker i) s3 = None
  /\ _file_queue s3 = q
  /\ copied_file_count s3 = copied_file_count s
  /\ fs s3 = fs s
  /\ log s3 = log s
  /\ unfinished_tasks s3 = pred (unfinished_tasks s).
Proof.
  intros Hpc Hq Hempty s1 s2 s3.
  destruct (empty_field_states i s source dest q Hpc Hq Hempty) as (E1 & E2 & E3).
  subst s1 s2 s3. rewrite E1, E2, E3.
  repeat split; try reflexivity.
  rewrite (step_worker i WExited); [done |].
  apply (lookup_set_pc i WGet). exact Hpc.
Qed.

Lemma C10_empty_field_ends_worker_witness :
  let s := set_threads [WGet] (put (Some "") (Some "/T/VID_001/")
                                 (__init__ Examples.cards [])) in
  _threads (run [Worker 0; Worker 0; Worker 0] s) = [WExited]
  /\ copied_file_count (run [Worker 0; Worker 0; Worker 0] s) = 0.
Proof.
  intros s.
  destruct (C10_empty_field_ends_worker 0 s (Some "") (Some "/T/VID_001/") []
              eq_refl eq_refl (or_introl eq_refl))
    as (_ & _ & H3 & _ & _ & Hc & _).
  split; [exact H3 | exact Hc].
Defined.

(** C5, as the code has it.  A worker takes a task with two non-empty
    fields while [_stopping] is off, and [shutil.copy] raises [e].  The
    worker has logged [Copying <source>] before the copy; it now logs
    [Error copying: <str(e)>], the reason, calls [task_done], and stands at
    [get] again, ready for the next task.  [copied_file_count] is as before;
    so are the world, the lock, the flag, the session thread, the other
    workers and the rest of the queue. *)
Theorem C5_copy_error_is_logged_and_skipped (i : nat) (s : state)
    (source dest : string) (q : list task) (e : exn) :
  _threads s !! i = Some WGet ->
  _file_queue s = (Some source, Some dest) :: q ->
  nonempty source = true -> nonempty dest = true ->
  _stopping s = false ->
  unfinished_tasks s <> 0 ->
  copy (fs s) source dest false = Raise e ->
  let s' := run (replicate 6 (Worker i)) s in
  s' = set_unfinished (pred (unfinished_tasks s))
         (log_ (LErrorCopying e) (log_ (LCopying source) (set_queue q s)))
  /\ log s' = log s ++ [LCopying source; LErrorCopying e]
  /\ render (LCopying source) = "Copying " +:+ source
  /\ render (LErrorCopying e) = "Error copying: " +:+ str e
  /\ copied_file_count s' = copied_file_count s
  /\ _threads s' !! i = Some WGet
  /\ _threads s' = _threads s
  /\ _file_queue s' = q
  /\ fs s' = fs s /\ _stopping s' = false /\ main s' = main s /\ lock s' = lock s.
Proof.
  intros Hpc Hq Hsrc Hdst Hstop Hunf Hcopy s'.
  assert (Hlen : i < length (_threads s)) by (by eapply lookup_lt_Some).
  assert (E : s' = set_unfinished (pred (unfinished_tasks s))
                     (log_ (LErrorCopying e) (log_ (LCopying source) (set_queue q s)))).
  { subst s'. destruct s as [st qu un to co lo th ma w lg].
    cbn in Hpc, Hq, Hstop, Hunf, Hcopy, Hlen. subst qu st.
    destruct un as [| n]; [done |].
    cbn [replicate].
    solo i Hlen. solo i Hlen. rewrite Hsrc, Hdst. fields.
    rewrite ?list_insert_insert_eq.
    solo i Hlen. solo i Hlen. rewrite Hcopy. fields.
    rewrite ?list_insert_insert_eq.
    solo i Hlen. solo i Hlen.
    cbn [run foldl pred]. rewrite list_insert_id by done.
    by rewrite <- app_assoc. }
  rewrite E. cbn. repeat split; try done.
  by rewrite <- app_assoc.
Qed.

(** C3, as the code has it.  A worker takes a task whose two fields are
    strings that are not empty (the test of line 40) while [_stopping] is
    off, and [shutil.copy(source, dest, follow_symlinks=False)] returns,
    leaving the world [w].  Then, with the worker running on its own:
    - after nine steps it stands at [get] again, the world is [w], and
      [copied_file_count] is one more than before;
    - the read (step 6) and the write (step 7) of the counter happen while
      the worker holds [self.lock], during which no other worker gets past
      the [with] of line 43; the lock is free again afterwards;
    - when [dest] is a directory, the copy is there under the name of the
      source: a regular file reads back with the same content, a symbolic
      link is a link with the same text (it was not followed), and the path
      written is [dest] with the one component [basename(source)] added. *)
Theorem C3_worker_copies_and_counts (i : nat) (s : state) (source dest : string)
    (q : list task) (w : filesystem) :
  _threads s !! i = Some WGet ->
  _file_queue s = (Some source, Some dest) :: q ->
  nonempty source = true -> nonempty dest = true ->
  _stopping s = false ->
  lock s = None ->
  unfinished_tasks s <> 0 ->
  copy (fs s) source dest false = Ok w ->
  let s5 := run (replicate 5 (Worker i)) s in
  let s7 := run (replicate 7 (Worker i)) s in
  let s9 := run (replicate 9 (Worker i)) s in
  s9 = set_unfinished (pred (unfinished_tasks s))
         (set_copied (copied_file_count s + 1)
            (set_fs w (log_ (LCopying source) (set_queue q s))))
  /\ fs s9 = w
  /\ copied_file_count s9 = copied_file_count s + 1
  /\ _threads s9 !! i = Some WGet
  /\ lock s9 = None
  /\ (lock s5 = Some i /\ _threads s5 !! i = Some WLoad
      /\ copied_file_count s5 = copied_file_count s)
  /\ (lock s7 = Some i /\ _threads s7 !! i = Some WRelease
      /\ copied_file_count s7 = copied_file_count s + 1)
  /\ (forall k, _threads s5 !! k = Some WAcquire -> step (Worker k) s5 = None)
  /\ (isdir (fs s) dest = true ->
      (forall c, lstat (fs s) source = Some (File c) ->
                 stat w (join dest (basename source)) = Ok (File c))
      /\ (forall t, lstat (fs s) source = Some (Symlink t) ->
                    lstat w (join dest (basename source)) = Some (Symlink t))
      /\ (proper_name (basename source) = true ->
          components (join dest (basename source))
          = components dest ++ [basename source])).
Proof.
  intros Hpc Hq Hsrc Hdst Hstop Hlock Hunf Hcopy s5 s7 s9.
  assert (Hlen : i < length (_threads s)) by (by eapply lookup_lt_Some).
  destruct s as [st qu un to co lo th ma w0 lg].
  cbn in Hpc, Hq, Hstop, Hlock, Hunf, Hcopy, Hlen. subst qu st lo.
  destruct un as [| n]; [done |].
  assert (E5 : s5 = mkState false q (S n) to co (Some i) (<[i := WLoad]> th) ma w
                      (lg ++ [LCopying source])).
  { subst s5. cbn [replicate].
    solo i Hlen. solo i Hlen. rewrite Hsrc, Hdst. fields.
    solo i Hlen. solo i Hlen. rewrite Hcopy. fields.
    solo i Hlen. reflexivity. }
  assert (E7 : s7 = mkState false q (S n) to (co + 1) (Some i) (<[i := WRelease]> th)
                      ma w (lg ++ [LCopying source])).
  { subst s7. change (replicate 7 (Worker i))
      with (replicate 5 (Worker i) ++ replicate 2 (Worker i)).
    rewrite run_app. fold s5. rewrite E5. cbn [replicate].
    solo i Hlen. solo i Hlen. reflexivity. }
  assert (E9 : s9 = mkState false q n to (co + 1) None th ma w
                      (lg ++ [LCopying source])).
  { subst s9. change (replicate 9 (Worker i))
      with (replicate 7 (Worker i) ++ replicate 2 (Worker i)).
    rewrite run_app. fold s7. rewrite E7. cbn [replicate].
    solo i Hlen. solo i Hlen. cbn [run foldl].
    by rewrite list_insert_id. }
  rewrite E5, E7, E9. cbn.
  repeat split; try done; try (by apply list_lookup_insert_eq).
  - intros k Hk. unfold step. cbn [_threads]. by rewrite Hk.
  - intros c Hc. by eapply copy_file_into_dir.
  - intros t Ht. by eapply copy_link_into_dir.
  - apply components_join.
Qed.

Lemma C3_worker_copies_and_counts_witness :
  let s := Examples.one_worker Examples.prepared
             (Some "/A/VID_001/latest", Some "/T/VID_001/") in
  let s9 := run (replicate 9 (Worker 0)) s in
  copied_file_count s9 = 1
  /\ fs s9 = <[ ["T"; "VID_001"; "latest"] := Symlink "/A/VID_001/f2.bin" ]>
               Examples.prepared.
Proof.
  intros s s9.
  pose (w := <[ ["T"; "VID_001"; "latest"] := Symlink "/A/VID_001/f2.bin" ]>
               Examples.prepared).
  assert (Hcopy : copy (fs s) "/A/VID_001/latest" "/T/VID_001/" false = Ok w)
    by (vm_compute; reflexivity).
  destruct (C3_worker_copies_and_counts 0 s "/A/VID_001/latest" "/T/VID_001/" [] w
              eq_refl eq_refl eq_refl eq_refl eq_refl eq_refl
              ltac:(discriminate) Hcopy)
    as (_ & Hfs & Hc & _).
  split; [exact Hc | exact Hfs].
Defined.

(** C3, as the specification words it, fails: the task [('', '/T/VID_001/')]
    is not the sentinel [(None, None)] and is taken while [_stopping] is off,
    yet the worker copies nothing and counts nothing: the test of line 40
    fails on the empty source, and the worker returns. *)
Lemma C3_empty_source_counterexample :
  let t : task := (Some "", Some "/T/VID_001/") in
  let s := Examples.one_worker Examples.prepared t in
  let s' := run (replicate 9 (Worker 0)) s in
  t <> sentinel
  /\ _stopping s = false
  /\ _file_queue s = [t]
  /\ fs s' = Examples.prepared
  /\ copied_file_count s' = 0
  /\ log s' = []
  /\ _threads s' = [WExited].
Proof.
  intros t s s'. split; [by subst t |].
  repeat split.
Qed.

Lemma C5_copy_error_is_logged_and_skipped_witness :
  let s := Examples.one_worker Examples.prepared
             (Some "/A/VID_001/gone.bin", Some "/T/VID_001/") in
  let s' := run (replicate 6 (Worker 0)) s in
  log s' = [LCopying "/A/VID_001/gone.bin";
            LErrorCopying (OSError ENOENT "/A/VID_001/gone.bin" None)]
  /\ copied_file_count s' = 0
  /\ _threads s' = [WGet].
Proof.
  intros s s'.
  assert (Hcopy : copy (fs s) "/A/VID_001/gone.bin" "/T/VID_001/" false
                  = Raise (OSError ENOENT "/A/VID_001/gone.bin" None))
    by (vm_compute; reflexivity).
  destruct (C5_copy_error_is_logged_and_skipped 0 s "/A/VID_001/gone.bin"
              "/T/VID_001/" [] (OSError ENOENT "/A/VID_001/gone.bin" None)
              eq_refl eq_refl eq_refl eq_refl eq_refl ltac:(discriminate) Hcopy)
    as (_ & Hlog & _ & _ & Hc & _ & Hth & _).
  split; [exact Hlog | split; [exact Hc | exact Hth] ].
Defined.

(** C5, as the specification words it, fails: the line that reports the
    error carries [str(e)], which names the path of the call that failed;
    here that is the destination, and the source path is not in the line. *)
Lemma C5_error_line_counterexample :
  let source := "/A/VID_001/f1.bin" in
  let s := Examples.one_worker Examples.occupied (Some source, Some "/T/VID_001/") in
  let s' := run (replicate 6 (Worker 0)) s in
  map render (log s')
  = ["Copying /A/VID_001/f1.bin";
     "Error copying: [Errno 21] Is a directory: '/T/VID_001/f1.bin'"]
  /\ Spec.mentions "Error copying: [Errno 21] Is a directory: '/T/VID_001/f1.bin'"
       source = false
  /\ copied_file_count s' = 0.
Proof. vm_compute. repeat split. Qed.

(** When [dest] is not a directory, [shutil.copy] takes it for the name of
    the copy. *)
Example copy_to_a_file_name :
  copy Examples.prepared "/A/VID_001/f1.bin" "/T/renamed.bin" false
  = Ok (<[ ["T"; "renamed.bin"] := File "0123456789" ]> Examples.prepared).
Proof. vm_compute. reflexivity. Qed.

(** ** The session thread in [stop] *)

Section Stop.

Lemma step_main (c : call) (rest : list call) (s : state) :
  main s = c :: rest -> step Main s = main_step c rest s.
Proof. intros H. unfold step. by rewrite H. Qed.

(** The sentinels go to the back of the queue, one per step. *)
Lemma run_puts (l : list wpc) (rest : list call) (s : state) :
  main s = map (fun _ => CPut sentinel) l ++ rest ->
  run (replicate (length l) Main) s
  = set_main rest
      (set_unfinished (unfinished_tasks s + length l)
         (set_queue (_file_queue s ++ replicate (length l) sentinel) s)).
Proof.
  revert s. induction l as [| pc l IH]; intros s Hmain.
  - destruct s. cbn in *. subst. fields. f_equal; [by rewrite app_nil_r | lia].
  - cbn [length replicate]. rewrite run_cons.
    rewrite (step_main (CPut sentinel) (map (fun _ => CPut sentinel) l ++ rest))
      by exact Hmain.
    cbn [main_step sentinel default from_option]. unfold id.
    rewrite IH by reflexivity. destruct s. fields.
    f_equal; [by rewrite <- app_assoc | lia].
Qed.

(** A join with a timeout never holds the session thread back. *)
Lemma run_joins (l : list nat) (t : Z) (rest : list call) (s : state) :
  main s = map (fun i => CJoin i (Some t)) l ++ rest ->
  run (replicate (length l) Main) s = set_main rest s.
Proof.
  revert s. induction l as [| i l IH]; intros s Hmain.
  - destruct s. cbn in *. by subst.
  - cbn [length replicate]. rewrite run_cons.
    rewrite (step_main (CJoin i (Some t)) (map (fun i => CJoin i (Some t)) l ++ rest))
      by exact Hmain.
    cbn [main_step default from_option]. unfold id.
    rewrite IH by reflexivity. by destruct s.
Qed.

End Stop.

(** C4.  The session thread stands at the entry of [stop], with [n] worker
    threads started.
    - Its first step sets [_stopping]; what it then has to do is [n] puts of
      [(None, None)] followed by one [join] with timeout 2 for each of the
      threads [0 .. n-1], and then the rest of its program.
    - After [n] more steps the queue has grown by exactly [n] sentinels.
    - After [n] more steps all the joins are behind it, whatever the workers
      do or do not do: no join waits longer than its timeout.  None of these
      steps touches [copied_file_count] or a worker.
    - A worker that takes a sentinel from the queue returns at once and
      leaves [copied_file_count] alone. *)
Theorem C4_stop_sentinels_and_joins (s : state) (rest : list call) :
  main s = CStop :: rest ->
  let n := length (_threads s) in
  let s1 := run [Main] s in
  let s2 := run (replicate n Main) s1 in
  let s3 := run (replicate n Main) s2 in
  (_stopping s1 = true
   /\ main s1 = replicate n (CPut sentinel)
                ++ map (fun i => CJoin i (Some 2%Z)) (seq 0 n) ++ rest)
  /\ (_file_queue s2 = _file_queue s ++ replicate n sentinel
      /\ unfinished_tasks s2 = unfinished_tasks s + n
      /\ main s2 = map (fun i => CJoin i (Some 2%Z)) (seq 0 n) ++ rest)
  /\ (main s3 = rest /\ _stopping s3 = true
      /\ _threads s3 = _threads s
      /\ copied_file_count s3 = copied_file_count s)
  /\ (forall (s' : state) (i : nat) (q : list task),
        _threads s' !! i = Some WGet ->
        _file_queue s' = sentinel :: q ->
        let s'' := run [Worker i; Worker i; Worker i] s' in
        _threads s'' = <[i := WExited]> (_threads s')
        /\ step (Worker i) s'' = None
        /\ copied_file_count s'' = copied_file_count s').
Proof.
  intros Hmain n s1 s2 s3.
  assert (E1 : s1 = set_main (stop_calls (_threads s) ++ rest) (set_stopping true s)).
  { subst s1. rewrite run_cons, (step_main CStop rest) by exact Hmain. done. }
  assert (Hprog : main s1 = map (fun _ => CPut sentinel) (_threads s)
                            ++ map (fun i => CJoin i (Some 2%Z)) (seq 0 n) ++ rest).
  { rewrite E1. cbn. unfold stop_calls, join_timeout. by rewrite <- app_assoc. }
  assert (E2 : s2 = set_main (map (fun i => CJoin i (Some 2%Z)) (seq 0 n) ++ rest)
                      (set_unfinished (unfinished_tasks s + n)
                         (set_queue (_file_queue s ++ replicate n sentinel) s1))).
  { subst s2 n. rewrite (run_puts _ _ _ Hprog). by rewrite E1. }
  assert (E3 : s3 = set_main rest s2).
  { subst s3.
    replace (replicate n Main) with (replicate (length (seq 0 n)) Main)
      by (by rewrite length_seq).
    apply (run_joins _ 2%Z). by rewrite E2. }
  split; [| split; [| split] ].
  - split; [by rewrite E1 |]. rewrite Hprog. f_equal.
    subst n. clear. induction (_threads s); cbn; congruence.
  - by rewrite E2.
  - rewrite E3, E2, E1. done.
  - intros s' i q Hpc Hq s''.
    destruct (empty_field_states i s' None None q Hpc Hq (or_introl eq_refl))
      as (_ & _ & Eexit).
    subst s''. rewrite Eexit. repeat split; try reflexivity.
    rewrite (step_worker i WExited); [done |].
    apply (lookup_set_pc i WGet). exact Hpc.
Qed.

Lemma C4_stop_sentinels_and_joins_witness :
  let s := set_main [CStop; CDone]
             (set_threads [WGet; WGet] (__init__ Examples.cards [])) in
  let s1 := run [Main] s in
  let s2 := run [Main; Main] s1 in
  main s1 = [CPut sentinel; CPut sentinel;
             CJoin 0 (Some 2%Z); CJoin 1 (Some 2%Z); CDone]
  /\ _file_queue s2 = [sentinel; sentinel].
Proof.
  intros s s1 s2.
  destruct (C4_stop_sentinels_and_joins s [CDone] eq_refl)
    as ((_ & Hprog) & (Hq & _) & _).
  split; [exact Hprog | exact Hq].
Defined.

(** ** The planner, file by file *)

Section PlanFile.






End PlanFile.

(** Runs the monadic code of the planner on a given state. *)
Ltac run_M :=
  cbv beta iota zeta delta
    [plan_file try_except mbind mret M_bind M_ret ask query modify perform
     Exception].




(** ** The planner: the set of folders *)

Section Folders.

Implicit Types (l acc folders : list string) (x y d : string).

Lemma filter_filter_and {A} (f g : A -> bool) (l : list A) :
  List.filter f (List.filter g l) = List.filter (fun a => g a && f a) l.
Proof.
  induction l as [| a l IH]; [done |]. cbn.
  destruct (g a); cbn; [destruct (f a) |]; by rewrite IH.
Qed.

Lemma filter_ext_in {A} (f g : A -> bool) (l : list A) :
  (forall a, f a = g a) -> List.filter f l = List.filter g l.
Proof. intros H. induction l as [| a l IH]; [done |]. cbn. by rewrite H, IH. Qed.

Lemma eqb_neq_iff x y : negb (String.eqb y x) = true <-> y <> x.
Proof. rewrite negb_true_iff. apply String.eqb_neq. Qed.

(** The loop of lines 90-92 appends to [acc] the names not yet in it, each
    at its first occurrence. *)
Lemma foldl_add_folder l acc :
  foldl add_folder acc l = acc ++ List.filter (Spec.fresh acc) (Spec.first_seen l).
Proof.
  revert acc. induction l as [| x l IH]; intros acc.
  - cbn. by rewrite app_nil_r.
  - cbn [foldl Spec.first_seen List.filter]. rewrite IH. unfold add_folder, Spec.fresh.
    destruct (decide (x ∈ acc)) as [Hin | Hnin].
    + rewrite (bool_decide_eq_true_2 _ Hin). cbn [negb]. f_equal.
      rewrite filter_filter_and. apply filter_ext_in. intros a.
      destruct (String.eqb_spec a x) as [-> | Hne]; cbn; [| done].
      by rewrite (bool_decide_eq_true_2 _ Hin).
    + rewrite (bool_decide_eq_false_2 _ Hnin). cbn [negb].
      rewrite <- app_assoc. cbn [app]. do 2 f_equal.
      rewrite filter_filter_and. apply filter_ext_in. intros a.
      destruct (String.eqb_spec a x) as [-> | Hne]; cbn.
      * apply negb_false_iff, bool_decide_eq_true_2.
        rewrite elem_of_app, list_elem_of_singleton. by right.
      * f_equal. apply bool_decide_ext.
        rewrite elem_of_app, list_elem_of_singleton. tauto.
  Qed.

Lemma foldl_add_folder_nil l : foldl add_folder [] l = Spec.first_seen l.
Proof.
  rewrite foldl_add_folder. cbn [app].
  rewrite (filter_ext_in _ (fun _ => true)) by done.
  induction (Spec.first_seen l) as [| a r IH]; [done |]. cbn. by rewrite IH.
Qed.

Lemma elem_of_filter_bool (f : string -> bool) l y :
  y ∈ List.filter f l <-> y ∈ l /\ f y = true.
Proof. rewrite !list_elem_of_In. apply List.filter_In. Qed.

Lemma elem_of_first_seen l y : y ∈ Spec.first_seen l <-> y ∈ l.
Proof.
  induction l as [| x l IH]; [done |]. cbn [Spec.first_seen].
  rewrite !elem_of_cons, elem_of_filter_bool, IH, eqb_neq_iff.
  destruct (decide (y = x)); tauto.
Qed.

Lemma NoDup_filter_bool (f : string -> bool) l : NoDup l -> NoDup (List.filter f l).
Proof.
  induction 1 as [| x l Hx Hl IH]; cbn; [constructor |].
  destruct (f x); [| done]. constructor; [| done].
  rewrite elem_of_filter_bool. tauto.
Qed.

Lemma NoDup_first_seen l : NoDup (Spec.first_seen l).
Proof.
  induction l as [| x l IH]; cbn [Spec.first_seen]; constructor.
  - rewrite elem_of_filter_bool, eqb_neq_iff. tauto.
  - by apply NoDup_filter_bool.
Qed.

Variable get_subdirs : filesystem -> string -> string -> res (list string).

Lemma collect_inner (w : filesystem) (s : string) (prefixes : list string) acc folders :
  foldlM (fun folders p =>
            subdirs ← get_subdirs w s p; Ok (foldl add_folder folders subdirs))
    acc prefixes = Ok folders ->
  folders = foldl add_folder acc
              (concat (map (fun p => match get_subdirs w s p with
                                     | Ok names => names
                                     | Raise _ => []
                                     end) prefixes)).
Proof.
  revert acc. induction prefixes as [| p ps IH]; intros acc; cbn.
  - by intros [= <-].
  - destruct (get_subdirs w s p) as [names | e]; cbn; [| done].
    intros H%IH. by rewrite foldl_app.
Qed.

Lemma collect_outer (w : filesystem) (sources prefixes : list string) acc folders :
  foldlM (fun folders s =>
            foldlM (fun folders p =>
                      subdirs ← get_subdirs w s p;
                      Ok (foldl add_folder folders subdirs))
              folders prefixes)
    acc sources = Ok folders ->
  folders = foldl add_folder acc (Spec.visited get_subdirs w sources prefixes).
Proof.
  unfold Spec.visited. revert acc.
  induction sources as [| s ss IH]; intros acc; cbn.
  - by intros [= <-].
  - destruct (foldlM _ acc prefixes) as [acc' | e] eqn:E; cbn; [| done].
    apply collect_inner in E. intros H%IH. by rewrite foldl_app, <- E.
Qed.

(** *** Creating the target folders *)

Lemma create_target_folder_unfold (target f : string) (s : state) :
  create_target_folder target f s
  = if exists_ (fs s) (target_folder target f) then (Ok tt, s)
    else match mkdir (fs s) (target_folder target f) with
         | Ok w => (Ok tt, set_fs w s)
         | Raise e => if is_FileExistsError e then (Ok tt, s) else (Raise e, s)
         end.
Proof.
  unfold create_target_folder, try_except, mbind, M_bind, ask, perform, mret, M_ret.
  destruct (exists_ (fs s) (target_folder target f)); [done |].
  by destruct (mkdir (fs s) (target_folder target f)).
Qed.

Lemma exists_present (w : filesystem) (p : string) :
  exists_ w p = true -> lookup_key w (components p) <> None.
Proof.
  unfold exists_, stat, resolve. change max_links with (S 39). cbn [follow].
  by destruct (lookup_key w (components p)).
Qed.

(** Something is at [p] already: the turn of the loop changes nothing and
    raises nothing. *)
Lemma create_target_folder_present (target f : string) (s : state) :
  lookup_key (fs s) (components (target_folder target f)) <> None ->
  create_target_folder target f s = (Ok tt, s).
Proof.
  intros H. rewrite create_target_folder_unfold.
  destruct (exists_ _ _); [done |]. unfold mkdir, create.
  by destruct (lookup_key (fs s) (components (target_folder target f))).
Qed.

Lemma create_target_folder_Ok (target f : string) (s s' : state) :
  create_target_folder target f s = (Ok tt, s') ->
  lookup_key (fs s') (components (target_folder target f)) <> None
  /\ (forall k, lookup_key (fs s) k <> None -> lookup_key (fs s') k <> None).
Proof.
  rewrite create_target_folder_unfold.
  destruct (exists_ (fs s) (target_folder target f)) eqn:Hex.
  - intros [= <-]. split; [by apply exists_present | done].
  - unfold mkdir.
    destruct (create _ _ _ _ _) as [w | e] eqn:Hmk.
    + intros [= <-]. apply create_Ok in Hmk as [Hnone ->]. cbn [fs set_fs].
      split.
      * rewrite lookup_key_insert_eq; [done |]. by eapply lookup_key_None.
      * intros k Hk. rewrite lookup_key_insert_ne; [done |]. congruence.
    + destruct (is_FileExistsError e) eqn:He; [| done]. intros [= <-].
      split; [| done]. unfold create in Hmk.
      destruct (lookup_key (fs s) (components (target_folder target f))); [done |].
      destruct (lookup_key (fs s) (parent _)) as [[] |]; try done;
        injection Hmk as <-; done.
Qed.

Lemma create_target_folder_Raise (target f : string) (s s' : state) (e : exn) :
  create_target_folder target f s = (Raise e, s') -> is_FileExistsError e = false.
Proof.
  rewrite create_target_folder_unfold.
  destruct (exists_ _ _); [done |].
  destruct (mkdir _ _) as [w | e']; [done |].
  destruct (is_FileExistsError e') eqn:He; [done |]. by intros [= <- _].
Qed.

Lemma create_loop_present (target : string) (folders : list string) (s s' : state) :
  for_ folders (create_target_folder target) s = (Ok tt, s') ->
  Forall (fun f => lookup_key (fs s') (components (target_folder target f)) <> None)
    folders
  /\ (forall k, lookup_key (fs s) k <> None -> lookup_key (fs s') k <> None).
Proof.
  revert s. induction folders as [| f fl IH]; intros s; cbn [for_].
  - intros [= <-]. by split.
  - unfold mbind, M_bind.
    destruct (create_target_folder target f s) as [[[] | e] s1] eqn:E1; [| done].
    intros H. apply IH in H as [Hall Hmono].
    apply create_target_folder_Ok in E1 as [Hf Hmono1].
    split; [constructor; auto | auto].
Qed.

Lemma create_loop_noop (target : string) (folders : list string) (s : state) :
  Forall (fun f => lookup_key (fs s) (components (target_folder target f)) <> None)
    folders ->
  for_ folders (create_target_folder target) s = (Ok tt, s).
Proof.
  induction 1 as [| f fl Hf Hfl IH]; cbn [for_]; [done |].
  unfold mbind, M_bind. by rewrite create_target_folder_present.
Qed.

End Folders.

(** C8.  When the collection loop of lines 86-92 returns [folders]:
    - [folders] is the list of the names returned by [get_subdirs] over all
      sources and all prefixes, in the order they are met, each kept at its
      first occurrence: the names themselves, as returned, are what is
      compared and kept;
    - no name occurs twice in it, and it holds exactly the names met; the
      loop of lines 95-101 therefore takes each target folder once;
    - a turn of that loop for a folder that exists changes nothing and
      raises nothing; no turn ever lets a [FileExistsError] through;
    - running the whole loop again on the world it produced changes
      nothing. *)
Theorem C8_folders_first_seen_created_once
    (get_subdirs : filesystem -> string -> string -> res (list string))
    (w : filesystem) (sources prefixes folders : list string) (target : string) :
  collect_folders get_subdirs w sources prefixes = Ok folders ->
  folders = Spec.first_seen (Spec.visited get_subdirs w sources prefixes)
  /\ NoDup folders
  /\ (forall d, d ∈ folders <-> d ∈ Spec.visited get_subdirs w sources prefixes)
  /\ (forall s f, exists_ (fs s) (target_folder target f) = true ->
                  create_target_folder target f s = (Ok tt, s))
  /\ (forall s f e s', create_target_folder target f s = (Raise e, s') ->
                       is_FileExistsError e = false)
  /\ (forall s s', for_ folders (create_target_folder target) s = (Ok tt, s') ->
                   for_ folders (create_target_folder target) s' = (Ok tt, s')).
Proof.
  intros Hcollect. unfold collect_folders in Hcollect.
  apply collect_outer in Hcollect. rewrite foldl_add_folder_nil in Hcollect.
  subst folders. split; [done |]. split; [apply NoDup_first_seen |].
  split; [intros d; apply elem_of_first_seen |]. split; [| split].
  - intros s f Hex. apply create_target_folder_present.
    by apply exists_present.
  - intros s f e s'. apply create_target_folder_Raise.
  - intros s s' Hrun. apply create_loop_noop.
    by apply create_loop_present in Hrun as [Hall _].
Qed.

(** The listing of the specification returns names of entries of the root
    that are directories and start with the prefix. *)
Lemma get_subdirs_names (w : filesystem) (root prefix : string) (names : list string) :
  Helpers.get_subdirs w root prefix = Ok names ->
  forall n, n ∈ names ->
    startswith n prefix = true /\ isdir w (join root n) = true.
Proof.
  unfold Helpers.get_subdirs. destruct (listdir w root) as [l | e].
  - intros [= <-] n Hn. apply list_elem_of_In, List.filter_In in Hn as [_ Hn].
    apply andb_prop in Hn. tauto.
  - intros [= <-] n Hn. by apply elem_of_nil in Hn.
Qed.

Lemma C8_folders_first_seen_created_once_witness :
  ["VID_001"]
  = Spec.first_seen (Spec.visited Helpers.get_subdirs Examples.cards ["/A"; "/B"] prefixes)
  /\ NoDup ["VID_001"].
Proof.
  assert (H : collect_folders Helpers.get_subdirs Examples.cards ["/A"; "/B"] prefixes
              = Ok ["VID_001"]) by (vm_compute; reflexivity).
  destruct (C8_folders_first_seen_created_once Helpers.get_subdirs Examples.cards
              ["/A"; "/B"] prefixes ["VID_001"] "/T" H) as (Hfirst & Hnodup & _).
  split; [exact Hfirst | exact Hnodup].
Defined.

(** ** The invariant of a session *)

Section Sums.

Context {A : Type} (f : A -> nat).

Lemma sum_insert (l : list A) (i : nat) (x y : A) :
  l !! i = Some x ->
  sum_list_with f (<[i := y]> l) + f x = sum_list_with f l + f y.
Proof.
  intros H. rewrite <- (take_drop_middle l i x H) at 2.
  rewrite insert_take_drop by (by eapply lookup_lt_Some).
  rewrite !sum_list_with_app. cbn. lia.
Qed.

Lemma sum_lookup (l : list A) (i : nat) (x : A) :
  l !! i = Some x -> f x <= sum_list_with f l.
Proof.
  intros H. rewrite <- (take_drop_middle l i x H), sum_list_with_app. cbn. lia.
Qed.

End Sums.

Section Preservation.

Lemma reals_cons (t : task) (q : list task) :
  reals (t :: q) = (if real t then 1 else 0) + reals q.
Proof. reflexivity. Qed.

Lemma reals_snoc (t : task) (q : list task) :
  reals (q ++ [t]) = reals q + (if real t then 1 else 0).
Proof. unfold reals. rewrite sum_list_with_app. cbn. lia. Qed.

Lemma errors_snoc (l : logline) (lg : list logline) :
  errors (lg ++ [l]) = errors lg + (if is_error l then 1 else 0).
Proof. unfold errors. rewrite sum_list_with_app. cbn. lia. Qed.

Lemma lookup_insert_cases (th : list wpc) (i j : nat) (pc pc' : wpc) :
  <[i := pc]> th !! j = Some pc' ->
  (j = i /\ pc' = pc) \/ (j <> i /\ th !! j = Some pc').
Proof.
  intros H. destruct (decide (j = i)) as [-> | Hne].
  - left. split; [done |].
    assert (i < length th).
    { apply lookup_lt_Some in H. by rewrite length_insert in H. }
    rewrite list_lookup_insert_eq in H by done. congruence.
  - right. by rewrite list_lookup_insert_ne in H.
Qed.

Lemma real_cond (source dest : field) :
  real (source, dest) = truthy source && truthy dest.
Proof. reflexivity. Qed.

(** The lookups of the thread list after worker [i] has moved. *)
Ltac other_thread H :=
  apply lookup_insert_cases in H as [[-> H] | [? H] ]; [try subst |].

(** Every step of a worker keeps the invariant. *)
Lemma worker_step_invariant (K E0 i : nat) (pc : wpc) (s s' : state) :
  invariant K E0 s ->
  _threads s !! i = Some pc ->
  worker_step i pc s = Some s' ->
  invariant K E0 s'.
Proof.
  intros [I1 I2 I3 I4 I5 I6] Hpc Hstep.
  destruct s as [st qu un to co lo th ma w lg].
  cbn [_stopping _file_queue unfinished_tasks total_file_count copied_file_count
       lock _threads main fs log] in *.
  unfold total_of in *.
  pose proof (fun pc' => sum_insert holding th i pc pc' Hpc) as Hh.
  pose proof (fun pc' => sum_insert pending th i pc pc' Hpc) as Hp.
  pose proof (sum_lookup pending th i pc Hpc) as Hle.
  pose proof (sum_lookup holding th i pc Hpc) as Hhle.
  pose proof (I4 i pc Hpc) as Hcs.
  destruct pc as [| [source dest] | source dest | source dest | | | v | | e | again |];
    cbn [worker_step _stopping _file_queue unfinished_tasks copied_file_count
         lock fs] in Hstep.
  - (* WGet *)
    destruct qu as [| t q]; [done |]. injection Hstep as <-.
    specialize (Hh (WCheck t)). specialize (Hp (WCheck t)).
    rewrite reals_cons in *. cbn [holding pending length] in *.
    split; fields; unfold total_of; try lia.
    + intros j pc' Hj Hin. other_thread Hj; [done | eauto].
    + intros j v Hj. other_thread Hj; [done | eauto].
    + destruct I6 as [? | (? & ? & ?)]; [by left | right].
      split; [done |]. destruct (real t); lia.
  - (* WCheck *)
    rewrite <- real_cond in Hstep. cbn [holding pending] in *.
    destruct (real (source, dest)) eqn:Hreal, st; cbn [andb negb] in Hstep;
      injection Hstep as <-.
    + specialize (Hh (WTaskDone false)). specialize (Hp (WTaskDone false)).
      cbn [holding pending] in *.
      destruct I6 as [[_ ?] | (_ & _ & ?)]; [done | lia].
    + generalize (default "" source) (default "" dest). intros a b.
      specialize (Hh (WLog a b)). specialize (Hp (WLog a b)).
      cbn [holding pending] in *.
      split; fields; unfold total_of; try lia.
      * intros j pc' Hj Hin. other_thread Hj; [done | eauto].
      * intros j v Hj. other_thread Hj; [done | eauto].
      * destruct I6 as [? | (? & ? & ?)]; [by left | lia].
    + specialize (Hh (WTaskDone false)). specialize (Hp (WTaskDone false)).
      cbn [holding pending] in *.
      split; fields; unfold total_of; try lia.
      * intros j pc' Hj Hin. other_thread Hj; [done | eauto].
      * intros j v Hj. other_thread Hj; [done | eauto].
      * destruct I6 as [? | (? & ? & ?)]; [by left | right]. repeat split; [done | done | lia].
    + specialize (Hh (WTaskDone false)). specialize (Hp (WTaskDone false)).
      cbn [holding pending] in *.
      split; fields; unfold total_of; try lia.
      * intros j pc' Hj Hin. other_thread Hj; [done | eauto].
      * intros j v Hj. other_thread Hj; [done | eauto].
      * destruct I6 as [? | (? & ? & ?)]; [by left | right]. repeat split; [done | done | lia].
  - (* WLog *)
    injection Hstep as <-.
    specialize (Hh (WCopy source dest)). specialize (Hp (WCopy source dest)).
    cbn [holding pending] in *.
    split; fields; unfold total_of; rewrite ?errors_snoc; cbn [is_error]; try lia.
    + intros j pc' Hj Hin. other_thread Hj; [done | eauto].
    + intros j v Hj. other_thread Hj; [done | eauto].
    + destruct I6 as [? | (? & ? & ?)]; [by left | lia].
  - (* WCopy *)
    destruct (copy w source dest false) as [w' | e]; injection Hstep as <-.
    + specialize (Hh WAcquire). specialize (Hp WAcquire).
      cbn [holding pending] in *.
      split; fields; unfold total_of; try lia.
      * intros j pc' Hj Hin. other_thread Hj; [done | eauto].
      * intros j v Hj. other_thread Hj; [done | eauto].
      * destruct I6 as [? | (? & ? & ?)]; [by left | lia].
    + specialize (Hh (WExcept e)). specialize (Hp (WExcept e)).
      cbn [holding pending] in *.
      split; fields; unfold total_of; try lia.
      * intros j pc' Hj Hin. other_thread Hj; [done | eauto].
      * intros j v Hj. other_thread Hj; [done | eauto].
      * destruct I6 as [? | (? & ? & ?)]; [by left | lia].
  - (* WAcquire *)
    destruct lo as [holder |]; [done |]. injection Hstep as <-.
    specialize (Hh WLoad). specialize (Hp WLoad). cbn [holding pending] in *.
    split; fields; unfold total_of; try lia.
    + intros j pc' Hj Hin. other_thread Hj; [done |].
      by specialize (I4 _ _ Hj Hin).
    + intros j v Hj. other_thread Hj; [done | eauto].
    + destruct I6 as [? | (? & ? & ?)]; [by left | lia].
  - (* WLoad *)
    injection Hstep as <-.
    specialize (Hh (WStore co)). specialize (Hp (WStore co)).
    cbn [holding pending] in *.
    split; fields; unfold total_of; try lia.
    + intros j pc' Hj Hin. other_thread Hj; [by apply Hcs | eauto].
    + intros j v Hj. other_thread Hj; [congruence | eauto].
    + destruct I6 as [? | (? & ? & ?)]; [by left | lia].
  - (* WStore *)
    injection Hstep as <-.
    specialize (Hh WRelease). specialize (Hp WRelease).
    pose proof (I5 i v Hpc) as ->. cbn [holding pending] in *.
    split; fields; unfold total_of; try lia.
    + intros j pc' Hj Hin. other_thread Hj; [by apply Hcs | eauto].
    + intros j v Hj. other_thread Hj; [done |].
      pose proof (I4 _ _ Hj eq_refl) as Hlj. specialize (Hcs eq_refl). congruence.
    + destruct I6 as [? | (? & ? & ?)]; [by left | lia].
  - (* WRelease *)
    injection Hstep as <-.
    specialize (Hh (WTaskDone true)). specialize (Hp (WTaskDone true)).
    cbn [holding pending] in *.
    split; fields; unfold total_of; try lia.
    + intros j pc' Hj Hin. other_thread Hj; [done |].
      pose proof (I4 _ _ Hj Hin) as Hlj. specialize (Hcs eq_refl). congruence.
    + intros j v Hj. other_thread Hj; [done | eauto].
    + destruct I6 as [? | (? & ? & ?)]; [by left | right].
      repeat split; [done | done | lia].
  - (* WExcept *)
    injection Hstep as <-.
    specialize (Hh (WTaskDone true)). specialize (Hp (WTaskDone true)).
    cbn [holding pending] in *.
    split; fields; unfold total_of; rewrite ?errors_snoc; cbn [is_error]; try lia.
    + intros j pc' Hj Hin. other_thread Hj; [done | eauto].
    + intros j v Hj. other_thread Hj; [done | eauto].
    + destruct I6 as [? | (? & ? & ?)]; [by left | lia].
  - (* WTaskDone *)
    cbn [holding pending] in *.
    destruct un as [| n]; [lia |]. injection Hstep as <-.
    specialize (Hh (if again then WGet else WExited)).
    specialize (Hp (if again then WGet else WExited)).
    assert (holding (if again then WGet else WExited) = 0) as Hh0 by (by destruct again).
    assert (pending (if again then WGet else WExited) = 0) as Hp0 by (by destruct again).
    split; fields; unfold total_of; try lia.
    + intros j pc' Hj Hin. other_thread Hj; [by destruct again | eauto].
    + intros j v Hj. other_thread Hj; [by destruct again | eauto].
    + destruct I6 as [? | (? & ? & ?)]; [by left | right].
      repeat split; [done | done | lia].
  - (* WExited *)
    done.
Qed.

Lemma pending_le_holding (th : list wpc) :
  sum_list_with pending th <= sum_list_with holding th.
Proof.
  induction th as [| pc th IH]; [done |]. cbn [sum_list_with].
  assert (pending pc <= holding pc); [| lia].
  destruct pc as [| t | | | | | | | | |]; cbn; try lia. destruct (real t); lia.
Qed.

Lemma stop_calls_after_wait (th : list wpc) :
  forallb after_wait (stop_calls th) = true.
Proof.
  unfold stop_calls. rewrite forallb_app. apply andb_true_intro. split.
  - by induction th.
  - by induction (seq 0 (length th)).
Qed.

Lemma lookup_snoc_cases (th : list wpc) (j : nat) (pc pc' : wpc) :
  (th ++ [pc]) !! j = Some pc' -> pc' = pc \/ th !! j = Some pc'.
Proof.
  intros H. apply lookup_app_Some in H as [H | [_ H] ]; [by right |].
  left. apply list_lookup_singleton_Some in H as [_ H]. done.
Qed.

(** Every step of the session thread keeps the invariant. *)
Lemma main_step_invariant (K E0 : nat) (c : call) (rest : list call) (s s' : state) :
  invariant K E0 s ->
  main s = c :: rest ->
  main_step c rest s = Some s' ->
  invariant K E0 s'.
Proof.
  intros [I1 I2 I3 I4 I5 I6] Hmain Hstep.
  destruct s as [st qu un to co lo th ma w lg].
  cbn [_stopping _file_queue unfinished_tasks total_file_count copied_file_count
       lock _threads main fs log] in *.
  unfold total_of in *. subst ma.
  pose proof (pending_le_holding th) as Hph.
  destruct c as [| | | [source dest] | j [t |] | t0 t1 | |];
    cbn [main_step _stopping _file_queue unfinished_tasks copied_file_count
         total_file_count lock fs _threads] in Hstep;
    cbn [before_drain forallb after_wait andb] in I6.
  - (* CSpawn *)
    destruct I6 as [[Hbd ->] | (? & _)]; [| done]. injection Hstep as <-.
    split; fields; unfold total_of; rewrite ?sum_list_with_app; cbn; try lia.
    + intros j pc Hj Hin. apply lookup_snoc_cases in Hj as [-> | Hj]; [done | eauto].
    + intros j v Hj. apply lookup_snoc_cases in Hj as [? | Hj]; [done | eauto].
    + by left.
  - (* CWait *)
    destruct I6 as [[Hbd ->] | (? & _)]; [| done].
    destruct un as [| n]; [| done]. injection Hstep as <-.
    assert (qu = []) as -> by (destruct qu; [done | cbn in I1; lia]).
    split; fields; unfold total_of; try done.
    right. repeat split; [done | lia].
  - (* CStop *)
    destruct I6 as [[? _] | (Hrest & ? & ?)]; [done |]. injection Hstep as <-.
    split; fields; unfold total_of; try done.
    right. rewrite forallb_app, stop_calls_after_wait. done.
  - (* CPut *)
    destruct I6 as [[? _] | (Hrest & ? & ?)]; [done |]. injection Hstep as <-.
    apply andb_prop in Hrest as [Hreal Hrest]. apply negb_true_iff in Hreal.
    split; fields; unfold total_of; rewrite ?reals_snoc, ?length_app, ?Hreal;
      cbn [length]; try done; try lia.
    right. repeat split; [done | lia | done].
  - (* CJoin with a timeout *)
    destruct I6 as [[? _] | (Hrest & ? & ?)]; [done |]. injection Hstep as <-.
    split; fields; unfold total_of; try done. by right.
  - (* CJoin without *)
    destruct I6 as [[? _] | (Hrest & ? & ?)]; [done |].
    destruct (th !! j) as [[] |]; try done. injection Hstep as <-.
    split; fields; unfold total_of; try done. by right.
  - (* CReport *)
    destruct I6 as [[? _] | (Hrest & ? & ?)]; [done |]. injection Hstep as <-.
    split; fields; unfold total_of; rewrite ?errors_snoc; cbn [is_error];
      try done; try lia.
    by right.
  - (* CNothing *)
    destruct I6 as [[? _] | (Hrest & ? & ?)]; [done |]. injection Hstep as <-.
    split; fields; unfold total_of; rewrite ?errors_snoc; cbn [is_error];
      try done; try lia.
    by right.
  - (* CDone *)
    destruct I6 as [[? _] | (Hrest & ? & ?)]; [done |]. injection Hstep as <-.
    split; fields; unfold total_of; try done. by right.
Qed.

Lemma step_invariant (K E0 : nat) (t : tid) (s s' : state) :
  invariant K E0 s -> step t s = Some s' -> invariant K E0 s'.
Proof.
  intros Hinv Hstep. destruct t as [| i]; cbn [step] in Hstep.
  - destruct (main s) as [| c rest] eqn:Hmain; [done |].
    by eapply main_step_invariant.
  - destruct (_threads s !! i) as [pc |] eqn:Hpc; [| done].
    by eapply worker_step_invariant.
Qed.

(** The invariant holds along every interleaving. *)
Lemma run_invariant (K E0 : nat) (sched : list tid) (s : state) :
  invariant K E0 s -> invariant K E0 (run sched s).
Proof.
  revert s. induction sched as [| t sched IH]; intros s Hinv; [done |].
  rewrite run_cons. apply IH.
  destruct (step t s) as [s' |] eqn:Hstep; [| done].
  by eapply step_invariant.
Qed.

(** No step touches [total_file_count]. *)
Lemma step_total (t : tid) (s s' : state) :
  step t s = Some s' -> total_file_count s' = total_file_count s.
Proof.
  destruct s as [st qu un to co lo th ma w lg]. destruct t as [| i]; cbn [step main _threads].
  - destruct ma as [| c rest]; [done |].
    destruct c as [| | | [source dest] | j [t |] | t0 t1 | |]; cbn;
      repeat case_match; try done; by intros [= <-].
  - destruct (th !! i) as [pc |]; [| done].
    destruct pc as [| [source dest] | | | | | | | | |]; cbn;
      repeat case_match; try done; by intros [= <-].
Qed.

Lemma run_total (sched : list tid) (s : state) :
  total_file_count (run sched s) = total_file_count s.
Proof.
  revert s. induction sched as [| t sched IH]; intros s; [done |].
  rewrite run_cons, IH. destruct (step t s) as [s' |] eqn:Hstep; [| done].
  by apply step_total in Hstep.
Qed.

End Preservation.

(** ** The state a session starts from *)

Section Keeps.

Context (P : state -> Prop).

Lemma keeps_ret {A} (a : A) : keeps P (mret a).
Proof. intros s r s' HP [= _ <-]. done. Qed.

Lemma keeps_bind {A B} (m : M A) (k : A -> M B) :
  keeps P m -> (forall a, keeps P (k a)) -> keeps P (m ≫= k).
Proof.
  intros Hm Hk s r s' HP. unfold mbind, M_bind.
  destruct (m s) as [[a | e] s1] eqn:E.
  - apply Hk. by eapply Hm.
  - intros [= _ <-]. by eapply Hm.
Qed.

Lemma keeps_try {A} (m : M A) (handles : exn -> bool) (h : exn -> M A) :
  keeps P m -> (forall e, keeps P (h e)) -> keeps P (try_except m handles h).
Proof.
  intros Hm Hh s r s' HP. unfold try_except.
  destruct (m s) as [[a | e] s1] eqn:E.
  - intros [= _ <-]. by eapply Hm.
  - destruct (handles e).
    + apply Hh. by eapply Hm.
    + intros [= _ <-]. by eapply Hm.
Qed.

Lemma keeps_for {A} (l : list A) (body : A -> M unit) :
  (forall a, keeps P (body a)) -> keeps P (for_ l body).
Proof.
  intros Hb. induction l as [| a l IH]; cbn [for_].
  - apply keeps_ret.
  - apply keeps_bind; [apply Hb | intros _; apply IH].
Qed.

Lemma keeps_ask {A} (f : filesystem -> A) : keeps P (ask f).
Proof. intros s r s' HP [= _ <-]. done. Qed.

Lemma keeps_query {A} (f : filesystem -> res A) : keeps P (query f).
Proof. intros s r s' HP [= _ <-]. done. Qed.

Lemma keeps_modify (f : state -> state) :
  (forall s, P s -> P (f s)) -> keeps P (modify f).
Proof. intros Hf s r s' HP [= _ <-]. by apply Hf. Qed.

Lemma keeps_perform (f : filesystem -> res filesystem) :
  (forall s w, P s -> P (set_fs w s)) -> keeps P (perform f).
Proof.
  intros Hf s r s' HP. unfold perform.
  destruct (f (fs s)); intros [= _ <-]; [by apply Hf | done].
Qed.

End Keeps.

Section Planning.

Lemma nonempty_abspath (p : string) : nonempty (abspath p) = true.
Proof. unfold abspath. by destruct (components p). Qed.

Lemma nonempty_append_sep (p : string) : nonempty (p +:+ sep) = true.
Proof. by destruct p. Qed.

Lemma planning_set_fs (E0 : nat) (s : state) (w : filesystem) :
  planning E0 s -> planning E0 (set_fs w s).
Proof. intros []. by split. Qed.

Lemma planning_log (E0 : nat) (s : state) (l : logline) :
  is_error l = false -> planning E0 s -> planning E0 (log_ l s).
Proof.
  intros Hl []. split; try done. cbn. rewrite errors_snoc, Hl. lia.
Qed.

Lemma planning_put (E0 : nat) (s : state) (source dest : string) :
  nonempty source = true -> nonempty dest = true ->
  planning E0 s ->
  planning E0 (set_total (total_file_count s + 1) (put (Some source) (Some dest) s)).
Proof.
  intros Hs Hd [].
  split; cbn; rewrite ?length_app, ?reals_snoc; cbn; try done; try lia.
  unfold real. cbn. rewrite Hs, Hd. cbn. lia.
Qed.

Variable get_subdirs : filesystem -> string -> string -> res (list string).

(** The planner fills the queue and touches nothing else of the object. *)
Lemma init_planning (E0 : nat) (sources : list string) (target : string)
    (prefixes : list string) :
  keeps (planning E0) (init get_subdirs sources target prefixes).
Proof.
  assert (Hlog : forall l, is_error l = false ->
                           keeps (planning E0) (modify (log_ l))).
  { intros l Hl. apply keeps_modify. intros s. by apply planning_log. }
  assert (Hfs : forall s w, planning E0 s -> planning E0 (set_fs w s)).
  { intros s w. apply planning_set_fs. }
  unfold init.
  apply keeps_bind; [by apply Hlog | intros _].
  apply keeps_bind; [apply keeps_query | intros folders].
  apply keeps_bind; [by apply Hlog | intros _].
  apply keeps_bind.
  { apply keeps_for. intros f. unfold create_target_folder.
    apply keeps_try; [| intros _; apply keeps_ret].
    apply keeps_bind; [apply keeps_ask | intros [] ].
    - apply keeps_ret.
    - by apply keeps_perform. }
  intros _. apply keeps_bind; [by apply Hlog | intros _].
  apply keeps_bind.
  { apply keeps_for. intros f. apply keeps_for. intros s. unfold prepare_folder.
    apply keeps_try; [| intros e; by apply Hlog].
    apply keeps_bind.
    { unfold list_source_files. apply keeps_try.
      - apply keeps_bind; [apply keeps_query | intros names; apply keeps_ask].
      - intros _. apply keeps_bind; [by apply Hlog | intros _; apply keeps_ret]. }
    intros names. apply keeps_for. intros filename. unfold plan_file.
    apply keeps_try; [| intros e; by apply Hlog].
    apply keeps_bind; [apply keeps_ask | intros there].
    apply keeps_bind.
    { destruct there; [| apply keeps_ret].
      apply keeps_bind; [apply keeps_query | intros dsize].
      apply keeps_bind; [apply keeps_query | intros ssize].
      destruct (dsize =? ssize)%Z.
      - apply keeps_bind; [by apply Hlog | intros _; apply keeps_ret].
      - apply keeps_bind; [by apply Hlog | intros _].
        apply keeps_bind; [by apply keeps_perform | intros _; apply keeps_ret]. }
    intros [|]; [apply keeps_ret |].
    intros s0 r s1 HP. unfold mbind, M_bind, modify. intros [= _ <-].
    apply planning_put; [apply nonempty_abspath | apply nonempty_append_sep | done]. }
  intros _. apply keeps_modify. intros s. by apply planning_log.
Qed.

Lemma planning_init (w : filesystem) (l : list logline) :
  planning (errors l) (__init__ w l).
Proof. by split. Qed.

Lemma before_drain_start (n : nat) (rest : list call) :
  before_drain (start n ++ CWait :: rest) = forallb after_wait rest.
Proof. unfold start. by induction n. Qed.

(** From a planned queue the session thread goes on with [start] and
    [wait]. *)
Lemma planning_invariant (E0 n : nat) (rest : list call) (s : state) :
  planning E0 s ->
  forallb after_wait rest = true ->
  invariant (total_file_count s) E0 (set_main (start n ++ CWait :: rest) s).
Proof.
  intros [] Hrest. destruct s as [st qu un to co lo th ma w lg]. cbn in *. subst.
  split; cbn; try done; try lia.
  left. by rewrite before_drain_start.
Qed.

(** A planned queue that is empty leaves nothing to do. *)
Lemma planning_nothing (E0 : nat) (rest : list call) (s : state) :
  planning E0 s ->
  total_file_count s = 0 ->
  forallb after_wait rest = true ->
  invariant 0 E0 (set_main rest s).
Proof.
  intros [] Hzero Hrest. destruct s as [st qu un to co lo th ma w lg]. cbn in *. subst.
  split; cbn; try done; try lia.
  right. repeat split; [done | lia].
Qed.

Lemma puts_state (tasks : list task) (s : state) :
  foldl (fun s t => put (fst t) (snd t) s) s tasks
  = set_unfinished (unfinished_tasks s + length tasks)
      (set_queue (_file_queue s ++ tasks) s).
Proof.
  revert s. induction tasks as [| [source dest] tasks IH]; intros s; cbn [foldl].
  - destruct s. fields. cbn [length]. f_equal; [by rewrite app_nil_r | lia].
  - rewrite IH. destruct s. fields. cbn [length]. f_equal; [by rewrite <- app_assoc | lia].
Qed.

(** A pool that has been handed its tasks satisfies the invariant. *)
Lemma pool_invariant (tasks : list task) (n : nat) (rest : list call) (w : filesystem) :
  forallb after_wait rest = true ->
  invariant (reals tasks) 0 (pool tasks n rest w).
Proof.
  intros Hrest. unfold pool. rewrite puts_state.
  split; cbn; try done; try lia.
  left. by rewrite before_drain_start.
Qed.

(** Nothing moves when no thread has anything to do. *)
Lemma run_idle (sched : list tid) (s : state) :
  main s = [] -> _threads s = [] -> run sched s = s.
Proof.
  intros Hm Ht. induction sched as [| t sched IH]; [done |].
  rewrite run_cons. destruct t as [| i]; cbn [step]; rewrite ?Hm, ?Ht; cbn; done.
Qed.

End Planning.

(** ** [wait] returns *)

Section Liveness.

Lemma drained_not_before (p : list call) :
  before_drain p = true -> forallb after_wait p = false.
Proof. by destruct p as [| [] p]. Qed.

(** Once [wait] has returned it has returned. *)
Lemma drained_step (t : tid) (s s' : state) :
  drained s = true -> step t s = Some s' -> drained s' = true.
Proof.
  unfold drained. destruct s as [st qu un to co lo th ma w lg].
  destruct t as [| i]; cbn [step main _threads].
  - destruct ma as [| c rest]; [done |]. cbn [forallb].
    intros [Hc Hrest]%andb_prop.
    destruct c as [| | | [source dest] | j [t |] | t0 t1 | |];
      cbn [main_step after_wait] in Hc |- *;
      repeat case_match; try done; intros [= <-]; fields; try done.
    by rewrite forallb_app, stop_calls_after_wait.
  - intros Hd. destruct (th !! i) as [pc |]; [| done].
    destruct pc as [| [source dest] | | | | | | | | |]; cbn;
      repeat case_match; try done; by intros [= <-].
Qed.

Lemma drained_run (sched : list tid) (s : state) :
  drained s = true -> drained (run sched s) = true.
Proof.
  revert s. induction sched as [| t sched IH]; intros s Hd; [done |].
  rewrite run_cons. apply IH. destruct (step t s) as [s' |] eqn:E; [| done].
  by eapply drained_step.
Qed.

Lemma sum_positive {A} (f : A -> nat) (l : list A) :
  0 < sum_list_with f l -> exists i x, l !! i = Some x /\ 0 < f x.
Proof.
  induction l as [| a l IH]; cbn; [lia |]. intros H.
  destruct (f a) as [| n] eqn:E.
  - destruct IH as (i & x & Hi & Hx); [lia |]. by exists (S i), x.
  - exists 0, a. split; [done | lia].
Qed.

(** A worker that holds an item, or the holder of the lock in its way, can
    take a step. *)
Lemma holder_can_step (s : state) (i : nat) (pc : wpc) :
  lively s ->
  _threads s !! i = Some pc -> 0 < holding pc ->
  exists t s', step t s = Some s'.
Proof.
  intros Hl Hpc Hh.
  assert (Hin : forall j pcj, _threads s !! j = Some pcj -> in_cs pcj = true ->
                              exists s', step (Worker j) s = Some s').
  { intros j pcj Hj Hcs. cbn [step]. rewrite Hj.
    destruct pcj; try done; cbn; eauto. }
  destruct pc as [| [source dest] | | | | | | | | |]; cbn in Hh; try lia;
    try (exists (Worker i); cbn [step]; rewrite Hpc; cbn;
         repeat case_match; eauto; fail).
  destruct (lock s) as [j |] eqn:Hlock.
  - destruct (lv_holder s Hl j Hlock) as (pcj & Hj & Hcs).
    destruct (Hin j pcj Hj Hcs) as [s' Hs']. eauto.
  - exists (Worker i). cbn [step]. rewrite Hpc. cbn. rewrite Hlock. eauto.
Qed.

(** Before [wait] returns some thread can always take a step. *)
Lemma progress (K E0 : nat) (s : state) :
  invariant K E0 s -> lively s -> exists t s', step t s = Some s'.
Proof.
  intros Hinv Hl. pose proof (lv_before s Hl) as Hb.
  destruct (main s) as [| c rest] eqn:Hmain; [done |].
  destruct c; try done.
  - (* in [start] *)
    exists Main. cbn [step]. rewrite Hmain. cbn. destruct (_stopping s); eauto.
  - (* in [wait] *)
    destruct (unfinished_tasks s) as [| n] eqn:Hun.
    { exists Main. cbn [step]. rewrite Hmain. cbn. rewrite Hun. eauto. }
    pose proof (inv_unfinished K E0 s Hinv) as Hu. unfold total_of in Hu.
    destruct (Nat.eq_dec (sum_list_with holding (_threads s)) 0) as [Hz | Hnz].
    + (* every worker is at [get]: the first one takes a task *)
      pose proof (lv_workers s Hl) as Hw. rewrite Hmain in Hw. cbn in Hw.
      destruct (_threads s) as [| pc th] eqn:Hth; [cbn in Hw; lia |].
      cbn in Hz. pose proof (lv_alive s Hl) as Ha. rewrite Hth in Ha.
      inversion Ha as [| ? ? Hpc _]; subst.
      destruct (_file_queue s) as [| t q] eqn:Hq; [cbn in Hu; lia |].
      exists (Worker 0). cbn [step]. rewrite Hth. cbn.
      destruct pc; cbn in Hz, Hpc; try lia; try done.
      cbn. rewrite Hq. eauto.
    + destruct (sum_positive holding (_threads s)) as (i & pc & Hi & Hpos); [lia |].
      by eapply holder_can_step.
Qed.

Lemma rank_insert (th : list wpc) (i : nat) (pc pc' : wpc) :
  th !! i = Some pc ->
  sum_list_with rank (<[i := pc']> th) + rank pc = sum_list_with rank th + rank pc'.
Proof. apply sum_insert. Qed.

(** Before [wait] returns every step brings the measure down, and leaves
    the pool lively unless it is the return of [wait]. *)
Lemma lively_step (K E0 : nat) (t : tid) (s s' : state) :
  invariant K E0 s -> lively s -> step t s = Some s' ->
  measure s' < measure s /\ (lively s' \/ drained s' = true).
Proof.
  intros [I1 _ _ _ _ _] [L1 L2 L3 L4 L5 L6] Hstep.
  destruct s as [st qu un to co lo th ma w lg].
  cbn [_stopping _file_queue unfinished_tasks total_file_count copied_file_count
       lock _threads main fs log] in *.
  subst st. unfold measure, total_of, drained in *.
  destruct t as [| i]; cbn [step main _threads] in Hstep.
  - (* the session thread *)
    destruct ma as [| c rest]; [done |]. destruct c; try done; cbn in Hstep.
    + injection Hstep as <-. fields. rewrite sum_list_with_app. cbn.
      split; [lia |]. left. split; fields; try done.
      * intros i Hi. destruct (L1 i Hi) as (pc & Hpc & Hcs).
        exists pc. split; [| done]. by apply lookup_app_l_Some.
      * apply Forall_app. split; [done | by repeat constructor].
      * rewrite length_app. cbn in *. lia.
    + destruct un; [| done]. injection Hstep as <-. fields. cbn.
      split; [lia |]. by right.
  - (* a worker *)
    destruct (th !! i) as [pc |] eqn:Hpc; [| done].
    pose proof (fun pc' => rank_insert th i pc pc' Hpc) as Hr.
    pose proof (sum_lookup holding th i pc Hpc) as Hhold.
    assert (Hlen : i < length th) by (by eapply lookup_lt_Some).
    assert (Ha : alive pc = true).
    { eapply Forall_lookup_1 in L2; [exact L2 | exact Hpc]. }
    assert (Hkeep : forall pc' lo',
              alive pc' = true ->
              (forall j, lo' = Some j ->
                         exists pcj, <[i := pc']> th !! j = Some pcj /\ in_cs pcj = true) ->
              forall qu', forallb real qu' = true ->
                          lively (mkState false qu' un to co lo' (<[i := pc']> th) ma w lg)
              ) .
    { intros pc' lo' Hal Hlo qu' Hqu'. split; cbn; try done.
      - by apply Forall_insert.
      - rewrite length_insert. done. }
    assert (Hother : forall pc', in_cs pc = in_cs pc' ->
              forall j, lo = Some j ->
                        exists pcj, <[i := pc']> th !! j = Some pcj /\ in_cs pcj = true).
    { intros pc' Hsame j Hj. destruct (L1 j Hj) as (pcj & Hpcj & Hcs).
      destruct (decide (j = i)) as [-> | Hne].
      - exists pc'. rewrite list_lookup_insert_eq by done. split; [done |].
        rewrite <- Hsame. congruence.
      - exists pcj. by rewrite list_lookup_insert_ne. }
    destruct pc as [| [source dest] | source dest | source dest | | | v | | e | again |];
      cbn [worker_step _stopping _file_queue unfinished_tasks copied_file_count
           lock fs] in Hstep.
    + destruct qu as [| t q]; [done |]. injection Hstep as <-.
      cbn in L3. apply andb_prop in L3 as [Ht Hq].
      specialize (Hr (WCheck t)). fields. cbn in *. split; [lia |]. left.
      apply Hkeep; [done | by apply Hother | done].
    + cbn in Ha. rewrite <- real_cond, Ha in Hstep. cbn in Hstep.
      injection Hstep as <-. generalize (default "" source) (default "" dest).
      intros a b. specialize (Hr (WLog a b)). fields. cbn in *. split; [lia |].
      left. apply Hkeep; [done | by apply Hother | done].
    + injection Hstep as <-. specialize (Hr (WCopy source dest)). fields. cbn in *.
      split; [lia |]. left. split; cbn; try done.
      * by apply Hother.
      * by apply Forall_insert.
      * by rewrite length_insert.
    + destruct (copy w source dest false) as [w' | e]; injection Hstep as <-.
      * specialize (Hr WAcquire). fields. cbn in *. split; [lia |]. left.
        split; cbn; try done.
        -- by apply Hother.
        -- by apply Forall_insert.
        -- by rewrite length_insert.
      * specialize (Hr (WExcept e)). fields. cbn in *. split; [lia |]. left.
        apply Hkeep; [done | by apply Hother | done].
    + destruct lo as [j |]; [done |]. injection Hstep as <-.
      specialize (Hr WLoad). fields. cbn in *. split; [lia |]. left.
      apply Hkeep; [done | | done].
      intros j [= <-]. exists WLoad. by rewrite list_lookup_insert_eq.
    + injection Hstep as <-. specialize (Hr (WStore co)). fields. cbn in *.
      split; [lia |]. left. apply Hkeep; [done | by apply Hother | done].
    + injection Hstep as <-. specialize (Hr WRelease). fields. cbn in *.
      split; [lia |]. left. split; cbn; try done.
      * by apply Hother.
      * by apply Forall_insert.
      * by rewrite length_insert.
    + injection Hstep as <-. specialize (Hr (WTaskDone true)). fields. cbn in *.
      split; [lia |]. left. apply Hkeep; [done | done | done].
    + injection Hstep as <-. specialize (Hr (WTaskDone true)). fields. cbn in *.
      split; [lia |]. left. split; cbn; try done.
      * by apply Hother.
      * by apply Forall_insert.
      * by rewrite length_insert.
    + destruct again; [| done].
      destruct un as [| n]; [cbn in Hhold; lia |].
      injection Hstep as <-; fields; cbn in *.
      * specialize (Hr WGet). cbn in Hr. split; [lia |]. left.
        split; cbn; try done.
        -- by apply Hother.
        -- by apply Forall_insert.
        -- by rewrite length_insert.
    + done.
Qed.

Lemma run_step (t : tid) (s s' : state) : step t s = Some s' -> run [t] s = s'.
Proof. intros H. rewrite run_cons, H. reflexivity. Qed.

(** From a lively state some interleaving leads to the return of [wait]. *)
Lemma wait_can_return (K E0 n : nat) (s : state) :
  measure s <= n -> invariant K E0 s -> lively s ->
  exists sched, drained (run sched s) = true.
Proof.
  revert s. induction n as [| n IH]; intros s Hn Hinv Hl;
    destruct (progress K E0 s Hinv Hl) as (t & s' & Hstep);
    destruct (lively_step K E0 t s s' Hinv Hl Hstep) as [Hlt [Hl' | Hd] ];
    try lia.
  - destruct (IH s') as [sched Hsched]; [lia | by eapply step_invariant | done |].
    exists (t :: sched). by rewrite run_cons, Hstep.
  - exists [t]. by rewrite (run_step t s s').
Qed.

(** Along every interleaving the pool stays lively until [wait] returns. *)
Lemma lively_run (K E0 : nat) (sched : list tid) (s : state) :
  invariant K E0 s -> lively s ->
  lively (run sched s) \/ drained (run sched s) = true.
Proof.
  revert s. induction sched as [| t sched IH]; intros s Hinv Hl; [by left |].
  rewrite run_cons. destruct (step t s) as [s' |] eqn:Hstep; cbn [default from_option].
  - destruct (lively_step K E0 t s s' Hinv Hl Hstep) as [_ [Hl' | Hd] ].
    + apply IH; [by eapply step_invariant | done].
    + right. by apply drained_run.
  - by apply IH.
Qed.

Lemma spawns_start (n : nat) (rest : list call) :
  spawns (start n ++ CWait :: rest) = n.
Proof. unfold start. induction n; cbn; [done | by f_equal]. Qed.

(** A pool of at least one worker that is handed real tasks is lively. *)
Lemma pool_lively (tasks : list task) (n : nat) (rest : list call) (w : filesystem) :
  forallb real tasks = true -> 1 <= n -> forallb after_wait rest = true ->
  lively (pool tasks n rest w).
Proof.
  intros Hreal Hn Hrest. unfold pool. rewrite puts_state.
  split; fields; cbn [length app]; try done.
  - rewrite spawns_start. lia.
  - by rewrite before_drain_start.
Qed.

(** With real tasks and at least one worker, [wait] returns: whatever has
    happened so far, the threads can go on until it does, and they cannot
    all be stuck before. *)
Lemma wait_returns (tasks : list task) (n : nat) (rest : list call)
    (w : filesystem) (sched : list tid) :
  forallb real tasks = true -> 1 <= n -> forallb after_wait rest = true ->
  let s := run sched (pool tasks n rest w) in
  (exists sched', drained (run sched' s) = true)
  /\ ((forall t, step t s = None) -> drained s = true).
Proof.
  intros Hreal Hn Hrest s.
  pose proof (pool_invariant tasks n rest w Hrest) as Hinv.
  pose proof (pool_lively tasks n rest w Hreal Hn Hrest) as Hl.
  pose proof (run_invariant _ _ sched _ Hinv) as Hinv'. fold s in Hinv'.
  destruct (lively_run _ _ sched _ Hinv Hl) as [Hl' | Hd]; fold s in Hl' || fold s in Hd.
  - split.
    + by eapply (wait_can_return _ _ (measure s)).
    + intros Hstuck. destruct (progress _ _ s Hinv' Hl') as (t & s' & Hstep).
      by rewrite Hstuck in Hstep.
  - split; [by exists [] | done].
Qed.

End Liveness.

(** ** The counters of a session *)

(** C1.  [init] leaves [copied_file_count] at 0, whether it returns or
    raises; and in every state a session reaches from the end of [init],
    under every interleaving of the session thread and the workers,
    [copied_file_count <= total_file_count]: copies that fail are among the
    interleavings. *)
Theorem C1_copied_never_exceeds_planned
    (get_subdirs : filesystem -> string -> string -> res (list string))
    (sources_dirs : list string) (target_dir : string) (t_start t_end : Q)
    (w : filesystem) (l : list logline) :
  (forall r s, init get_subdirs sources_dirs target_dir prefixes (__init__ w l) = (r, s) ->
               copied_file_count s = 0)
  /\ (forall sched,
        let s := run sched (start_copy get_subdirs sources_dirs target_dir
                              t_start t_end w l) in
        copied_file_count s <= total_file_count s).
Proof.
  pose proof (init_planning get_subdirs (errors l) sources_dirs target_dir prefixes
                (__init__ w l)) as Hinit.
  split.
  - intros r s E. by destruct (Hinit r s (planning_init w l) E).
  - intros sched. unfold start_copy.
    destruct (init _ _ _ _ _) as [[[] | e] s0] eqn:E;
      pose proof (Hinit _ _ (planning_init w l) eq_refl) as Hplan.
    + destruct (0 <? total_file_count s0)%nat eqn:Htotal.
      * pose proof (planning_invariant _ (length sources_dirs)
                      [CStop; CReport t_start t_end; CDone] _ Hplan eq_refl) as Hinv.
        apply (run_invariant _ _ sched) in Hinv. cbn zeta.
        rewrite run_total. destruct Hinv as [_ Hcount Herr _ _ _].
        change (total_file_count (set_main _ s0)) with (total_file_count s0).
        change (start (length sources_dirs) ++ [CWait; CStop; CReport t_start t_end; CDone])
          with (start (length sources_dirs) ++ CWait :: [CStop; CReport t_start t_end; CDone]).
        lia.
      * apply Nat.ltb_ge in Htotal.
        pose proof (planning_nothing _ [CNothing; CDone] _ Hplan ltac:(lia) eq_refl)
          as Hinv.
        apply (run_invariant _ _ sched) in Hinv. cbn zeta.
        destruct Hinv as [_ Hcount Herr _ _ _]. lia.
    + cbn zeta. destruct Hplan. rewrite run_idle by done. lia.
Qed.

Lemma C1_copied_never_exceeds_planned_witness :
  let s := run (Examples.round_robin 40)
             (start_copy Helpers.get_subdirs ["/A"; "/B"] "/T" 100 (205 # 2)
                Examples.cards []) in
  copied_file_count s <= total_file_count s.
Proof.
  destruct (C1_copied_never_exceeds_planned Helpers.get_subdirs ["/A"; "/B"] "/T"
              100 (205 # 2) Examples.cards []) as [_ H].
  apply H.
Defined.

(** C7, as the code has it.  [tasks] are put on the queue of a fresh
    object, [W] workers are started and the session thread waits for the
    queue; what it does afterwards ([rest]) puts no real task.  Under every
    interleaving:
    - at every moment each real task is in exactly one place: in the queue,
      in the hands of one worker, counted in [copied_file_count], or
      reported by a line [Error copying: ...];
    - once [wait] has returned, [copied_file_count] plus the number of those
      error lines is exactly the number of real tasks: no increment is lost
      and none is made twice;
    - so with [K] tasks, all with two non-empty fields, the count is
      [K] less the copies that failed, and exactly [K] when none failed;
    - with such tasks and at least one worker [wait] does return: from
      every state reached the threads can go on until it has, and they are
      never all stuck before. *)
Theorem C7_drain_count_exact (tasks : list task) (W : nat) (rest : list call)
    (w : filesystem) (sched : list tid) :
  forallb after_wait rest = true ->
  let s := run sched (pool tasks W rest w) in
  copied_file_count s + errors (log s) + total_of pending (_threads s)
  + reals (_file_queue s) = reals tasks
  /\ (drained s = true ->
      copied_file_count s + errors (log s) = reals tasks)
  /\ (forallb real tasks = true -> reals tasks = length tasks)
  /\ (drained s = true -> forallb real tasks = true -> errors (log s) = 0 ->
      copied_file_count s = length tasks)
  /\ (forallb real tasks = true -> 1 <= W ->
      (exists sched', drained (run sched' s) = true)
      /\ ((forall t, step t s = None) -> drained s = true)).
Proof.
  intros Hrest s.
  pose proof (run_invariant _ _ sched _ (pool_invariant tasks W rest w Hrest))
    as [_ Hcount _ _ _ Hphase].
  fold s in Hcount, Hphase.
  assert (Hdrained : drained s = true ->
                     copied_file_count s + errors (log s) = reals tasks).
  { unfold drained. intros Hd. destruct Hphase as [[Hb _] | (_ & Hq & Hp)]; [| lia].
    destruct (main s) as [| [] p]; cbn in Hb, Hd; congruence. }
  assert (Hall : forallb real tasks = true -> reals tasks = length tasks).
  { clear. induction tasks as [| t tasks IH]; [done |]. cbn [forallb].
    intros [Ht Hts]%andb_prop. rewrite reals_cons, Ht, (IH Hts). done. }
  split; [lia |]. split; [done |]. split; [done |]. split.
  - intros Hd Hr He. specialize (Hdrained Hd). specialize (Hall Hr). lia.
  - intros Hr HW. by apply wait_returns.
Qed.

Lemma C7_drain_count_exact_witness :
  let s := run Examples.one_worker_schedule
             (pool Examples.two_tasks 1 [] Examples.prepared) in
  copied_file_count s + errors (log s) = 2.
Proof.
  intros s.
  destruct (C7_drain_count_exact Examples.two_tasks 1 [] Examples.prepared
              Examples.one_worker_schedule eq_refl) as (_ & H & _).
  apply H. vm_compute. reflexivity.
Defined.

(** C7, as the specification words it, fails: two tasks are handed to one
    worker, the copy of the first raises, [wait] returns, and the count is 1. *)
Lemma C7_count_counterexample :
  let s := run Examples.one_worker_schedule
             (pool Examples.two_tasks 1 [] Examples.prepared) in
  length Examples.two_tasks = 2
  /\ main s = [] /\ unfinished_tasks s = 0
  /\ copied_file_count s = 1
  /\ log s = [LCopying "/A/VID_001/gone.bin";
              LErrorCopying (OSError ENOENT "/A/VID_001/gone.bin" None);
              LCopying "/A/VID_001/f1.bin"].
Proof. vm_compute. repeat split. Qed.

(** * Further properties *)

(** ** The threads come to rest *)

Section Rest.
Import Closing.

Lemma weight_mono (n m : nat) (c : call) : n <= m -> weight n c <= weight m c.
Proof. destruct c; cbn; lia. Qed.

Lemma sum_weight_mono (n m : nat) (p : list call) :
  n <= m -> sum_list_with (weight n) p <= sum_list_with (weight m) p.
Proof.
  intros Hnm. induction p as [| c p IH]; cbn; [done |].
  pose proof (weight_mono n m c Hnm). lia.
Qed.

Lemma stop_calls_weight (n : nat) (th : list wpc) :
  sum_list_with (weight n) (stop_calls th) = 12 * length th.
Proof.
  unfold stop_calls. rewrite sum_list_with_app.
  assert (H1 : sum_list_with (weight n) (map (fun _ : wpc => CPut sentinel) th)
               = 11 * length th).
  { induction th as [| pc th IH]; cbn; lia. }
  assert (H2 : forall k l, sum_list_with (weight n)
                             (map (fun i => CJoin i (Some join_timeout)) (seq k l)) = l).
  { intros k l. revert k. induction l as [| l IH]; intros k;
      cbn; [done |]. by rewrite IH. }
  rewrite H1, H2. lia.
Qed.

Lemma stop_calls_spawn (th : list wpc) :
  sum_list_with is_spawn (stop_calls th) = 0.
Proof.
  unfold stop_calls. rewrite sum_list_with_app.
  assert (H1 : sum_list_with is_spawn (map (fun _ : wpc => CPut sentinel) th) = 0).
  { induction th as [| pc th IH]; cbn; lia. }
  assert (H2 : forall k l, sum_list_with is_spawn
                             (map (fun i => CJoin i (Some join_timeout)) (seq k l)) = 0).
  { intros k l. revert k. induction l as [| l IH]; intros k;
      cbn; [done |]. by rewrite IH. }
  rewrite H1, H2. lia.
Qed.

(** Every step a thread takes brings [work] down. *)
Lemma work_step (t : tid) (s s' : state) :
  step t s = Some s' -> work s' < work s.
Proof.
  destruct s as [st qu un to co lo th ma w lg].
  unfold work, headcount, total_of.
  destruct t as [| i]; cbn [step main _threads]; intros Hstep.
  - destruct ma as [| c rest]; [done |].
    destruct c as [| | | [source dest] | j [tm |] | t0 t1 | |];
      cbn [main_step _stopping unfinished_tasks _threads] in Hstep.
    + destruct st; injection Hstep as <-; fields;
        cbn.
      * pose proof (sum_weight_mono (length th + sum_list_with is_spawn rest)
                      (length th + S (sum_list_with is_spawn rest)) rest
                      ltac:(lia)).
        lia.
      * rewrite length_app, sum_list_with_app. cbn.
        replace (length th + 1 + sum_list_with is_spawn rest)
          with (length th + S (sum_list_with is_spawn rest)) by lia.
        lia.
    + destruct un; [| done]. injection Hstep as <-. fields.
      cbn. lia.
    + injection Hstep as <-. fields.
      rewrite !sum_list_with_app, stop_calls_spawn, stop_calls_weight.
      cbn. lia.
    + injection Hstep as <-. fields. rewrite length_app.
      cbn. lia.
    + injection Hstep as <-. fields. cbn. lia.
    + destruct (th !! j) as [ [] |]; try done. injection Hstep as <-. fields.
      cbn. lia.
    + injection Hstep as <-. fields. cbn. lia.
    + injection Hstep as <-. fields. cbn. lia.
    + injection Hstep as <-. fields. cbn. lia.
  - destruct (th !! i) as [pc |] eqn:Hpc; [| done].
    pose proof (fun pc' => rank_insert th i pc pc' Hpc) as Hr.
    destruct pc as [| [source dest] | source dest | source dest | | | v | | e | again |];
      cbn [worker_step _stopping _file_queue unfinished_tasks copied_file_count
           lock fs] in Hstep.
    + destruct qu as [| tk q]; [done |]. injection Hstep as <-.
      specialize (Hr (WCheck tk)). fields. rewrite length_insert.
      cbn [length rank] in *. lia.
    + destruct (truthy source && truthy dest && negb st); injection Hstep as <-.
      * generalize (default "" source) (default "" dest). intros a b.
        specialize (Hr (WLog a b)). fields. rewrite length_insert.
        cbn [rank] in *. lia.
      * specialize (Hr (WTaskDone false)). fields. rewrite length_insert.
        cbn [rank] in *. lia.
    + injection Hstep as <-. specialize (Hr (WCopy source dest)). fields.
      rewrite length_insert. cbn [rank] in *. lia.
    + destruct (copy w source dest false) as [w' | e]; injection Hstep as <-.
      * specialize (Hr WAcquire). fields. rewrite length_insert.
        cbn [rank] in *. lia.
      * specialize (Hr (WExcept e)). fields. rewrite length_insert.
        cbn [rank] in *. lia.
    + destruct lo as [j |]; [done |]. injection Hstep as <-.
      specialize (Hr WLoad). fields. rewrite length_insert. cbn [rank] in *. lia.
    + injection Hstep as <-. specialize (Hr (WStore co)). fields.
      rewrite length_insert. cbn [rank] in *. lia.
    + injection Hstep as <-. specialize (Hr WRelease). fields.
      rewrite length_insert. cbn [rank] in *. lia.
    + injection Hstep as <-. specialize (Hr (WTaskDone true)). fields.
      rewrite length_insert. cbn [rank] in *. lia.
    + injection Hstep as <-. specialize (Hr (WTaskDone true)). fields.
      rewrite length_insert. cbn [rank] in *. lia.
    + destruct un as [| n], again; injection Hstep as <-;
        (specialize (Hr WGet) || idtac); pose proof (rank_insert th i _ WExited Hpc);
        fields; rewrite length_insert; cbn [rank] in *; lia.
    + done.
Qed.

Lemma steps_bound (sched : list tid) (s : state) :
  steps_taken sched s + work (run sched s) <= work s.
Proof.
  revert s. induction sched as [| t sched IH]; intros s; [cbn; lia |].
  rewrite run_cons. cbn [steps_taken].
  destruct (step t s) as [s' |] eqn:Hstep; cbn [default from_option id].
  - pose proof (work_step t s s' Hstep). specialize (IH s'). lia.
  - apply IH.
Qed.

Lemma quiet_spec (s : state) :
  quiet s = true <-> forall t, step t s = None.
Proof.
  unfold quiet. rewrite forallb_forall. split.
  - intros H [| i].
    + specialize (H Main ltac:(by left)). unfold can_step in H.
      by destruct (step Main s).
    + destruct (decide (i < length (_threads s))) as [Hlt | Hge].
      * assert (Hin : In (Worker i) (tids s)).
        { right. apply in_map, in_seq. lia. }
        specialize (H _ Hin). unfold can_step in H.
        by destruct (step (Worker i) s).
      * cbn [step]. by rewrite lookup_ge_None_2 by lia.
  - intros H t _. unfold can_step. by rewrite H.
Qed.

Lemma find_quiet (s : state) :
  List.find (can_step s) (tids s) = None -> quiet s = true.
Proof.
  intros H. unfold quiet. apply forallb_forall. intros t Ht.
  by rewrite (find_none _ _ H t Ht).
Qed.

Lemma greedy_quiet (n : nat) (s : state) :
  work s <= n -> quiet (run (greedy n s) s) = true.
Proof.
  revert s. induction n as [| n IH]; intros s Hn; cbn [greedy].
  - destruct (List.find (can_step s) (tids s)) as [t |] eqn:Hfind.
    + apply find_some in Hfind as [_ Hcan]. unfold can_step in Hcan.
      destruct (step t s) as [s' |] eqn:Hstep; [| done].
      pose proof (work_step t s s' Hstep). lia.
    + by apply find_quiet.
  - destruct (List.find (can_step s) (tids s)) as [t |] eqn:Hfind.
    + apply find_some in Hfind as [_ Hcan]. unfold can_step in Hcan.
      destruct (step t s) as [s' |] eqn:Hstep; [| done].
      rewrite run_cons, Hstep. cbn [default from_option id].
      apply IH. pose proof (work_step t s s' Hstep). lia.
    + by apply find_quiet.
Qed.

End Rest.

(** X7.  The pool never spins: in whatever state it is, no interleaving
    makes the threads take more than [work s] steps, and letting whichever
    thread can move do so leads, within that many steps, to a state in which
    every thread is blocked or has returned. *)
Theorem X7_threads_come_to_rest (s : state) :
  (forall sched, Closing.steps_taken sched s <= Closing.work s)
  /\ Closing.quiet (run (Closing.greedy (Closing.work s) s) s) = true
  /\ (forall t s', step t s = Some s' -> Closing.work s' < Closing.work s).
Proof.
  split; [| split].
  - intros sched. pose proof (steps_bound sched s). lia.
  - apply greedy_quiet. lia.
  - intros t s'. apply work_step.
Qed.

Lemma X7_threads_come_to_rest_witness :
  let s := Examples.one_worker Examples.prepared
             (Some "/A/VID_001/f1.bin", Some "/T/VID_001/") in
  Closing.work (run [Worker 0] s) < Closing.work s
  /\ Closing.quiet (run (Closing.greedy (Closing.work s) s) s) = true.
Proof.
  intros s.
  destruct (X7_threads_come_to_rest s) as (_ & Hquiet & Hdown).
  split; [| exact Hquiet].
  apply (Hdown (Worker 0)). vm_compute. reflexivity.
Defined.

(** ** The planner as a whole *)

Section Preparation.

Lemma try_Exception_returns (body : M unit) (handler : exn -> state -> state)
    (s : state) :
  (try_except body Exception (fun e => modify (handler e)) s).1 = Ok tt.
Proof.
  unfold try_except, Exception, modify. by destruct (body s) as [[[] | e] s'].
Qed.

Lemma for_returns {A} (l : list A) (body : A -> M unit) (s : state) :
  (forall a s, (body a s).1 = Ok tt) -> (for_ l body s).1 = Ok tt.
Proof.
  intros Hbody. revert s. induction l as [| a l IH]; intros s; [done |].
  cbn [for_]. unfold mbind, M_bind. specialize (Hbody a s).
  destruct (body a s) as [[[] | e] s']; [apply IH | done].
Qed.

Lemma plan_file_returns (source destination filename : string) (s : state) :
  (plan_file source destination filename s).1 = Ok tt.
Proof. unfold plan_file. apply try_Exception_returns. Qed.

Lemma prepare_folder_returns (target f src : string) (s : state) :
  (prepare_folder target f src s).1 = Ok tt.
Proof. unfold prepare_folder. apply try_Exception_returns. Qed.

Lemma preparation_returns (target : string) (folders sources : list string)
    (s : state) :
  (for_ folders (fun f => for_ sources (prepare_folder target f)) s).1 = Ok tt.
Proof.
  apply for_returns. intros f s'. apply for_returns. intros src s''.
  apply prepare_folder_returns.
Qed.

(** What one turn of the loop over the file names does to the queue and the
    counters: nothing, or one task more. *)
Lemma plan_file_effect (source destination filename : string) (s : state) :
  let s' := (plan_file source destination filename s).2 in
  (_file_queue s' = _file_queue s
   /\ total_file_count s' = total_file_count s
   /\ unfinished_tasks s' = unfinished_tasks s)
  \/ (_file_queue s'
      = _file_queue s ++ [(Some (source_file source filename), Some destination)]
      /\ total_file_count s' = total_file_count s + 1
      /\ unfinished_tasks s' = unfinished_tasks s + 1).
Proof.
  destruct s as [st qu un to co lo th ma w lg]. run_M.
  cbn [fs log_ set_log log].
  repeat case_match; simplify_eq; cbn; auto; right; repeat split; lia.
Qed.

Lemma for_plan_file_effect (source destination : string) (names : list string)
    (s : state) :
  exists planned,
    let s' := (for_ names (plan_file source destination) s).2 in
    sublist planned names
    /\ _file_queue s'
       = _file_queue s
         ++ map (fun fn => (Some (source_file source fn), Some destination)) planned
    /\ total_file_count s' = total_file_count s + length planned
    /\ unfinished_tasks s' = unfinished_tasks s + length planned.
Proof.
  revert s. induction names as [| fn names IH]; intros s.
  - exists []. cbn. rewrite app_nil_r. repeat split; [constructor | lia | lia].
  - cbn [for_]. unfold mbind, M_bind.
    pose proof (plan_file_returns source destination fn s) as Hret.
    pose proof (plan_file_effect source destination fn s) as Heff.
    destruct (plan_file source destination fn s) as [r s1]. cbn in Hret, Heff.
    subst r. destruct (IH s1) as (planned & Hsub & Hq & Ht & Hu).
    cbn zeta in *.
    destruct Heff as [(Eq & Et & Eu) | (Eq & Et & Eu)].
    + exists planned. rewrite Hq, Ht, Hu, Eq, Et, Eu.
      repeat split; [by apply sublist_cons | done..].
    + exists (fn :: planned). rewrite Hq, Ht, Hu, Eq, Et, Eu. cbn [map length].
      rewrite <- app_assoc. repeat split; [by apply sublist_skip | lia | lia].
Qed.

End Preparation.

Section InitFacts.

Variable get_subdirs : filesystem -> string -> string -> res (list string).

Lemma list_source_files_Ok (source : string) (names : list string) (s : state) :
  listdir (fs s) source = Ok names ->
  list_source_files source s
  = (Ok (List.filter (fun sf => isfile (fs s) (join source sf)) names), s).
Proof.
  intros H. unfold list_source_files, try_except, mbind, M_bind, query, ask.
  by rewrite H.
Qed.

Lemma list_source_files_Raise (source : string) (e : exn) (s : state) :
  listdir (fs s) source = Raise e ->
  list_source_files source s
  = if is_FileNotFoundError e then (Ok [], log_ (LWarningMissing source) s)
    else (Raise e, s).
Proof.
  intros H. unfold list_source_files, try_except, mbind, M_bind, query, ask.
  rewrite H. by destruct (is_FileNotFoundError e).
Qed.

Lemma prepare_folder_Raise (target f src : string) (e : exn) (s : state) :
  listdir (fs s) (source_dir src f) = Raise e ->
  prepare_folder target f src s
  = (Ok tt, log_ (if is_FileNotFoundError e then LWarningMissing (source_dir src f)
                  else LErrorPreparing src e) s).
Proof.
  intros H. unfold prepare_folder, try_except. unfold mbind at 1, M_bind at 1.
  rewrite (list_source_files_Raise _ _ _ H).
  by destruct (is_FileNotFoundError e).
Qed.

Lemma prepare_folder_Ok (target f src : string) (names : list string) (s : state) :
  listdir (fs s) (source_dir src f) = Ok names ->
  prepare_folder target f src s
  = (Ok tt,
     (for_ (List.filter (fun sf => isfile (fs s) (join (source_dir src f) sf)) names)
        (plan_file (source_dir src f) (destination_dir target f)) s).2).
Proof.
  intros H. unfold prepare_folder, try_except. unfold mbind at 1, M_bind at 1.
  rewrite (list_source_files_Ok _ _ _ H).
  pose proof (for_returns
                (List.filter (fun sf => isfile (fs s) (join (source_dir src f) sf)) names)
                (plan_file (source_dir src f) (destination_dir target f)) s
                (plan_file_returns (source_dir src f) (destination_dir target f)))
    as Hret.
  destruct (for_ _ _ s) as [r s1]. cbn [fst snd] in *. by subst r.
Qed.



Lemma reals_le_length (q : list task) : reals q <= length q.
Proof.
  induction q as [| t q IH]; [done |]. rewrite reals_cons. cbn [length].
  destruct (real t); lia.
Qed.

Lemma reals_all (q : list task) : reals q = length q -> forallb real q = true.
Proof.
  induction q as [| t q IH]; [done |]. rewrite reals_cons. cbn [length forallb].
  pose proof (reals_le_length q) as Hle. destruct (real t); [| lia].
  intros Hall. apply IH. lia.
Qed.

(** Before the files are looked at, [init] leaves queue and counters
    alone; and afterwards it does not raise. *)
Lemma init_raise_untouched (sources : list string) (target : string)
    (startswith : list string) (s s' : state) (e : exn) :
  init get_subdirs sources target startswith s = (Raise e, s') ->
  _file_queue s' = _file_queue s
  /\ total_file_count s' = total_file_count s
  /\ unfinished_tasks s' = unfinished_tasks s.
Proof.
  set (P := fun st : state =>
              _file_queue st = _file_queue s
              /\ total_file_count st = total_file_count s
              /\ unfinished_tasks st = unfinished_tasks s).
  assert (Hlog : forall l st, P st -> P (log_ l st)) by (by intros l []).
  assert (Hcreate : forall folders,
            keeps P (for_ folders (create_target_folder target))).
  { intros folders. apply keeps_for. intros f. unfold create_target_folder.
    apply keeps_try; [| intros; apply keeps_ret].
    apply keeps_bind; [apply keeps_ask |].
    intros []; [apply keeps_ret |]. apply keeps_perform. by intros [] w'. }
  unfold init. unfold mbind at 1 2 3 4, M_bind at 1 2 3 4, modify at 1 2, query.
  destruct (collect_folders _ _ _ _) as [folders | e'].
  - destruct (for_ folders (create_target_folder target) _) as [[[] | e'] s1] eqn:E1.
    + unfold mbind at 1 2, M_bind at 1 2, modify at 1.
      pose proof (preparation_returns target folders sources (log_ LPreparing s1)) as H.
      destruct (for_ folders _ (log_ LPreparing s1)) as [[[] | e'] s2]; [| done].
      by unfold modify.
    + intros [= <- <-]. eapply Hcreate; [| exact E1].
      apply Hlog, Hlog. by unfold P.
  - intros [= <- <-]. cbn [fs log_ set_log]. apply Hlog. by unfold P.
Qed.

End InitFacts.

(** X2.  When [init] has ended, by returning or by raising, the queue holds
    as many tasks as [total_file_count] says and as the queue counts as
    unfinished, each with a source and a destination that are not empty;
    nothing has been copied, no thread runs, the lock is free and
    [_stopping] is off. *)
Theorem X2_init_queue_matches_total
    (get_subdirs : filesystem -> string -> string -> res (list string))
    (sources : list string) (target : string) (startswith : list string)
    (w : filesystem) (l : list logline) :
  let s := (init get_subdirs sources target startswith (__init__ w l)).2 in
  length (_file_queue s) = total_file_count s
  /\ unfinished_tasks s = total_file_count s
  /\ forallb real (_file_queue s) = true
  /\ copied_file_count s = 0
  /\ _threads s = [] /\ lock s = None /\ _stopping s = false.
Proof.
  intros s.
  pose proof (init_planning get_subdirs (errors l) sources target startswith
                (__init__ w l)) as Hkeeps.
  destruct (init get_subdirs sources target startswith (__init__ w l)) as [r s0] eqn:E.
  destruct (Hkeeps r s0 (planning_init w l) eq_refl)
    as [Hco Hth Hlo Hst _ Hq Hun Hre _].
  subst s. cbn [snd]. repeat split; try done.
  apply reals_all. by rewrite Hre, Hq.
Qed.

(** X3.  Nothing that goes wrong with a file or a folder while the files
    are prepared (lines 103-137) gets out of [init]: one turn of the loop
    over the files returns, one turn of the loop over the sources returns,
    and so do the loops.  [init] can raise only before, from
    [Helpers.get_subdirs] or [os.mkdir], and then no task has been queued
    or counted. *)
Theorem X3_preparation_never_raises
    (get_subdirs : filesystem -> string -> string -> res (list string))
    (sources : list string) (target : string) (startswith : list string)
    (s : state) :
  (forall source destination filename,
     (plan_file source destination filename s).1 = Ok tt)
  /\ (forall f src, (prepare_folder target f src s).1 = Ok tt)
  /\ (forall folders,
        (for_ folders (fun f => for_ sources (prepare_folder target f)) s).1 = Ok tt)
  /\ (forall e s',
        init get_subdirs sources target startswith s = (Raise e, s') ->
        _file_queue s' = _file_queue s
        /\ total_file_count s' = total_file_count s
        /\ unfinished_tasks s' = unfinished_tasks s).
Proof.
  split; [| split; [| split] ].
  - intros source destination filename. apply plan_file_returns.
  - intros f src. apply prepare_folder_returns.
  - intros folders. apply preparation_returns.
  - intros e s' Hraise. by eapply init_raise_untouched.
Qed.

Lemma X3_preparation_never_raises_witness :
  let s := (init (fun _ _ _ => Raise (ValueError "drive not ready")) ["/A"] "/T"
              prefixes (__init__ Examples.cards [])).2 in
  _file_queue s = [] /\ total_file_count s = 0 /\ unfinished_tasks s = 0.
Proof.
  intros s.
  destruct (X3_preparation_never_raises
              (fun _ _ _ => Raise (ValueError "drive not ready"))
              ["/A"] "/T" prefixes (__init__ Examples.cards [])) as (_ & _ & _ & H).
  apply (H (ValueError "drive not ready") s). reflexivity.
Defined.



(** X5.  One turn of the loop over the sources (lines 106-136) adds to the
    end of the queue tasks [[source/f/name, target/f/]] for some of the
    names of the regular files of [source/f], in the order [os.listdir]
    gave them and each once at most; [total_file_count] and the unfinished
    count of the queue grow by their number.  What was in the queue stays,
    and a folder that cannot be listed adds nothing. *)
Theorem X5_folder_adds_tasks_in_listing_order (target f src : string) (s : state) :
  let source := source_dir src f in
  let destination := destination_dir target f in
  let s' := (prepare_folder target f src s).2 in
  exists planned,
    _file_queue s'
    = _file_queue s
      ++ map (fun name => (Some (source_file source name), Some destination)) planned
    /\ total_file_count s' = total_file_count s + length planned
    /\ unfinished_tasks s' = unfinished_tasks s + length planned
    /\ (forall names,
          listdir (fs s) source = Ok names ->
          sublist planned
            (List.filter (fun sf => isfile (fs s) (join source sf)) names))
    /\ (forall e, listdir (fs s) source = Raise e -> planned = []).
Proof.
  intros source destination s'. subst s'.
  destruct (listdir (fs s) source) as [names | e] eqn:Hls.
  - destruct (for_plan_file_effect source destination
                (List.filter (fun sf => isfile (fs s) (join source sf)) names) s)
      as (planned & Hsub & Hq & Ht & Hu).
    exists planned. rewrite (prepare_folder_Ok target f src names s Hls).
    cbn [snd]. fold source destination. cbn zeta in Hq, Ht, Hu.
    repeat split; try done.
    by intros names' [= <-].
  - exists []. rewrite (prepare_folder_Raise target f src e s Hls).
    cbn [snd map length]. rewrite app_nil_r.
    destruct s; cbn. repeat split; try lia; try done.
Qed.

Lemma X5_folder_adds_tasks_in_listing_order_witness :
  let s := (prepare_folder "/T" "VID_001" "/A" (__init__ Examples.prepared [])).2 in
  exists planned,
    _file_queue s
    = map (fun name => (Some (source_file "/A/VID_001" name), Some "/T/VID_001/"))
        planned
    /\ total_file_count s = length planned.
Proof.
  intros s.
  destruct (X5_folder_adds_tasks_in_listing_order "/T" "VID_001" "/A"
              (__init__ Examples.prepared [])) as (planned & Hq & Ht & _).
  exists planned. split; [exact Hq | exact Ht].
Defined.

(** ** A session ends with every thread returned *)

Section Shutdown.
Import Closing.

Lemma closing_after_wait (p : list call) :
  forallb closing_call p = true -> forallb after_wait p = true.
Proof.
  induction p as [| c p IH]; [done |]. cbn [forallb].
  intros [Hc Hp]%andb_prop. rewrite (IH Hp), andb_true_r.
  by destruct c as [| | | | j [tm |] | | |].
Qed.

Lemma opening_before (p : list call) : opening p = true -> before_drain p = true.
Proof.
  induction p as [| c p IH]; [done |]. destruct c; try done.
  destruct p as [| [] p]; try done. cbn [opening before_drain forallb after_wait].
  apply closing_after_wait.
Qed.

Lemma opening_start (n : nat) (tail : list call) :
  opening (start n ++ CWait :: CStop :: tail) = forallb closing_call tail.
Proof. unfold start. by induction n. Qed.

Lemma puts_due_closing (p : list call) :
  forallb closing_call p = true -> puts_due p = Some 0.
Proof.
  intros H. destruct p as [| c p]; [done |].
  destruct c; cbn [puts_due]; try (by rewrite H). by cbn in H.
Qed.

Lemma puts_due_sentinels (n k : nat) (p : list call) :
  puts_due p = Some k -> sentinels_due n p = Some k.
Proof. destruct p as [| [] p]; try done. Qed.

Lemma stop_calls_due (th : list wpc) (rest : list call) :
  forallb closing_call rest = true ->
  puts_due (stop_calls th ++ rest) = Some (length th).
Proof.
  intros Hrest. unfold stop_calls. rewrite <- app_assoc.
  assert (Htail : forallb closing_call
                    (map (fun i => CJoin i (Some join_timeout)) (seq 0 (length th))
                     ++ rest) = true).
  { rewrite forallb_app, Hrest, andb_true_r. generalize 0 (length th).
    intros k l. revert k. induction l as [| l IH]; intros k; [done |].
    cbn. apply IH. }
  generalize dependent (map (fun i => CJoin i (Some join_timeout)) (seq 0 (length th))
                        ++ rest).
  intros tail Htail. induction th as [| pc th IH]; cbn [map app length].
  - by apply puts_due_closing.
  - cbn [puts_due]. change (real sentinel) with false. cbn iota. by rewrite IH.
Qed.

Lemma waiting_insert (th : list wpc) (i : nat) (pc pc' : wpc) :
  th !! i = Some pc ->
  sum_list_with waiting (<[i := pc']> th) + waiting pc
  = sum_list_with waiting th + waiting pc'.
Proof. apply sum_insert. Qed.

(** After the return of [wait] every step keeps the account of items
    that end a loop and workers that wait for one. *)
Lemma closing_step (t : tid) (s s' : state) :
  closing s -> step t s = Some s' -> closing s'.
Proof.
  intros [(k & Hk & Hw) Hth Hq Hlo] Hstep.
  destruct s as [st qu un to co lo th ma w lg].
  cbn [_stopping _file_queue unfinished_tasks total_file_count copied_file_count
       lock _threads main fs log] in *.
  unfold total_of in *. subst lo.
  destruct t as [| i]; cbn [step main _threads] in Hstep.
  - destruct ma as [| c rest]; [done |].
    destruct c as [| | | [source dest] | j [tm |] | t0 t1 | |];
      cbn [main_step _stopping unfinished_tasks _threads] in Hstep; try done.
    + cbn [sentinels_due] in Hk.
      destruct (forallb closing_call rest) eqn:Hrest; [| done].
      injection Hk as <-. injection Hstep as <-.
      split; fields; unfold total_of; try done.
      exists (length th). split; [| done].
      by apply puts_due_sentinels, stop_calls_due.
    + cbn [sentinels_due puts_due] in Hk.
      destruct (real (source, dest)) eqn:Hreal; [done |].
      destruct (puts_due rest) as [k' |] eqn:Hrest; [| done].
      injection Hk as <-. injection Hstep as <-.
      split; fields; unfold total_of; try done.
      * exists k'. split; [by apply puts_due_sentinels |].
        rewrite length_app. cbn [length]. lia.
      * rewrite forallb_app, Hq. cbn [forallb]. by rewrite Hreal.
    + cbn [sentinels_due puts_due forallb closing_call] in Hk.
      destruct (forallb closing_call rest) eqn:Hrest; [| done].
      injection Hk as <-. injection Hstep as <-.
      split; fields; unfold total_of; try done.
      exists 0. split; [| done]. by apply puts_due_sentinels, puts_due_closing.
    + cbn [sentinels_due puts_due forallb closing_call] in Hk.
      destruct (forallb closing_call rest) eqn:Hrest; [| done].
      injection Hk as <-. injection Hstep as <-.
      split; fields; unfold total_of; try done.
      exists 0. split; [| done]. by apply puts_due_sentinels, puts_due_closing.
    + cbn [sentinels_due puts_due forallb closing_call] in Hk.
      destruct (forallb closing_call rest) eqn:Hrest; [| done].
      injection Hk as <-. injection Hstep as <-.
      split; fields; unfold total_of; try done.
      exists 0. split; [| done]. by apply puts_due_sentinels, puts_due_closing.
    + cbn [sentinels_due puts_due forallb closing_call] in Hk.
      destruct (forallb closing_call rest) eqn:Hrest; [| done].
      injection Hk as <-. injection Hstep as <-.
      split; fields; unfold total_of; try done.
      exists 0. split; [| done]. by apply puts_due_sentinels, puts_due_closing.
  - destruct (th !! i) as [pc |] eqn:Hpc; [| done].
    pose proof (fun pc' => waiting_insert th i pc pc' Hpc) as Hins.
    assert (Hwd : winding_down pc = true).
    { eapply Forall_lookup_1 in Hth; [exact Hth | exact Hpc]. }
    destruct pc as [| [source dest] | source dest | source dest | | | v | | e | again |];
      try done;
      cbn [worker_step _stopping _file_queue unfinished_tasks copied_file_count
           lock fs] in Hstep.
    + destruct qu as [| tk q]; [done |]. injection Hstep as <-.
      cbn [forallb] in Hq. apply andb_prop in Hq as [Htk Hq].
      specialize (Hins (WCheck tk)).
      split; fields; unfold total_of; try done.
      * exists k. rewrite length_insert. split; [done |].
        cbn [length waiting] in *. lia.
      * by apply Forall_insert.
    + cbn [winding_down] in Hwd. rewrite real_cond in Hwd.
      destruct (truthy source && truthy dest); [done |]. cbn [andb] in Hstep.
      injection Hstep as <-. specialize (Hins (WTaskDone false)).
      split; fields; unfold total_of; try done.
      * exists k. rewrite length_insert. split; [done |].
        cbn [waiting] in *. lia.
      * by apply Forall_insert.
    + destruct again; [done |]. specialize (Hins WExited).
      destruct un as [| n]; injection Hstep as <-;
        split; fields; unfold total_of; try done;
        try (by apply Forall_insert);
        exists k; rewrite length_insert; (split; [done |]);
        cbn [waiting] in *; lia.
Qed.

Lemma all_waiting (th : list wpc) :
  Forall (fun pc => alive pc = true) th ->
  sum_list_with holding th = 0 ->
  sum_list_with waiting th = length th
  /\ Forall (fun pc => winding_down pc = true) th.
Proof.
  induction th as [| pc th IH]; [done |].
  intros Ha Hh. inversion Ha as [| ? ? Hpc Hrest]; subst.
  cbn in Hh. destruct pc; cbn in Hpc, Hh; try done; try lia.
  destruct (IH Hrest ltac:(lia)) as [Hw Hwd].
  split; [cbn; lia | by constructor].
Qed.

Lemma all_exited_holding (th : list wpc) :
  Forall (fun pc => pc = WExited) th ->
  sum_list_with holding th = 0 /\ sum_list_with pending th = 0.
Proof.
  induction 1 as [| pc th -> _ [IH1 IH2] ]; [done |]. cbn. lia.
Qed.

(** A session stays one: before the return of [wait] the pool is lively,
    afterwards it is winding down. *)
Lemma session_step (K E0 : nat) (t : tid) (s s' : state) :
  invariant K E0 s -> in_session s -> step t s = Some s' -> in_session s'.
Proof.
  intros Hinv [[Hopen Hl] | Hcl] Hstep; [| right; by eapply closing_step].
  destruct (lively_step K E0 t s s' Hinv Hl Hstep) as [_ Hnext].
  assert (Hgo : opening (main s') = true -> in_session s').
  { intros Ho. left. split; [done |]. destruct Hnext as [Hl' | Hd]; [done |].
    unfold drained in Hd.
    by rewrite (drained_not_before _ (opening_before _ Ho)) in Hd. }
  destruct t as [| i].
  - cbn [step] in Hstep. destruct (main s) as [| c rest] eqn:Hmain; [done |].
    destruct c; try done.
    + (* a turn of [start] *)
      apply Hgo. cbn [opening] in Hopen. cbn [main_step] in Hstep.
      destruct (_stopping s); injection Hstep as <-; by destruct s.
    + (* [wait] returns *)
      destruct rest as [| [] tail]; try done. cbn [opening] in Hopen.
      cbn [main_step] in Hstep.
      destruct (unfinished_tasks s) eqn:Hun; [| done]. injection Hstep as <-.
      pose proof (inv_unfinished K E0 s Hinv) as Hu. rewrite Hun in Hu.
      unfold total_of in Hu.
      destruct (all_waiting (_threads s) (lv_alive s Hl) ltac:(lia)) as [Hw Hwd].
      assert (Hq : _file_queue s = []).
      { destruct (_file_queue s); [done | cbn in Hu; lia]. }
      right. destruct s as [st qu un to co lo th ma w lg].
      cbn [_stopping _file_queue unfinished_tasks total_file_count
           copied_file_count lock _threads main fs log] in *.
      subst qu. split; fields; unfold total_of; try done.
      * exists (length th). cbn [sentinels_due]. rewrite Hopen.
        split; [done |]. cbn [length]. lia.
      * destruct lo as [j |]; [| done].
        destruct (lv_holder _ Hl j eq_refl) as (pc & Hpc & Hcs).
        cbn [_threads] in Hpc.
        pose proof (sum_lookup holding th j pc Hpc). destruct pc; try done;
          cbn [holding] in *; lia.
  - apply Hgo. cbn [step] in Hstep.
    destruct (_threads s !! i) as [pc |]; [| done].
    assert (Hm : main s' = main s); [| by rewrite Hm].
    destruct s as [st qu un to co lo th ma w lg].
    destruct pc as [| [source dest] | | | | | | | | |]; cbn in Hstep;
      repeat case_match; try done; by injection Hstep as <-.
Qed.

Lemma session_run (K E0 : nat) (sched : list tid) (s : state) :
  invariant K E0 s -> in_session s -> in_session (run sched s).
Proof.
  revert s. induction sched as [| t sched IH]; intros s Hinv Hs; [done |].
  rewrite run_cons. destruct (step t s) as [s' |] eqn:Hstep;
    cbn [default from_option id]; [| by apply IH].
  apply IH; [by eapply step_invariant | by eapply session_step].
Qed.

(** When no thread can move in a session, it is over. *)
Lemma session_quiet (K E0 : nat) (s : state) :
  invariant K E0 s -> in_session s -> quiet s = true ->
  finished s /\ copied_file_count s + errors (log s) = K + E0.
Proof.
  intros Hinv Hs Hq0. pose proof (proj1 (quiet_spec s) Hq0) as Hquiet. clear Hq0.
  destruct Hs as [[_ Hl] | [(k & Hk & Hw) Hth Hq Hlo] ].
  { destruct (progress K E0 s Hinv Hl) as (t & s' & Hstep).
    by rewrite Hquiet in Hstep. }
  assert (Hmain : main s = []).
  { pose proof (Hquiet Main) as Hm. cbn [step] in Hm.
    destruct (main s) as [| c rest]; [done |].
    destruct c as [| | | [source dest] | j [tm |] | t0 t1 | |]; try done;
      cbn [sentinels_due puts_due forallb closing_call andb] in Hk; done. }
  rewrite Hmain in Hk. injection Hk as <-. unfold total_of in Hw.
  assert (Hget : forall i, _threads s !! i = Some WGet -> _file_queue s = []).
  { intros i Hi. pose proof (Hquiet (Worker i)) as Hstuck.
    cbn [step] in Hstuck. rewrite Hi in Hstuck. cbn [worker_step] in Hstuck.
    by destruct (_file_queue s). }
  assert (Hqueue : _file_queue s = []).
  { destruct (_file_queue s) as [| tk q] eqn:Hqu; [done |].
    destruct (sum_positive waiting (_threads s)) as (i & pc & Hi & Hpos);
      [cbn [length] in Hw; lia |].
    destruct pc; cbn in Hpos; try lia. by apply (Hget i). }
  assert (Hgone : Forall (fun pc => pc = WExited) (_threads s)).
  { apply Forall_lookup. intros i pc Hi.
    pose proof (Hquiet (Worker i)) as Hstuck. cbn [step] in Hstuck.
    rewrite Hi in Hstuck.
    pose proof (sum_lookup waiting _ i pc Hi) as Hle.
    rewrite Hw, Hqueue in Hle.
    destruct pc as [| [source dest] | | | | | | | | again |]; try done;
      cbn in Hle, Hstuck; try lia; repeat case_match; done. }
  destruct (all_exited_holding _ Hgone) as [Hhold Hpend].
  destruct Hinv as [Hu Hcount _ _ _ _]. unfold total_of in *.
  rewrite Hqueue, Hhold in Hu. rewrite Hqueue, Hpend in Hcount.
  cbn in Hu, Hcount. split; [by split | lia].
Qed.

Variable get_subdirs : filesystem -> string -> string -> res (list string).

Lemma init_no_sources (target : string) (startswith : list string) (s : state) :
  total_file_count (init get_subdirs [] target startswith s).2 = total_file_count s.
Proof. by destruct s. Qed.

(** The state [start_copy] hands to the threads is that of a session. *)
Lemma start_copy_session (sources_dirs : list string) (target_dir : string)
    (t_start t_end : Q) (w : filesystem) (l : list logline) :
  let s0 := start_copy get_subdirs sources_dirs target_dir t_start t_end w l in
  invariant (total_file_count s0) (errors l) s0 /\ in_session s0.
Proof.
  pose proof (init_planning get_subdirs (errors l) sources_dirs target_dir prefixes
                (__init__ w l)) as Hinit.
  pose proof (init_no_sources target_dir prefixes (__init__ w l)) as Hnone.
  cbn zeta. unfold start_copy.
  destruct (init _ _ _ _ _) as [[[] | e] s0] eqn:E;
    pose proof (Hinit _ _ (planning_init w l) eq_refl) as Hplan.
  - destruct (0 <? total_file_count s0)%nat eqn:Htotal.
    + apply Nat.ltb_lt in Htotal.
      pose proof (planning_invariant _ (length sources_dirs)
                    [CStop; CReport t_start t_end; CDone] _ Hplan eq_refl) as Hinv.
      split; [exact Hinv |]. left.
      change (start (length sources_dirs) ++ [CWait; CStop; CReport t_start t_end; CDone])
        with (start (length sources_dirs)
              ++ CWait :: CStop :: [CReport t_start t_end; CDone]).
      destruct Hplan as [Hco Hth Hlo Hst Hma Hq Hun Hre Her].
      split; [by destruct s0; cbn; rewrite opening_start |].
      destruct s0 as [st qu un to co lo th ma w0 lg].
      cbn [_stopping _file_queue unfinished_tasks total_file_count
           copied_file_count lock _threads main fs log] in *.
      subst. split; fields; try done.
      * apply reals_all. by rewrite Hre.
      * rewrite (spawns_start _ (CStop :: _)). cbn [length].
        destruct sources_dirs; [| cbn; lia].
        rewrite E in Hnone. cbn in Hnone. lia.
      * by rewrite (before_drain_start _ (CStop :: _)).
    + apply Nat.ltb_ge in Htotal.
      pose proof (planning_nothing _ [CNothing; CDone] _ Hplan ltac:(lia) eq_refl)
        as Hinv.
      split; [by replace (total_file_count _) with 0 by (destruct s0; cbn in *; lia) |].
      right. destruct Hplan as [Hco Hth Hlo Hst Hma Hq Hun Hre Her].
      destruct s0 as [st qu un to co lo th ma w0 lg].
      cbn [_stopping _file_queue unfinished_tasks total_file_count
           copied_file_count lock _threads main fs log] in *.
      subst. destruct qu; [| cbn in *; lia].
      split; fields; try done. by exists 0.
  - destruct (init_raise_untouched get_subdirs _ _ _ _ _ _ E) as (Hq0 & Ht0 & _).
    cbn in Hq0, Ht0.
    pose proof (planning_nothing _ [] _ Hplan Ht0 eq_refl) as Hinv.
    destruct Hplan as [Hco Hth Hlo Hst Hma Hq Hun Hre Her].
    destruct s0 as [st qu un to co lo th ma w0 lg].
    cbn [_stopping _file_queue unfinished_tasks total_file_count
         copied_file_count lock _threads main fs log] in *.
    subst. split; [exact Hinv |]. right. split; fields; try done. by exists 0.
Qed.

End Shutdown.

(** X8.  A session ends with nothing left behind.  Take any state the
    threads of a session reach after [init], under any interleaving.  If
    no thread can move there, then the session thread has made its last
    call, every worker has returned, the queue is empty and counts nothing
    as unfinished, the lock is free, and every planned file is either
    counted in [copied_file_count] or reported in an [Error copying: ...]
    line.  And from that state the threads get there by themselves: letting
    whichever can move do so ends in such a state. *)
Theorem X8_session_ends_with_all_returned
    (get_subdirs : filesystem -> string -> string -> res (list string))
    (sources_dirs : list string) (target_dir : string) (t_start t_end : Q)
    (w : filesystem) (l : list logline) (sched : list tid) :
  let s := run sched (start_copy get_subdirs sources_dirs target_dir
                        t_start t_end w l) in
  let s_end := run (Closing.greedy (Closing.work s) s) s in
  (Closing.quiet s = true ->
   Closing.finished s
   /\ copied_file_count s + errors (log s) = total_file_count s + errors l)
  /\ Closing.finished s_end
  /\ copied_file_count s_end + errors (log s_end)
     = total_file_count s_end + errors l.
Proof.
  intros s s_end.
  destruct (start_copy_session get_subdirs sources_dirs target_dir t_start t_end w l)
    as [Hinv Hs].
  set (s0 := start_copy get_subdirs sources_dirs target_dir t_start t_end w l) in *.
  assert (Hreach : forall sched',
            Closing.quiet (run sched' s0) = true ->
            Closing.finished (run sched' s0)
            /\ copied_file_count (run sched' s0) + errors (log (run sched' s0))
               = total_file_count (run sched' s0) + errors l).
  { intros sched' Hquiet. rewrite run_total.
    apply (session_quiet (total_file_count s0) (errors l)); [| | done].
    - by apply run_invariant.
    - by eapply session_run. }
  split; [apply Hreach |].
  subst s_end s. rewrite <- run_app. apply Hreach.
  rewrite run_app. apply greedy_quiet. lia.
Qed.

Lemma X8_session_ends_with_all_returned_witness :
  let s := run (Examples.round_robin 40)
             (start_copy Helpers.get_subdirs ["/A"; "/B"] "/T" 100 (205 # 2)
                Examples.cards []) in
  Closing.finished s /\ copied_file_count s + errors (log s) = total_file_count s.
Proof.
  intros s.
  destruct (X8_session_ends_with_all_returned Helpers.get_subdirs ["/A"; "/B"] "/T"
              100 (205 # 2) Examples.cards [] (Examples.round_robin 40))
    as [H _].
  assert (Hquiet : Closing.quiet s = true) by (vm_compute; reflexivity).
  destruct (H Hquiet) as [Hfin Hcount]. split; [exact Hfin |].
  change (errors []) with 0 in Hcount. subst s. lia.
Defined.

(** ** Starting the workers, and the flag [_stopping] *)

Section Pool.
Import Closing.

Lemma start_run (n : nat) (rest : list call) (s : state) :
  run (replicate n Main) (set_main (start n ++ rest) s)
  = set_main rest
      (set_threads (_threads s ++ (if _stopping s then [] else replicate n WGet)) s).
Proof.
  revert s. induction n as [| n IH]; intros s.
  - cbn. destruct s as [[] qu un to co lo th ma w lg]; fields; by rewrite app_nil_r.
  - cbn [replicate]. rewrite run_cons. unfold start. cbn [replicate app].
    fold (start n). cbn [step main set_main main_step _stopping].
    destruct s as [[] qu un to co lo th ma w lg]; fields.
    + specialize (IH (mkState true qu un to co lo th ma w lg)).
      revert IH. fields. by intros ->.
    + specialize (IH (mkState false qu un to co lo (th ++ [WGet]) ma w lg)).
      revert IH. fields. intros ->. by rewrite <- app_assoc.
Qed.

(** With [_stopping] set and no file in the hands of a worker, a step
    leaves the world and the count of copies as they are. *)
Lemma stopping_step (t : tid) (s s' : state) :
  _stopping s = true ->
  Forall (fun pc => idle pc = true) (_threads s) ->
  step t s = Some s' ->
  _stopping s' = true
  /\ Forall (fun pc => idle pc = true) (_threads s')
  /\ length (_threads s') = length (_threads s)
  /\ fs s' = fs s
  /\ copied_file_count s' = copied_file_count s
  /\ total_file_count s' = total_file_count s.
Proof.
  intros Hst Hidle Hstep. destruct s as [st qu un to co lo th ma w lg].
  cbn [_stopping _threads fs copied_file_count total_file_count] in *. subst st.
  destruct t as [| i]; cbn [step main _threads] in Hstep.
  - destruct ma as [| c rest]; [done |].
    destruct c as [| | | [source dest] | j [tm |] | t0 t1 | |];
      cbn [main_step _stopping unfinished_tasks _threads] in Hstep;
      repeat case_match; try done; injection Hstep as <-; by fields.
  - destruct (th !! i) as [pc |] eqn:Hpc; [| done].
    assert (Hi : idle pc = true).
    { eapply Forall_lookup_1 in Hidle; [exact Hidle | exact Hpc]. }
    destruct pc as [| [source dest] | | | | | | | | again |]; try done;
      cbn [worker_step _stopping _file_queue unfinished_tasks] in Hstep.
    + destruct qu as [| tk q]; [done |]. injection Hstep as <-. fields.
      rewrite length_insert. repeat split; try done. by apply Forall_insert.
    + rewrite andb_false_r in Hstep. injection Hstep as <-. fields.
      rewrite length_insert. repeat split; try done. by apply Forall_insert.
    + destruct un as [| n], again; injection Hstep as <-; fields;
        rewrite length_insert; repeat split; try done; by apply Forall_insert.
Qed.

End Pool.

(** X1.  [start(n)] on an object that has no thread yet (lines 55-63): once
    the loop has made its [n] turns there are [n] workers, each in
    [_file_queue.get()], when [_stopping] is off, and none when it is set;
    nothing else of the object has changed. *)
Theorem X1_start_spawns_or_refuses (n : nat) (rest : list call) (s : state) :
  _threads s = [] ->
  let s' := run (replicate n Main) (set_main (start n ++ rest) s) in
  s' = set_main rest
         (set_threads (if _stopping s then [] else replicate n WGet) s)
  /\ length (_threads s') = (if _stopping s then 0 else n).
Proof.
  intros Hth s'. subst s'. rewrite start_run, Hth. cbn [app].
  split; [done |].
  destruct s as [[] qu un to co lo th ma w lg]; fields; [done |].
  by rewrite length_replicate.
Qed.

Lemma X1_start_spawns_or_refuses_witness :
  _threads (run (replicate 3 Main)
              (set_main (start 3 ++ [CWait]) (__init__ Examples.cards [])))
  = [WGet; WGet; WGet].
Proof.
  destruct (X1_start_spawns_or_refuses 3 [CWait] (__init__ Examples.cards [])
              eq_refl) as [H _].
  rewrite H. reflexivity.
Defined.

(** X6.  Cancelling (line 40): once [_stopping] is set and no worker has a
    file in hand, nothing is copied any more, whatever is still in the queue
    or is put there later and however the threads are scheduled: the world
    and [copied_file_count] stay as they are, [_stopping] stays set, and
    [start] adds no worker. *)
Theorem X6_stopping_copies_nothing (sched : list tid) (s : state) :
  _stopping s = true ->
  Forall (fun pc => Closing.idle pc = true) (_threads s) ->
  let s' := run sched s in
  fs s' = fs s
  /\ copied_file_count s' = copied_file_count s
  /\ _stopping s' = true
  /\ length (_threads s') = length (_threads s)
  /\ Forall (fun pc => Closing.idle pc = true) (_threads s').
Proof.
  revert s. induction sched as [| t sched IH]; intros s Hst Hidle; [done |].
  cbn zeta. rewrite run_cons.
  destruct (step t s) as [s1 |] eqn:Hstep; cbn [default from_option id];
    [| by apply IH].
  destruct (stopping_step t s s1 Hst Hidle Hstep) as (Hst1 & Hidle1 & Hlen & Hfs & Hco & _).
  destruct (IH s1 Hst1 Hidle1) as (Hfs' & Hco' & Hst' & Hlen' & Hidle').
  repeat split; [congruence | congruence | done | congruence | done].
Qed.

Lemma X6_stopping_copies_nothing_witness :
  let s := set_stopping true
             (set_threads [WGet]
                (put (Some "/A/VID_001/f1.bin") (Some "/T/VID_001/")
                   (__init__ Examples.prepared []))) in
  fs (run [Worker 0; Worker 0; Worker 0] s) = Examples.prepared
  /\ copied_file_count (run [Worker 0; Worker 0; Worker 0] s) = 0.
Proof.
  intros s.
  destruct (X6_stopping_copies_nothing [Worker 0; Worker 0; Worker 0] s eq_refl
              ltac:(by repeat constructor)) as (Hfs & Hco & _).
  split; [exact Hfs | exact Hco].
Defined.

(** ** The handlers of the window *)

Section WindowFacts.
Import Window.

(** *** Themes *)

Lemma index_lookup (l : list string) (i : nat) (x : string) :
  NoDup l -> l !! i = Some x -> index l x = Some i.
Proof.
  revert i. induction l as [| y l IH]; intros i Hnd Hi; [done |].
  apply NoDup_cons in Hnd as [Hy Hnd]. cbn [index].
  destruct i as [| i]; cbn in Hi.
  - injection Hi as ->. by rewrite String.eqb_refl.
  - destruct (String.eqb_spec y x) as [-> | _].
    + exfalso. apply Hy. by eapply list_elem_of_lookup_2.
    + by rewrite (IH i Hnd Hi).
Qed.

Lemma set_theme_next (l : list string) (i : nat) :
  i < length l -> set_theme l (i + 1) = l !! ((i + 1) mod length l).
Proof.
  intros Hi. unfold set_theme.
  destruct (Nat.leb_spec (length l) (i + 1)) as [Hle | Hlt].
  - replace (i + 1) with (length l) by lia. by rewrite Nat.Div0.mod_same.
  - by rewrite Nat.mod_small.
Qed.

Lemma toggle_theme_next (l : list string) (i : nat) (current : string) :
  NoDup l -> l !! i = Some current ->
  toggle_theme l current = l !! ((i + 1) mod length l).
Proof.
  intros Hnd Hi. unfold toggle_theme. rewrite (index_lookup l i current Hnd Hi).
  cbn [default from_option id]. apply set_theme_next. by eapply lookup_lt_Some.
Qed.

Lemma toggles_next (l : list string) (k i : nat) (current : string) :
  NoDup l -> l !! i = Some current ->
  toggles l k current = l !! ((i + k) mod length l).
Proof.
  intros Hnd. revert i current. induction k as [| k IH]; intros i current Hi.
  - cbn [toggles]. rewrite Nat.add_0_r, Nat.mod_small; [done |].
    by eapply lookup_lt_Some.
  - cbn [toggles]. rewrite (toggle_theme_next l i current Hnd Hi).
    assert (Hlen : 0 < length l) by (apply lookup_lt_Some in Hi; lia).
    destruct (lookup_lt_is_Some_2 l ((i + 1) mod length l)) as [c' Hc'].
    { apply Nat.mod_upper_bound. lia. }
    rewrite Hc'. cbn. rewrite (IH _ c' Hc'), Nat.Div0.add_mod_idemp_l.
    f_equal. f_equal. lia.
Qed.

(** X9.  [toggle_theme] (lines 204-216) goes round the list
    [theme_names]: when the names differ from one another and the current
    theme is the [i]-th, one call selects the next one, the first after the
    last; [k] calls select the one [k] places further round; and as many
    calls as there are names bring the current theme back. *)
Theorem X9_toggle_theme_goes_round (theme_names : list string) (i : nat)
    (current : string) :
  NoDup theme_names ->
  theme_names !! i = Some current ->
  toggle_theme theme_names current
  = theme_names !! ((i + 1) mod length theme_names)
  /\ (forall k, toggles theme_names k current
                = theme_names !! ((i + k) mod length theme_names))
  /\ toggles theme_names (length theme_names) current = Some current.
Proof.
  intros Hnd Hi. split; [| split].
  - by apply toggle_theme_next.
  - intros k. by apply toggles_next.
  - rewrite (toggles_next theme_names _ i current Hnd Hi).
    replace (i + length theme_names) with (i + 1 * length theme_names) by lia.
    rewrite Nat.Div0.mod_add, Nat.mod_small; [done |]. by eapply lookup_lt_Some.
Qed.

(** *** The log *)

Lemma log_foldl (l : list string) (content : string) (buf : list string) :
  foldl (fun g text => log text g) (mkLogs (Some content) buf) l
  = mkLogs (Some (foldl (fun c text => log_text text c) content l)) buf.
Proof.
  revert content. induction l as [| text l IH]; intros content; [done |].
  cbn [foldl]. unfold log at 2. cbn [text_area _unprocessed_logs fmap option_fmap option_map].
  apply IH.
Qed.

Lemma flush_shown (content : string) (buf : list string) :
  _on_log_callback (mkLogs (Some content) buf)
  = mkLogs (Some (foldl (fun c text => log_text text c) content buf)) [].
Proof.
  unfold _on_log_callback. cbn [text_area _unprocessed_logs].
  by rewrite log_foldl.
Qed.

Lemma log_events_shown (es : list log_event) (content : string) (buf : list string) :
  exists content' buf',
    foldl log_step (mkLogs (Some content) buf) es = mkLogs (Some content') buf'
    /\ foldl (fun c text => log_text text c) content' buf'
       = foldl (fun c text => log_text text c) content (buf ++ logged es).
Proof.
  revert content buf. induction es as [| e es IH]; intros content buf.
  - exists content, buf. by rewrite app_nil_r.
  - cbn [foldl]. destruct e as [text |]; cbn [log_step].
    + unfold log_callback. cbn [text_area _unprocessed_logs].
      destruct (IH content (buf ++ [text])) as (c' & b' & E & H).
      exists c', b'. split; [done |]. rewrite H, <- app_assoc. done.
    + rewrite flush_shown.
      destruct (IH (foldl (fun c text => log_text text c) content buf) [])
        as (c' & b' & E & H).
      exists c', b'. split; [done |]. rewrite H. cbn [app].
      by rewrite foldl_app.
Qed.

Lemma log_events_hidden (es : list log_event) (buf : list string) :
  foldl log_step (mkLogs None buf) es = mkLogs None (buf ++ logged es).
Proof.
  revert buf. induction es as [| e es IH]; intros buf.
  - by rewrite app_nil_r.
  - cbn [foldl]. destruct e as [text |]; cbn [log_step].
    + unfold log_callback. cbn [text_area _unprocessed_logs].
      rewrite IH, <- app_assoc. done.
    + unfold _on_log_callback. cbn [text_area]. apply IH.
Qed.

(** X10.  The lines the threads hand to [log_callback] reach the widget
    through [_unprocessed_logs] (lines 447-486): however the calls of
    [log_callback] and the handlings of [<<log_callback>>] alternate, once
    the last event has been handled the widget holds what [log] would have
    written had it been called with each line in turn, nothing is lost or
    written twice, and the list is empty.  As long as the widget is not
    there the lines are kept. *)
Theorem X10_log_lines_reach_the_widget (es : list log_event) (content : string)
    (buf : list string) :
  foldl log_step (mkLogs (Some content) buf) (es ++ [Flushed])
  = mkLogs (Some (foldl (fun c text => log_text text c) content (buf ++ logged es)))
      []
  /\ foldl log_step (mkLogs None buf) es = mkLogs None (buf ++ logged es)
  /\ _on_log_callback
       (foldl log_step (mkLogs (Some content) buf) (es ++ [Flushed]))
     = foldl log_step (mkLogs (Some content) buf) (es ++ [Flushed]).
Proof.
  assert (E : foldl log_step (mkLogs (Some content) buf) (es ++ [Flushed])
              = mkLogs (Some (foldl (fun c text => log_text text c) content
                                (buf ++ logged es))) []).
  { rewrite foldl_snoc.
    destruct (log_events_shown es content buf) as (c' & b' & -> & H).
    cbn [log_step]. by rewrite flush_shown, H. }
  split; [exact E | split].
  - apply log_events_hidden.
  - rewrite E. by rewrite flush_shown.
Qed.

(** *** Starting, finishing, quitting *)

Lemma copying_stays (hs : list happening) (g : session) :
  copying g = true -> copying (foldl happen g hs) = true.
Proof.
  revert g. induction hs as [| h hs IH]; intros g Hg; [done |].
  cbn [foldl]. apply IH. destruct h as [[] | | |]; try done.
  cbn. unfold _is_copy_thread_alive. by destruct (_copy_thread g) as [[] |].
Qed.

(** X15.  [copying] is set when a copy is started and never reset (lines
    159, 409).  So from the first copy on, whatever happens next (the copy
    thread runs and returns, [<<done_callback>>] is handled, further
    attempts to start), [_on_quit] takes the forced exit, and an attempt to
    start that ends in an error box leaves the button [Start] disabled,
    because the [finally] clause of line 417 enables it only when
    [copying] is off.  Before the first copy the same attempt enables the
    button again, and [_on_quit] exits gently. *)
Theorem X15_copying_is_never_reset (g : session) (w : filesystem)
    (l : list logline) (hs : list happening) :
  let g' := foldl happen (_on_start (StartCopy w l) g) hs in
  copying g' = true
  /\ _on_quit g' = Forced
  /\ (forall title message w',
        button_start (_on_start (ShowError title message w') g') = false)
  /\ (forall title message w',
        button_start (_on_start (ShowError title message w') shown) = true)
  /\ _on_quit shown = Gentle.
Proof.
  intros g'.
  assert (Hc : copying g' = true) by (by apply copying_stays).
  split; [exact Hc | split; [| split; [| done] ] ].
  - unfold _on_quit. by rewrite Hc.
  - intros title message w'. cbn [_on_start button_start]. by rewrite Hc.
Qed.

End WindowFacts.

Lemma X9_toggle_theme_goes_round_witness :
  Window.toggle_theme ["awdark"; "awlight"] "awlight" = Some "awdark"
  /\ Window.toggles ["awdark"; "awlight"] 2 "awlight" = Some "awlight".
Proof.
  assert (Hnd : NoDup ["awdark"; "awlight"]).
  { apply NoDup_cons. split; [| apply NoDup_singleton].
    rewrite list_elem_of_singleton. discriminate. }
  destruct (X9_toggle_theme_goes_round ["awdark"; "awlight"] 1 "awlight" Hnd eq_refl)
    as (H1 & _ & H3).
  split; [exact H1 | exact H3].
Defined.

(** ** Choosing the sources and the target *)

Section SelectionFacts.
Import Window.

Variable platform : string.
Variable get_subdirs : filesystem -> string -> string -> res (list string).
Variable get_drives : filesystem -> list string.

Lemma endswith_nonempty (s : string) (c : ascii) :
  endswith s c = true -> nonempty s = true.
Proof. by destruct s. Qed.

Lemma chosen_dir_separator (answer : string) :
  platform <> "win32 and not sdir" ->
  ends_in_separator answer = true ->
  chosen_dir platform answer = sep.
Proof.
  intros Hp Hends. unfold chosen_dir. rewrite Hends.
  assert (Hne : nonempty answer = true).
  { unfold ends_in_separator in Hends. apply orb_prop in Hends as [H | H];
      by eapply endswith_nonempty. }
  rewrite Hne. by destruct (String.eqb_spec platform "win32 and not sdir").
Qed.

Lemma chosen_dir_plain (answer : string) :
  ends_in_separator answer = false -> chosen_dir platform answer = answer.
Proof. intros H. unfold chosen_dir. rewrite H. by destruct (nonempty answer). Qed.

Lemma apart_insert_end (sdir : string) (g : selection) :
  apart g -> nonempty sdir = true -> sdir ∉ source_listbox g ->
  startswith (target_dir_value g) sdir = false ->
  apart (insert_end sdir g).
Proof.
  intros [Hnd Hnamed Htarget] Hne Hnew Hsw. split; cbn.
  - apply NoDup_app. split; [done |]. split; [| apply NoDup_singleton].
    intros x Hx. rewrite list_elem_of_singleton. by intros ->.
  - apply Forall_app. split; [done | by constructor].
  - apply Forall_app. split; [done | by constructor].
Qed.

Lemma select_source_apart (answer : string) (w : filesystem) (g : selection) :
  apart g -> apart (_on_select_source_dir platform get_subdirs answer w g).2.
Proof.
  intros Hg. unfold _on_select_source_dir.
  destruct (nonempty (chosen_dir platform answer)) eqn:Hne; [| done].
  destruct (decide _) as [Hin | Hnew]; [done |].
  destruct (startswith _ _) eqn:Hsw; [done |].
  pose proof (apart_insert_end _ g Hg Hne Hnew Hsw) as Hg'.
  destruct (get_subdirs w _ "VID_") as [[| d recordings] | e]; try done.
  by destruct (get_subdirs w _ "PIC_") as [[| d recordings] | e].
Qed.

Lemma select_target_apart (answer : string) (w : filesystem) (g : selection) :
  apart g -> apart (_on_select_target_dir platform answer w g).2.
Proof.
  intros Hg. unfold _on_select_target_dir.
  destruct (nonempty (chosen_dir platform answer)); [| done].
  destruct (existsb _ _) eqn:Hex; [done |].
  destruct Hg as [Hnd Hnamed _]. split; cbn; try done.
  apply Forall_forall. intros sdir Hin.
  destruct (startswith (chosen_dir platform answer) sdir) eqn:Hsw; [| done].
  assert (Htrue : existsb (fun sdir => startswith (chosen_dir platform answer) sdir)
                    (source_listbox g) = true).
  { apply existsb_exists. exists sdir. split; [| done].
    by apply list_elem_of_In. }
  congruence.
Qed.

Lemma remove_source_apart (curselection : list nat) (g : selection) :
  apart g -> apart (_on_remove_source_dir curselection g).
Proof.
  intros Hg. unfold _on_remove_source_dir.
  destruct curselection as [| i [| j sel] ]; try done.
  destruct Hg as [Hnd Hnamed Htarget].
  pose proof (sublist_delete (source_listbox g) i) as Hsub.
  split; cbn.
  - by eapply sublist_NoDup.
  - apply Forall_forall. intros x Hx. rewrite Forall_forall in Hnamed.
    apply Hnamed. by eapply elem_of_sublist.
  - apply Forall_forall. intros x Hx. rewrite Forall_forall in Htarget.
    apply Htarget. by eapply elem_of_sublist.
Qed.

(** X11.  What the handlers [Choose card], [Remove selected] and [Choose
    folder] keep of the selection (lines 221-269): no source is listed
    twice, none is the empty string, and the target does not start with any
    listed source, so that it is neither a source nor, as a string, below
    one.  It holds of the empty selection, and each of the three handlers
    keeps it, whatever the dialog answers and whether or not
    [Helpers.get_subdirs] raises. *)
Theorem X11_selection_stays_apart (g : selection) (answer : string)
    (curselection : list nat) (w : filesystem) :
  apart (mkSelection [] "")
  /\ (apart g ->
      apart (_on_select_source_dir platform get_subdirs answer w g).2
      /\ apart (_on_select_target_dir platform answer w g).2
      /\ apart (_on_remove_source_dir curselection g)
      /\ forall sdir, sdir ∈ source_listbox g -> target_dir_value g <> sdir).
Proof.
  split.
  - split; cbn; [apply NoDup_nil_2 | constructor | constructor].
  - intros Hg. split; [by apply select_source_apart |].
    split; [by apply select_target_apart |].
    split; [by apply remove_source_apart |].
    intros sdir Hin Heq. destruct Hg as [_ _ Htarget].
    rewrite Forall_forall in Htarget. specialize (Htarget sdir Hin).
    rewrite Heq in Htarget.
    assert (Hrefl : forall s, startswith s s = true).
    { intros s. induction s as [| a s IH]; [done |]. cbn.
      by rewrite Ascii.eqb_refl, IH. }
    by rewrite Hrefl in Htarget.
Qed.

(** X12.  The answer of the directory dialog (lines 223-227, 256-260): one
    that does not end in a separator is taken as it is; one that does is
    replaced by [os.path.sep], whatever came before the separator, since
    line 226 compares [sys.platform] with the string ['win32 and not sdir'],
    which no platform is called.  So a card chosen as [/media/card/] is
    entered as [/]. *)
Theorem X12_trailing_separator_selects_root (answer : string) :
  (platform <> "win32 and not sdir" ->
   ends_in_separator answer = true ->
   chosen_dir platform answer = sep)
  /\ (ends_in_separator answer = false -> chosen_dir platform answer = answer).
Proof.
  split.
  - intros Hp Hends. by apply chosen_dir_separator.
  - intros Hplain. by apply chosen_dir_plain.
Qed.

(** *** Finding the cards *)

Lemma find_cards_loop (w : filesystem) (entries drives : list string) :
  let cards := foldl (find_card w entries) ([], []) drives in
  (forall c, c ∈ cards.1 <->
             exists d, d ∈ drives /\ c = strip_separator d
                       /\ isfile w (join c ".pro_suc") = true)
  /\ (forall c, c ∈ cards.2 <-> c ∈ cards.1 /\ c ∉ entries).
Proof.
  induction drives as [| d drives IH] using rev_ind.
  - cbn. split; intros c; split.
    + by intros ?%elem_of_nil.
    + intros (d & Hd%elem_of_nil & _). done.
    + by intros ?%elem_of_nil.
    + by intros [?%elem_of_nil _].
  - cbn zeta in *. rewrite foldl_snoc.
    destruct (foldl (find_card w entries) ([], []) drives) as [all new].
    cbn [fst snd] in IH. destruct IH as [IHall IHnew].
    unfold find_card. cbn [fst snd].
    destruct (isfile w (join (strip_separator d) ".pro_suc")) eqn:Hmark; cbn [fst snd].
    + split; intros c.
      * rewrite elem_of_app, list_elem_of_singleton, IHall. split.
        -- intros [(d' & Hd' & Hc & Hm) | ->].
           ++ exists d'. rewrite elem_of_app. auto.
           ++ exists d. rewrite elem_of_app, list_elem_of_singleton. auto.
        -- intros (d' & Hd' & Hc & Hm).
           rewrite elem_of_app, list_elem_of_singleton in Hd'.
           destruct Hd' as [Hd' | ->]; [left; eauto | by right].
      * destruct (decide (strip_separator d ∈ entries)) as [Hin | Hout].
        -- rewrite IHnew, elem_of_app, list_elem_of_singleton. split.
           ++ intros [Hc Hne]. auto.
           ++ intros [[Hc | ->] Hne]; [done | by destruct Hne].
        -- rewrite !elem_of_app, list_elem_of_singleton, IHnew. split.
           ++ intros [[Hc Hne] | ->]; auto.
           ++ intros [[Hc | ->] Hne]; auto.
    + split; intros c.
      * rewrite IHall. split.
        -- intros (d' & Hd' & Hc & Hm). exists d'. rewrite elem_of_app. auto.
        -- intros (d' & Hd' & Hc & Hm).
           rewrite elem_of_app, list_elem_of_singleton in Hd'.
           destruct Hd' as [Hd' | ->]; [eauto | congruence].
      * apply IHnew.
Qed.

(** X13.  [Find cards] (lines 271-291) keeps the entries of the list and
    the target as they are and appends cards: a card is added exactly when
    it is a drive of [Helpers.get_drives()], one trailing separator
    removed, that holds a regular file [.pro_suc] and is not in the list
    yet.  The box [No new Pro 2 cards found.] is shown exactly when no
    drive holds the file, so not when every card found is in the list
    already. *)
Theorem X13_find_cards_adds_marked_drives (w : filesystem) (g : selection) :
  let r := _on_find_cards get_drives w g in
  exists added,
    source_listbox (r.2) = source_listbox g ++ added
    /\ target_dir_value (r.2) = target_dir_value g
    /\ (forall c, c ∈ added <->
          (c ∉ source_listbox g)
          /\ exists d, d ∈ get_drives w /\ c = strip_separator d
                       /\ isfile w (join c ".pro_suc") = true)
    /\ (r.1 = [] <->
        exists d, d ∈ get_drives w
                  /\ isfile w (join (strip_separator d) ".pro_suc") = true)
    /\ (r.1 = [] \/ r.1 = [showwarning "Info" "No new Pro 2 cards found."]).
Proof.
  cbn zeta. unfold _on_find_cards. cbn zeta.
  destruct (find_cards_loop w (source_listbox g) (get_drives w)) as [Hall Hnew].
  cbn zeta in Hall, Hnew.
  destruct (foldl (find_card w (source_listbox g)) ([], []) (get_drives w))
    as [all new].
  cbn [fst snd] in *. exists new. repeat split; try done.
  - by apply Hnew.
  - apply Hall. by apply Hnew.
  - intros [Hout Hd]. apply Hnew. split; [by apply Hall | done].
  - intros Hnil. destruct all as [| c all]; [done |].
    destruct (proj1 (Hall c) ltac:(by left)) as (d & Hd & -> & Hm). eauto.
  - intros (d & Hd & Hm). destruct all as [| c all]; [| done].
    assert (Hin : strip_separator d ∈ []) by (apply Hall; eauto).
    by apply elem_of_nil in Hin.
  - destruct all; auto.
Qed.

End SelectionFacts.

Lemma X11_selection_stays_apart_witness :
  Window.apart
    (Window._on_select_source_dir "linux" Helpers.get_subdirs "/A" Examples.cards
       (Window.mkSelection [] "/T")).2.
Proof.
  assert (H0 : Window.apart (Window.mkSelection [] "/T")).
  { split; cbn; [apply NoDup_nil_2 | constructor | constructor]. }
  destruct (X11_selection_stays_apart "linux" Helpers.get_subdirs
              (Window.mkSelection [] "/T") "/A" [] Examples.cards) as [_ H].
  destruct (H H0) as [Hsrc _]. exact Hsrc.
Defined.

Lemma X12_trailing_separator_selects_root_witness :
  Window.chosen_dir "linux" "/media/card/" = "/".
Proof.
  destruct (X12_trailing_separator_selects_root "linux" "/media/card/") as [H _].
  apply H; [discriminate | reflexivity].
Defined.

Lemma X13_find_cards_adds_marked_drives_witness :
  "/A" ∈ Window.source_listbox
           (Window._on_find_cards (fun _ => ["/A/"; "/B"]) Cases.marked
              (Window.mkSelection [] "")).2.
Proof.
  destruct (X13_find_cards_adds_marked_drives (fun _ => ["/A/"; "/B"]) Cases.marked
              (Window.mkSelection [] "")) as (added & H & _ & Hadded & _).
  rewrite H. cbn [Window.source_listbox app]. apply Hadded. split.
  - apply not_elem_of_nil.
  - exists "/A/". split; [by left |]. split; vm_compute; reflexivity.
Defined.

(** ** Erasing the cards *)

Section EraseFacts.
Import Window.

Variable system_root_path : string.

Lemma erase_card_ext
    (erase_all erase_all' : filesystem -> string -> string -> res unit * filesystem)
    (source : string) (st : string * filesystem) :
  (forall w s keep, nonempty s = true -> s <> system_root_path ->
                    erase_all w s keep = erase_all' w s keep) ->
  erase_card system_root_path erase_all source st
  = erase_card system_root_path erase_all' source st.
Proof.
  intros Hext. unfold erase_card. destruct st as [content w].
  destruct (nonempty source) eqn:Hne; cbn [negb]; [| done].
  destruct (String.eqb_spec source system_root_path) as [-> | Hroot]; [done |].
  by rewrite (Hext w source ".pro_suc" Hne Hroot).
Qed.

Lemma erase_cards_ext
    (erase_all erase_all' : filesystem -> string -> string -> res unit * filesystem)
    (sources : list string) (st : string * filesystem) :
  (forall w s keep, nonempty s = true -> s <> system_root_path ->
                    erase_all w s keep = erase_all' w s keep) ->
  erase_cards system_root_path erase_all sources st
  = erase_cards system_root_path erase_all' sources st.
Proof.
  intros Hext. revert st. induction sources as [| source sources IH]; intros st;
    [done |].
  cbn [erase_cards]. rewrite (erase_card_ext erase_all erase_all' source st Hext).
  destruct (erase_card system_root_path erase_all' source st) as [[] st']; [| done].
  apply IH.
Qed.

Variable erase_all : filesystem -> string -> string -> res unit * filesystem.

Lemma erase_cards_app (l1 l2 : list string) (st : string * filesystem) :
  erase_cards system_root_path erase_all (l1 ++ l2) st
  = match erase_cards system_root_path erase_all l1 st with
    | (true, st') => erase_cards system_root_path erase_all l2 st'
    | stop => stop
    end.
Proof.
  revert st. induction l1 as [| s l1 IH]; intros st; [done |].
  cbn [app erase_cards].
  destruct (erase_card system_root_path erase_all s st) as [[] st']; [| done].
  apply IH.
Qed.

Lemma erase_cards_spared (sources : list string) (content : string)
    (w : filesystem) :
  Forall (fun s => nonempty s = false \/ s = system_root_path) sources ->
  exists content',
    erase_cards system_root_path erase_all sources (content, w)
    = (true, (content', w)).
Proof.
  intros H. revert content. induction H as [| s sources Hs _ IH]; intros content.
  - by exists content.
  - cbn [erase_cards]. unfold erase_card.
    destruct (nonempty s) eqn:Hne; cbn [negb]; [| apply IH].
    destruct Hs as [Hs | ->]; [done |]. rewrite String.eqb_refl. apply IH.
Qed.

(** X14.  [Erase cards] (lines 330-355):
    - when the user answers no, the world stays as it is;
    - [Helpers.erase_all] is not called for the empty string nor for the
      system root: what the handler does is the same for any two helpers
      that agree on all other sources, and a list of such sources only
      leaves the world as it is;
    - the first card for which [erase_all] or one of the two [os.mkdir]
      raises ends the handler: the cards after it are not touched. *)
Theorem X14_erase_spares_root_and_stops
    (erase_all' : filesystem -> string -> string -> res unit * filesystem)
    (answer : bool) (sources_dirs : list string) (w : filesystem) :
  (_on_erase_source_dir system_root_path erase_all false sources_dirs w).2.2 = w
  /\ ((forall w s keep, nonempty s = true -> s <> system_root_path ->
                        erase_all w s keep = erase_all' w s keep) ->
      _on_erase_source_dir system_root_path erase_all answer sources_dirs w
      = _on_erase_source_dir system_root_path erase_all' answer sources_dirs w)
  /\ (Forall (fun s => nonempty s = false \/ s = system_root_path) sources_dirs ->
      (_on_erase_source_dir system_root_path erase_all answer sources_dirs w).2.2 = w)
  /\ (forall before source after st st1 st2,
        erase_cards system_root_path erase_all before st = (true, st1) ->
        erase_card system_root_path erase_all source st1 = (false, st2) ->
        erase_cards system_root_path erase_all (before ++ source :: after) st
        = (false, st2)).
Proof.
  split; [| split; [| split] ].
  - unfold _on_erase_source_dir. by destruct sources_dirs.
  - intros Hext. unfold _on_erase_source_dir.
    destruct sources_dirs as [| s l]; [done |].
    by rewrite (erase_cards_ext erase_all erase_all' (s :: l) _ Hext).
  - intros Hspared. unfold _on_erase_source_dir.
    destruct sources_dirs as [| s l] eqn:E; [done |]. rewrite <- E in *.
    destruct answer; [| done].
    destruct (erase_cards_spared sources_dirs
                (log_text ""
                   (log_text ("Erasing all files except Insta360" +:+ nl
                              +:+ "speed test success indicator:") "")) w Hspared)
      as [content' ->].
    done.
  - intros before source after st st1 st2 Hbefore Hcard.
    rewrite erase_cards_app, Hbefore. cbn [erase_cards]. by rewrite Hcard.
Qed.

End EraseFacts.

Lemma X14_erase_spares_root_and_stops_witness :
  (Window._on_erase_source_dir "/" Cases.erase_recordings true [""; "/"]
     Examples.cards).2.2 = Examples.cards
  /\ (Window.erase_cards "/" Cases.failing_erase ["/A"; "/B"] ("", Examples.cards)).2.2
     = Examples.cards.
Proof.
  destruct (X14_erase_spares_root_and_stops "/" Cases.failing_erase
              Cases.erase_recordings true [""; "/"] Examples.cards)
    as (_ & _ & _ & Hstop).
  destruct (X14_erase_spares_root_and_stops "/" Cases.erase_recordings
              Cases.erase_recordings true [""; "/"] Examples.cards)
    as (_ & _ & Hspared & _).
  split.
  - apply Hspared.
    constructor; [by left | constructor; [by right | constructor] ].
  - pose proof (Hstop [] "/A" ["/B"] ("", Examples.cards) ("", Examples.cards)
                  ("", Examples.cards) eq_refl eq_refl) as E.
    cbn [app] in E. by rewrite E.
Defined.

(** ** The checks before a copy is started *)

Section StartChecks.

Variable get_used_space : filesystem -> list string -> Z.
Variable get_free_space : filesystem -> string -> Z.





End StartChecks.


(** ** The last line of the log, and the lock *)

Section Summary.
Import Closing.

Lemma stop_calls_silent (th : list wpc) : forallb silent (stop_calls th) = true.
Proof.
  unfold stop_calls. rewrite forallb_app. apply andb_true_intro. split.
  - by induction th.
  - generalize 0. induction (length th) as [| n IH]; intros k; [done |]. apply IH.
Qed.

Lemma start_silent (n : nat) : forallb silent (start n) = true.
Proof. unfold start. induction n as [| n IH]; [done | exact IH]. Qed.

(** A worker that is winding down leaves log and counters alone. *)
Lemma closing_worker_silent (i : nat) (s s' : state) :
  closing s -> step (Worker i) s = Some s' ->
  log s' = log s /\ copied_file_count s' = copied_file_count s
  /\ total_file_count s' = total_file_count s /\ main s' = main s.
Proof.
  intros [_ Hth _ _] Hstep. cbn [step] in Hstep.
  destruct (_threads s !! i) as [pc |] eqn:Hpc; [| done].
  assert (Hwd : winding_down pc = true).
  { eapply Forall_lookup_1 in Hth; [exact Hth | exact Hpc]. }
  destruct s as [st qu un to co lo th ma w lg].
  destruct pc as [| [source dest] | | | | | | | | again |]; try done;
    cbn [worker_step _stopping _file_queue unfinished_tasks] in Hstep.
  - destruct qu; [done |]. by injection Hstep as <-.
  - cbn [winding_down] in Hwd. rewrite real_cond in Hwd.
    destruct (truthy source && truthy dest); [done |]. by injection Hstep as <-.
  - destruct un, again; try done; by injection Hstep as <-.
Qed.

Lemma opening_not_done (p : list call) :
  p = [CDone] \/ p = [] -> opening p = false.
Proof. by intros [-> | ->]. Qed.

Lemma summing_up_step (c : call) (t : tid) (s s' : state) :
  silent c = false ->
  in_session s -> summing_up c s -> step t s = Some s' -> summing_up c s'.
Proof.
  intros Hc Hs Hsum Hstep. destruct t as [| i].
  - (* the session thread *)
    cbn [step] in Hstep. destruct Hsum as [(pre & Hmain & Hpre) | [Hmain Hlast] ].
    + rewrite Hmain in Hstep. destruct pre as [| x pre].
      * cbn [app] in Hstep. right.
        destruct s as [st qu un to co lo th ma w lg].
        destruct c as [| | | | | t0 t1 | |]; try done;
          injection Hstep as <-; fields; (split; [by left |]);
          by rewrite last_snoc.
      * cbn [app] in Hstep. cbn [forallb] in Hpre.
        apply andb_prop in Hpre as [Hx Hpre]. left.
        destruct s as [st qu un to co lo th ma w lg].
        destruct x as [| | | [source dest] | j [tm |] | | |]; try done;
          cbn [main_step _stopping unfinished_tasks _threads] in Hstep;
          repeat case_match; try done; injection Hstep as <-; fields;
          try (by exists pre).
        exists (stop_calls th ++ pre). rewrite <- app_assoc. split; [done |].
        by rewrite forallb_app, stop_calls_silent.
    + right. destruct Hmain as [Hmain | Hmain]; rewrite Hmain in Hstep; [| done].
      injection Hstep as <-. destruct s as [st qu un to co lo th ma w lg].
      fields. cbn in Hlast. split; [by right |]. by destruct c.
  - (* a worker *)
    destruct Hsum as [(pre & Hmain & Hpre) | [Hmain Hlast] ].
    + left. exists pre. split; [| done]. rewrite <- Hmain.
      cbn [step] in Hstep. destruct (_threads s !! i) as [pc |]; [| done].
      destruct s as [st qu un to co lo th ma w lg].
      destruct pc as [| [source dest] | | | | | | | | |]; cbn in Hstep;
        repeat case_match; try done; by injection Hstep as <-.
    + destruct Hs as [[Hopen _] | Hcl].
      { by rewrite (opening_not_done _ Hmain) in Hopen. }
      destruct (closing_worker_silent i s s' Hcl Hstep) as (Hlog & Hco & Hto & Hma).
      right. rewrite Hma, Hlog. split; [done |].
      rewrite Hlast. f_equal. destruct c; try done. cbn. by rewrite Hco, Hto.
Qed.

Lemma summing_up_run (K E0 : nat) (c : call) (sched : list tid) (s : state) :
  silent c = false ->
  invariant K E0 s -> in_session s -> summing_up c s ->
  summing_up c (run sched s).
Proof.
  intros Hc. revert s. induction sched as [| t sched IH]; intros s Hinv Hs Hsum;
    [done |].
  rewrite run_cons. destruct (step t s) as [s' |] eqn:Hstep;
    cbn [default from_option id]; [| by apply IH].
  apply IH; [by eapply step_invariant | by eapply session_step |
             by eapply summing_up_step].
Qed.

End Summary.

(** X17.  When [init] has returned and the session has come to rest, the
    last line of the log is the line on which the session thread ends (lines
    402 and 404): [++ Finished copying c of n files in d s. ++] with [c]
    the final [copied_file_count] and [n] the final [total_file_count] when
    files were planned, [++ Finished. Nothing to copy. ++] when none was.
    No line of a worker comes after it. *)
Theorem X17_summary_is_the_last_line
    (get_subdirs : filesystem -> string -> string -> res (list string))
    (sources_dirs : list string) (target_dir : string) (t_start t_end : Q)
    (w : filesystem) (l : list logline) (s0 : state) (sched : list tid) :
  init get_subdirs sources_dirs target_dir prefixes (__init__ w l) = (Ok tt, s0) ->
  let s := run sched (start_copy get_subdirs sources_dirs target_dir
                        t_start t_end w l) in
  Closing.quiet s = true ->
  last (log s)
  = Some (if (0 <? total_file_count s0)%nat
          then LFinished (copied_file_count s) (total_file_count s0)
                 (duration t_start t_end)
          else LNothing).
Proof.
  intros Hinit s Hquiet.
  destruct (start_copy_session get_subdirs sources_dirs target_dir t_start t_end w l)
    as [Hinv Hs].
  pose proof (start_copy_program get_subdirs sources_dirs target_dir t_start t_end
                w l s0 Hinit) as Hmain.
  assert (Htotal : total_file_count s = total_file_count s0).
  { subst s. rewrite run_total. unfold start_copy. rewrite Hinit.
    by destruct (0 <? total_file_count s0)%nat. }
  set (c := if (0 <? total_file_count s0)%nat then CReport t_start t_end else CNothing).
  assert (Hc : Closing.silent c = false).
  { subst c. by destruct (0 <? total_file_count s0)%nat. }
  assert (Hstart : Closing.summing_up c
                     (start_copy get_subdirs sources_dirs target_dir
                        t_start t_end w l)).
  { left. rewrite Hmain. subst c. destruct (0 <? total_file_count s0)%nat.
    - exists (start (length sources_dirs) ++ [CWait; CStop]).
      rewrite <- app_assoc. split; [done |]. rewrite forallb_app.
      by rewrite start_silent.
    - by exists []. }
  pose proof (summing_up_run _ _ c sched _ Hc Hinv Hs Hstart) as Hsum.
  pose proof (session_run _ _ sched _ Hinv Hs) as Hs'.
  pose proof (run_invariant _ _ sched _ Hinv) as Hinv'.
  destruct (session_quiet _ _ _ Hinv' Hs' Hquiet) as [[Hfin _ _ _ _] _].
  fold s in Hsum, Hfin. destruct Hsum as [(pre & Hpre & _) | [_ Hlast] ].
  - rewrite Hfin in Hpre. by destruct pre.
  - rewrite Hlast. f_equal. subst c.
    destruct (0 <? total_file_count s0)%nat; [| done]. cbn. by rewrite Htotal.
Qed.

Lemma X17_summary_is_the_last_line_witness :
  last (log (run (Examples.round_robin 40)
               (start_copy Helpers.get_subdirs ["/A"; "/B"] "/T" 100 (205 # 2)
                  Examples.cards [])))
  = Some (LFinished 4 4 3).
Proof.
  pose (s0 := (init Helpers.get_subdirs ["/A"; "/B"] "/T" prefixes
                 (__init__ Examples.cards [])).2).
  assert (Hinit : init Helpers.get_subdirs ["/A"; "/B"] "/T" prefixes
                    (__init__ Examples.cards []) = (Ok tt, s0))
    by (vm_compute; reflexivity).
  assert (Hquiet : Closing.quiet
                     (run (Examples.round_robin 40)
                        (start_copy Helpers.get_subdirs ["/A"; "/B"] "/T" 100 (205 # 2)
                           Examples.cards [])) = true)
    by (vm_compute; reflexivity).
  rewrite (X17_summary_is_the_last_line Helpers.get_subdirs ["/A"; "/B"] "/T"
             100 (205 # 2) Examples.cards [] s0 (Examples.round_robin 40)
             Hinit Hquiet).
  vm_compute. reflexivity.
Defined.

(** X18.  The lock (lines 43-44): in every state a session reaches, at
    most one worker is inside [with self.lock], it is the one recorded as the
    holder, and the value it is about to write to [copied_file_count] is one
    more than the value the counter has; so no increment is lost. *)
Theorem X18_one_worker_inside_the_lock
    (get_subdirs : filesystem -> string -> string -> res (list string))
    (sources_dirs : list string) (target_dir : string) (t_start t_end : Q)
    (w : filesystem) (l : list logline) (sched : list tid)
    (i j : nat) (pci pcj : wpc) :
  let s := run sched (start_copy get_subdirs sources_dirs target_dir
                        t_start t_end w l) in
  _threads s !! i = Some pci -> in_cs pci = true ->
  _threads s !! j = Some pcj -> in_cs pcj = true ->
  i = j /\ lock s = Some i
  /\ (forall v, pci = WStore v -> v = copied_file_count s).
Proof.
  intros s Hi Hci Hj Hcj.
  destruct (start_copy_session get_subdirs sources_dirs target_dir t_start t_end w l)
    as [Hinv _].
  apply (run_invariant _ _ sched) in Hinv. fold s in Hinv.
  destruct Hinv as [_ _ _ Hlock Hstore _].
  pose proof (Hlock i pci Hi Hci) as Li. pose proof (Hlock j pcj Hj Hcj) as Lj.
  split; [congruence |]. split; [done |].
  intros v ->. by eapply Hstore.
Qed.

Lemma X18_one_worker_inside_the_lock_witness :
  lock (run [Main; Main; Worker 0; Worker 0; Worker 0; Worker 0; Worker 0;
             Worker 1; Worker 1; Worker 1; Worker 1; Worker 1]
          (start_copy Helpers.get_subdirs ["/A"; "/B"] "/T" 100 (205 # 2)
             Examples.cards []))
  = Some 0.
Proof.
  pose (sched := [Main; Main; Worker 0; Worker 0; Worker 0; Worker 0; Worker 0;
                  Worker 1; Worker 1; Worker 1; Worker 1; Worker 1]).
  assert (H0 : _threads (run sched
                           (start_copy Helpers.get_subdirs ["/A"; "/B"] "/T" 100
                              (205 # 2) Examples.cards [])) !! 0 = Some WLoad)
    by (vm_compute; reflexivity).
  destruct (X18_one_worker_inside_the_lock Helpers.get_subdirs ["/A"; "/B"] "/T"
              100 (205 # 2) Examples.cards [] sched 0 0 WLoad WLoad
              H0 eq_refl H0 eq_refl) as (_ & Hlock & _).
  exact Hlock.
Defined.
